(** * ProteinBiophysics: the JASCO spectrum records of [cd_library.py] and
    [abs_library.py]

    A shallow embedding of the three record classes that parse a JASCO
    export and of their signal-transformation methods, followed by the
    properties of the specification that concern them.

    Conventions of the embedding.
    - A Python float (and the ints mixed with them) is an element of a type
      [F] carrying the operations of class [Number]; nothing is assumed of
      them except where a theorem says so.  Instance [Number_float] is the
      IEEE binary64 arithmetic of the kernel, that of CPython and numpy.
    - A pandas [Series] is its list of (index label, value) pairs, in
      positional order.  [.iloc] addresses positions, [.index] and the
      alignment of binary operations address labels.
    - Series are objects: attributes hold references into a [Heap], so that
      two attributes bound to the same column are aliases.
    - A method is a function from the state before the call to an outcome
      (return value or raised exception) and the state after it; [print]
      appends to [stdout].
    - [pandas.read_csv], [csv.reader] on one line, [scipy.signal.savgol_filter]
      and [numpy] summation are collaborators: class [Pandas] and the
      members [fsum] and [float_of_string] of [Number].

    What the embedding covers.
    - Files whose lines hold no quote character, where a row of
      [csv.reader] is the line split at its commas ([csv_row]); rows with
      as many fields as the schema names ([frame_of_rows]); strings of
      ASCII characters ([Py.drop_last], [Py.strip]).
    - The general theorems assume nothing of the reader, of the filter or
      of the summation.  The instances of module [Reference], on which the
      examples run, read plain decimals (no exponent), skip blank lines as
      [read_csv] does, sum from the left, which is numpy's sum of fewer
      than 8 numbers, and stand in for [savgol_filter] with a function
      that copies its input.
    - [abs_library] as shipped cannot be imported; see module [Abs]. *)

From Stdlib Require Import List String Ascii ZArith Bool Lia Arith.
From Stdlib Require Import Floats.
Import ListNotations.
Local Open Scope string_scope.
Local Open Scope list_scope.
Local Open Scope Z_scope.

Set Implicit Arguments.

(** ** Exceptions and results *)

(** The exceptions the interpreter or pandas can raise in the modelled code,
    and the five error kinds named by the specification's taxonomy (no class
    of the source defines or raises the latter). *)
Inductive exn : Type :=
| IndexError
| KeyError
| AttributeError
| TypeError
| ValueError
| UnboundLocalError
| FileNotFoundError
| SyntaxError
| PandasError
| MalformedFormatError
| MissingFieldError
| UnitParseError
| ValueNotFoundError
| InvalidParameterError.

Inductive result (A : Type) : Type :=
| Ok (a : A)
| Err (e : exn).
Arguments Ok {A} a.
Arguments Err {A} e.

Definition bind {A B : Type} (r : result A) (k : A -> result B) : result B :=
  match r with
  | Ok a => k a
  | Err e => Err e
  end.

Notation "x <- r ;; k" := (bind r (fun x => k))
  (at level 61, r at next level, right associativity).

Definition of_option {A : Type} (e : exn) (o : option A) : result A :=
  match o with
  | Some a => Ok a
  | None => Err e
  end.

Definition is_ok {A : Type} (r : result A) : bool :=
  match r with
  | Ok _ => true
  | Err _ => false
  end.

(** ** Python strings and sequences *)

Module Py.

(** [s.startswith(p)] *)
Fixpoint startswith (p s : string) : bool :=
  match p with
  | EmptyString => true
  | String c p' =>
      match s with
      | EmptyString => false
      | String d s' => Ascii.eqb c d && startswith p' s'
      end
  end.

(** [p in s] for two strings: [p] occurs as a substring of [s]. *)
Fixpoint contains (p s : string) : bool :=
  startswith p s ||
  match s with
  | EmptyString => false
  | String _ s' => contains p s'
  end.

(** [x in l] for a list of strings. *)
Definition mem (x : string) (l : list string) : bool :=
  existsb (String.eqb x) l.

(** [s.split(sep)] for a one-character separator. *)
Fixpoint split (sep : ascii) (s : string) : list string :=
  match s with
  | EmptyString => [EmptyString]
  | String c s' =>
      if Ascii.eqb c sep then EmptyString :: split sep s'
      else
        match split sep s' with
        | [] => [String c EmptyString]
        | w :: ws => String c w :: ws
        end
  end.

(** [s.replace(old, new)] for a non-empty [old]: every non-overlapping
    occurrence from the left.  [skip] counts the characters of a matched
    occurrence still to pass over. *)
Fixpoint replace_from (skip : nat) (old new s : string) : string :=
  match s with
  | EmptyString => EmptyString
  | String c s' =>
      match skip with
      | S k => replace_from k old new s'
      | O =>
          if startswith old s
          then (new ++ replace_from (String.length old - 1) old new s')%string
          else String c (replace_from 0 old new s')
      end
  end.

Definition replace (old new s : string) : string := replace_from 0 old new s.

Definition is_space (c : ascii) : bool :=
  match nat_of_ascii c with
  | 32%nat | 9%nat | 10%nat | 11%nat | 12%nat | 13%nat => true
  | _ => false
  end.

Fixpoint lstrip (s : string) : string :=
  match s with
  | EmptyString => EmptyString
  | String c s' => if is_space c then lstrip s' else s
  end.

Fixpoint rstrip (s : string) : string :=
  match s with
  | EmptyString => EmptyString
  | String c s' =>
      match rstrip s' with
      | EmptyString => if is_space c then EmptyString else String c EmptyString
      | t => String c t
      end
  end.

(** [s.strip()] *)
Definition strip (s : string) : string := rstrip (lstrip s).

(** [os.path.basename(p)]: what follows the last slash. *)
Definition basename (p : string) : string :=
  last (split "/" p) EmptyString.

(** [s[:-k]] for [k > 0]. *)
Definition drop_last (k : nat) (s : string) : string :=
  String.substring 0 (String.length s - k) s.

(** [l[i]] for a list and an int: negative [i] counts from the end. *)
Definition getitem {A : Type} (l : list A) (i : Z) : result A :=
  let n := Z.of_nat (List.length l) in
  if (0 <=? i) && (i <? n) then of_option IndexError (nth_error l (Z.to_nat i))
  else if (i <? 0) && (0 <=? n + i) then
         of_option IndexError (nth_error l (Z.to_nat (n + i)))
  else Err IndexError.

(** [l[a:b]] for [0 <= a] and [0 <= b]. *)
Definition slice {A : Type} (a b : nat) (l : list A) : list A :=
  skipn a (firstn b l).

(** [l[:k]] for an int [k]: a negative [k] drops the last [-k] elements. *)
Definition upto {A : Type} (k : Z) (l : list A) : list A :=
  if k <? 0 then firstn (Z.to_nat (Z.of_nat (List.length l) + k)) l
  else firstn (Z.to_nat k) l.

End Py.

(** ** Numbers *)

(** The arithmetic of Python floats as the methods use it.  [fltb a b] is
    [a < b] (so [b > a]), [fleb a b] is [a <= b] (so [b >= a]), [feqb] is
    [==].  [fsum] is numpy's sum of an array, [float_of_string] is [float(s)]
    ([None] where Python raises [ValueError]). *)
Class Number (F : Type) : Type := {
  of_int : Z -> F;
  fsub : F -> F -> F;
  fmul : F -> F -> F;
  fdiv : F -> F -> F;
  fabs : F -> F;
  feqb : F -> F -> bool;
  fltb : F -> F -> bool;
  fleb : F -> F -> bool;
  nan : F;
  isnan : F -> bool;
  fsum : list F -> F;
  float_of_string : string -> option F
}.

(** What the ordering lemmas need of [<] and [==]: all three hold of IEEE
    comparisons (instance [NumberOrder_float] below). *)
Class NumberOrder (F : Type) {N : Number F} : Prop := {
  fltb_asym : forall a b, fltb a b = true -> fltb b a = false;
  fltb_trans : forall a b c,
      fltb a b = true -> fltb b c = true -> fltb a c = true;
  fltb_feqb : forall x a y b,
      feqb x a = true -> feqb y b = true -> fltb x y = fltb a b
}.
Arguments NumberOrder F {N}.

(** ** Series *)

Section SeriesOps.
Context {F : Type} `{Number F}.

(** (index label, value), in positional order. *)
Definition Series : Type := list (nat * F).

Definition index (s : Series) : list nat := map fst s.
Definition values (s : Series) : list F := map snd s.

(** A column as [read_csv] makes it: a [RangeIndex] from 0. *)
Definition range_series (vals : list F) : Series :=
  combine (seq 0 (List.length vals)) vals.

(** [s.iloc[i]] *)
Definition iloc (s : Series) (i : Z) : result F :=
  x <- Py.getitem s i ;; Ok (snd x).

(** [s.iloc[:k]] *)
Definition iloc_upto (k : Z) (s : Series) : Series := Py.upto k s.

(** [s.iloc[a:b]] for labels [a], [b] taken from an index (never negative). *)
Definition iloc_slice (a b : nat) (s : Series) : Series := Py.slice a b s.

(** [s[cond]] for a boolean series [cond] over the same index as [s]
    (both are derived from columns of one frame). *)
Definition boolean_index (cond : list bool) (s : Series) : Series :=
  map snd (filter fst (combine cond s)).

(** [s[s == v]] *)
Definition where_eq (s : Series) (v : F) : Series :=
  boolean_index (map (fun x => feqb (snd x) v) s) s.

(** [s.index[0]] *)
Definition index0 (s : Series) : result nat :=
  match s with
  | [] => Err IndexError
  | (l, _) :: _ => Ok l
  end.

(** What [skipna=True] makes of a column before it is summed: pandas
    ([nanops.nansum]) puts 0 in the place of every NaN, so the array keeps
    its length. *)
Definition zero_filled (xs : list F) : list F :=
  map (fun x => if isnan x then of_int 0 else x) xs.

(** [.sum()] of a column: the NaN are replaced by 0 and the array is
    handed to numpy's [sum], member [fsum] of [Number]. *)
Definition sum_skipna (xs : list F) : F := fsum (zero_filled xs).

(** [s.sum()] *)
Definition series_sum (s : Series) : F := sum_skipna (values s).

(** [s / d] for a scalar [d] *)
Definition div_scalar (s : Series) (d : F) : Series :=
  map (fun x => (fst x, fdiv (snd x) d)) s.

(** [a - b] for two series.  pandas aligns them on the union of their
    labels (an outer join, in label order for the increasing indexes met
    here), fills the side that lacks a label with NaN and subtracts. *)
Fixpoint sub_series (a b : Series) : Series :=
  match a with
  | [] => map (fun y => (fst y, fsub nan (snd y))) b
  | (la, x) :: a' =>
      (fix against (b : Series) : Series :=
         match b with
         | [] => map (fun x => (fst x, fsub (snd x) nan)) a
         | (lb, y) :: b' =>
             match Nat.compare la lb with
             | Eq => (la, fsub x y) :: sub_series a' b'
             | Lt => (la, fsub x nan) :: sub_series a' b
             | Gt => (lb, fsub nan y) :: against b'
             end
         end) b
  end.

(** The value at label [l], if any. *)
Fixpoint at_label (l : nat) (s : Series) : option F :=
  match s with
  | [] => None
  | (k, x) :: s' => if Nat.eqb k l then Some x else at_label l s'
  end.

(** [s[idx]] for an index [idx] of labels: every label must be present. *)
Fixpoint select (s : Series) (idx : list nat) : result Series :=
  match idx with
  | [] => Ok []
  | l :: idx' =>
      x <- of_option KeyError (at_label l s) ;;
      rest <- select s idx' ;;
      Ok ((l, x) :: rest)
  end.

(** Labels strictly increasing: every series the classes build has this. *)
Fixpoint increasing (ls : list nat) : Prop :=
  match ls with
  | [] => True
  | l :: ls' => Forall (fun k => (l < k)%nat) ls' /\ increasing ls'
  end.

(** Some sample of [s] equals [v], as [==] decides it. *)
Definition present (v : F) (s : Series) : bool :=
  existsb (fun w => feqb w v) (values s).

(** Strictly descending: every sample is below the one before it. *)
Fixpoint descending (vals : list F) : bool :=
  match vals with
  | x :: ((y :: _) as rest) => fltb y x && descending rest
  | _ => true
  end.

(** The labels are the positions, as [read_csv] and [.iloc[:k]] leave them. *)
Definition range_indexed (s : Series) : Prop :=
  index s = seq 0 (List.length s).

(** ** Heap of series objects *)

Definition Heap : Type := list Series.

Definition alloc (h : Heap) (s : Series) : Heap * nat :=
  (h ++ [s], List.length h).

Definition deref (h : Heap) (l : nat) : Series := nth l h [].

(** A [DataFrame] with named numeric columns: each column is a series
    object of the heap. *)
Definition Frame : Type := list (string * nat).

(** [df[name]] *)
Fixpoint column (df : Frame) (name : string) : result nat :=
  match df with
  | [] => Err KeyError
  | (n, l) :: df' => if String.eqb n name then Ok l else column df' name
  end.

(** The frame of [read_csv(..., names=names)] over parsed [rows]: column
    [j] holds field [j] of every row, NaN where a row is short.  Rows with
    more fields than [names], whose leading fields pandas turns into the
    index, are outside the model. *)
Fixpoint frame_of_rows (h : Heap) (names : list string) (j : nat)
    (rows : list (list F)) : Heap * Frame :=
  match names with
  | [] => (h, [])
  | n :: names' =>
      let (h1, l) := alloc h (range_series (map (fun r => nth j r nan) rows)) in
      let (h2, df) := frame_of_rows h1 names' (S j) rows in
      (h2, (n, l) :: df)
  end.

(** [l] refers to a column parsed from [rows]. *)
Definition column_of (h : Heap) (rows : list (list F)) (l : nat) : Prop :=
  (l < List.length h)%nat
  /\ exists k, deref h l = range_series (map (fun r => nth k r nan) rows).

(** The cell of [a - b] at a label, from the cells of [a] and [b] there. *)
Definition sub_cell (x y : option F) : option F :=
  match x, y with
  | Some x, Some y => Some (fsub x y)
  | Some x, None => Some (fsub x nan)
  | None, Some y => Some (fsub nan y)
  | None, None => None
  end.

End SeriesOps.

(** ** Files, sentinels and the readers *)

(** A file is its list of lines. *)
Definition File : Type := list string.

(** One row of [csv.reader(rawdata)] (default dialect: comma-separated),
    for a line without quote characters; a blank line is the empty row.
    A line with a double quote, which the reader would interpret and
    could join with the next line, is outside the model. *)
Definition csv_row (line : string) : list string :=
  match line with
  | EmptyString => []
  | _ => Py.split "," line
  end.

(** A two-column frame of strings, transposed and labelled by its first
    row: [info] and [metadata]. *)
Definition Table : Type := list (string * string).

(** [t[field][0]]: the cell under the one column labelled [field]. *)
Definition lookup_field (t : Table) (field : string) : result string :=
  match filter (fun kv => String.eqb (fst kv) field) t with
  | [kv] => Ok (snd kv)
  | _ => Err KeyError
  end.

(** The collaborators.
    - [read_pairs f header nrows] is
      [pd.read_csv(path, delimiter=';', names=[a, b], header=.., nrows=.., decimal=',')]:
      the rows as (first column, second column).
    - [read_table f names header nrows] is the same call with [names] for
      numeric columns: the parsed fields of each row.
    - [read_grid f header nrows] is
      [pd.read_csv(path, delimiter=';', header=.., nrows=.., index_col=0, decimal=',')]:
      the index and the labelled columns.
    - [savgol_filter x wdw polyorder] returns a new array. *)
Class Pandas (F : Type) : Type := {
  read_pairs : File -> option Z -> option Z -> result Table;
  read_table : File -> list string -> Z -> Z -> result (list (list F));
  read_grid : File -> Z -> option Z -> result (list F * list (string * list F));
  savgol_filter : list F -> Z -> Z -> result (list F)
}.

Module Sentinel.

(** The locals of the scanning loop; [None] is a name not yet bound. *)
Record Scan : Type := mkScan {
  title_of : option string;
  start_of : option Z;
  end_of : option Z
}.

Definition unbound : Scan := mkScan None None None.

(** Reading a local variable. *)
Definition local (v : option Z) : result Z := of_option UnboundLocalError v.

Definition XYDATA : string := "XYDATA".
Definition Extended : string := "##### Extended Information".
Definition Channel1 : string := "Channel 1".
Definition Channel2 : string := "Channel 2".

(** [line[0].split(';')[1]] *)
Definition title_field (line : list string) : result string :=
  f <- Py.getitem line 0 ;; Py.getitem (Py.split ";" f) 1.

(** The loop of [cd_spectra.__init__], [cd_melting_curve.__init__] and
    [abs_spectra.__init__] over the rows from [position] on. *)
Fixpoint scan_spectrum (rows : list (list string)) (position : Z) (sc : Scan)
  : result Scan :=
  match rows with
  | [] => Ok sc
  | line :: rest =>
      if position =? 0 then
        t <- title_field line ;;
        scan_spectrum rest (position + 1)
          (mkScan (Some t) (start_of sc) (end_of sc))
      else if Py.mem XYDATA line then
        scan_spectrum rest (position + 1)
          (mkScan (title_of sc) (Some (position + 1)) (end_of sc))
      else if Py.mem Extended line then
        Ok (mkScan (title_of sc) (start_of sc) (Some (position - 1)))
      else scan_spectrum rest (position + 1) sc
  end.

(** The loop of [cd_spectra.baseline] over the blank file: no title. *)
Fixpoint scan_blank (rows : list (list string)) (position : Z) (sc : Scan)
  : result Scan :=
  match rows with
  | [] => Ok sc
  | line :: rest =>
      if Py.mem XYDATA line then
        scan_blank rest (position + 1)
          (mkScan (title_of sc) (Some (position + 1)) (end_of sc))
      else if Py.mem Extended line then
        Ok (mkScan (title_of sc) (start_of sc) (Some (position - 1)))
      else scan_blank rest (position + 1) sc
  end.

(** The loop of [cd_melting_spectra.__init__]: the title is the row whose
    first field contains [TITLE]. *)
Fixpoint scan_grid (rows : list (list string)) (position : Z) (sc : Scan)
  : result Scan :=
  match rows with
  | [] => Ok sc
  | line :: rest =>
      f <- Py.getitem line 0 ;;
      if Py.contains "TITLE" f then
        t <- Py.getitem (Py.split ";" f) 1 ;;
        scan_grid rest (position + 1)
          (mkScan (Some t) (start_of sc) (end_of sc))
      else if Py.mem Channel1 line then
        scan_grid rest (position + 1)
          (mkScan (title_of sc) (Some (position + 1)) (end_of sc))
      else if Py.mem Channel2 line then
        Ok (mkScan (title_of sc) (start_of sc) (Some (position - 1)))
      else scan_grid rest (position + 1) sc
  end.

End Sentinel.

(** ** States and outcomes *)

Section StateDef.
Context {F : Type}.

(** The object, the series objects it refers to, and what was printed. *)
Record State (O : Type) : Type := mkState {
  heap : @Heap F;
  self : O;
  stdout : list string
}.

(** [print(msg)] *)
Definition print {O : Type} (msg : string) (st : State O) : State O :=
  mkState (heap st) (self st) (stdout st ++ [msg]).

End StateDef.
Arguments State F O : clear implicits.

(** What a call leaves: its return value or the exception it raised, and
    the state after it. *)
Definition Outcome (F O A : Type) : Type := (result A * State F O)%type.

(** ** [cd_library.cd_spectra] *)

Module CD.
Section Class.
Context {F : Type} `{Number F} `{Pandas F}.

(** The attributes of an instance.  [wavelength_raw], [wavelength],
    [ellipticity_raw], [ellipticity], [ht] and [abs] refer to series
    objects; an attribute a method may not have assigned yet is an
    [option]. *)
Record cd_spectra : Type := mk {
  path : string;
  name : string;
  cols : list string;
  title : option string;
  info : Table;
  data : Frame;
  metadata : Table;
  wavelength_raw : nat;
  wavelength : nat;
  ellipticity_raw : nat;
  ellipticity : nat;
  ht : nat;
  abs : option nat;
  wv_min : F;
  wv_max : F;
  idx_cutoff : Z;
  wv_cutoff : F;
  filtered : bool;
  corrected : bool;
  wv_delta : F;
  blank : option Frame;
  smoothed : option (list F);
  integral : option F
}.

(** Assignments to the attributes the methods rebind. *)
Definition set_wavelength (v : nat) (s : cd_spectra) : cd_spectra :=
  mk (path s) (name s) (cols s) (title s) (info s) (data s) (metadata s)
     (wavelength_raw s) v (ellipticity_raw s) (ellipticity s) (ht s) (abs s)
     (wv_min s) (wv_max s) (idx_cutoff s) (wv_cutoff s) (filtered s)
     (corrected s) (wv_delta s) (blank s) (smoothed s) (integral s).

Definition set_ellipticity (v : nat) (s : cd_spectra) : cd_spectra :=
  mk (path s) (name s) (cols s) (title s) (info s) (data s) (metadata s)
     (wavelength_raw s) (wavelength s) (ellipticity_raw s) v (ht s) (abs s)
     (wv_min s) (wv_max s) (idx_cutoff s) (wv_cutoff s) (filtered s)
     (corrected s) (wv_delta s) (blank s) (smoothed s) (integral s).

Definition set_filtered (v : bool) (s : cd_spectra) : cd_spectra :=
  mk (path s) (name s) (cols s) (title s) (info s) (data s) (metadata s)
     (wavelength_raw s) (wavelength s) (ellipticity_raw s) (ellipticity s)
     (ht s) (abs s) (wv_min s) (wv_max s) (idx_cutoff s) (wv_cutoff s) v
     (corrected s) (wv_delta s) (blank s) (smoothed s) (integral s).

Definition set_corrected (v : bool) (s : cd_spectra) : cd_spectra :=
  mk (path s) (name s) (cols s) (title s) (info s) (data s) (metadata s)
     (wavelength_raw s) (wavelength s) (ellipticity_raw s) (ellipticity s)
     (ht s) (abs s) (wv_min s) (wv_max s) (idx_cutoff s) (wv_cutoff s)
     (filtered s) v (wv_delta s) (blank s) (smoothed s) (integral s).

Definition set_blank (v : Frame) (s : cd_spectra) : cd_spectra :=
  mk (path s) (name s) (cols s) (title s) (info s) (data s) (metadata s)
     (wavelength_raw s) (wavelength s) (ellipticity_raw s) (ellipticity s)
     (ht s) (abs s) (wv_min s) (wv_max s) (idx_cutoff s) (wv_cutoff s)
     (filtered s) (corrected s) (wv_delta s) (Some v) (smoothed s)
     (integral s).

Definition set_smoothed (v : list F) (s : cd_spectra) : cd_spectra :=
  mk (path s) (name s) (cols s) (title s) (info s) (data s) (metadata s)
     (wavelength_raw s) (wavelength s) (ellipticity_raw s) (ellipticity s)
     (ht s) (abs s) (wv_min s) (wv_max s) (idx_cutoff s) (wv_cutoff s)
     (filtered s) (corrected s) (wv_delta s) (blank s) (Some v) (integral s).

Definition set_integral (v : F) (s : cd_spectra) : cd_spectra :=
  mk (path s) (name s) (cols s) (title s) (info s) (data s) (metadata s)
     (wavelength_raw s) (wavelength s) (ellipticity_raw s) (ellipticity s)
     (ht s) (abs s) (wv_min s) (wv_max s) (idx_cutoff s) (wv_cutoff s)
     (filtered s) (corrected s) (wv_delta s) (blank s) (smoothed s) (Some v).

Definition St : Type := State F cd_spectra.

(** The series an attribute refers to. *)
Definition ellipticity_of (st : St) : Series := deref (heap st) (ellipticity (self st)).
Definition wavelength_of (st : St) : Series := deref (heap st) (wavelength (self st)).
Definition ellipticity_raw_of (st : St) : Series :=
  deref (heap st) (ellipticity_raw (self st)).
Definition wavelength_raw_of (st : St) : Series :=
  deref (heap st) (wavelength_raw (self st)).
Definition ht_of (st : St) : Series := deref (heap st) (ht (self st)).

Definition cols3 : list string := ["Wavelength [nm]"; "CD [mdeg]"; "HT [V]"].
Definition cols4 : list string :=
  ["Wavelength [nm]"; "CD [mdeg]"; "HT [V]"; "Abs [UA]"].

(** What holds of every state the constructor and the methods produce:
    [cols] is one of the two schemas, the series attributes refer to
    objects of the heap, and the labels of the signal and of the domain
    increase. *)
Definition wf (st : St) : Prop :=
  (cols (self st) = cols3 \/ cols (self st) = cols4)
  /\ (ellipticity_raw (self st) < List.length (heap st))%nat
  /\ (wavelength_raw (self st) < List.length (heap st))%nat
  /\ (ellipticity (self st) < List.length (heap st))%nat
  /\ (wavelength (self st) < List.length (heap st))%nat
  /\ increasing (index (ellipticity_of st))
  /\ increasing (index (wavelength_of st)).

(** The loop over [enumerate(self.data['HT [V]'])]: the position of the
    first sample with [ht > ht_max], where it breaks. *)
Fixpoint first_above (ht_max : F) (hts : list F) (position : nat) : option nat :=
  match hts with
  | [] => None
  | ht :: rest =>
      if fltb ht_max ht then Some position
      else first_above ht_max rest (S position)
  end.

(** [cd_spectra(path, ht_max=600, abs=False)] over the contents [f] of the
    file at [path]. *)
Definition init (path : string) (f : File) (ht_max : option F) (abs : bool)
  : result St :=
  let ht_max := match ht_max with Some v => v | None => of_int 600 end in
  let name := Py.drop_last 4 (Py.basename path) in
  let cols := if abs then cols4 else cols3 in
  sc <- Sentinel.scan_spectrum (map csv_row f) 0 Sentinel.unbound ;;
  start <- Sentinel.local (Sentinel.start_of sc) ;;
  info <- read_pairs f None (Some start) ;;
  end_ <- Sentinel.local (Sentinel.end_of sc) ;;
  rows <- read_table f cols (start - 1) (end_ - start) ;;
  meta <- read_pairs f (Some (end_ + 1)) None ;;
  let metadata := map (fun kv => (Py.strip (fst kv), snd kv)) meta in
  let (h, data) := frame_of_rows [] cols 0 rows in
  wl <- column data "Wavelength [nm]" ;;
  cd <- column data "CD [mdeg]" ;;
  ht <- column data "HT [V]" ;;
  ab <- (if abs then l <- column data "Abs [UA]" ;; Ok (Some l) else Ok None) ;;
  wv_min <- iloc (deref h wl) (-1) ;;
  wv_max <- iloc (deref h wl) 0 ;;
  let position_cutoff :=
    match first_above ht_max (values (deref h ht)) 0 with
    | Some position => position
    | None => List.length (deref h wl)
    end in
  let idx_cutoff := Z.of_nat position_cutoff - 1 in
  wv_cutoff <- iloc (deref h wl) idx_cutoff ;;
  pitch <- lookup_field metadata "Data pitch" ;;
  wv_delta <-
    of_option ValueError (float_of_string (Py.replace " nm" EmptyString pitch)) ;;
  Ok (mkState h
        (mk path name cols (Sentinel.title_of sc) info data metadata
            wl wl cd cd ht ab wv_min wv_max idx_cutoff wv_cutoff
            false false wv_delta None None None)
        []).

(** [ht_filter(self)] *)
Definition ht_filter (st : St) : Outcome F cd_spectra unit :=
  let s := self st in
  if negb (filtered s) then
    let (h1, e) :=
      alloc (heap st) (iloc_upto (idx_cutoff s + 1) (deref (heap st) (ellipticity s))) in
    let (h2, w) :=
      alloc h1 (iloc_upto (idx_cutoff s + 1) (deref h1 (wavelength s))) in
    (Ok tt,
     mkState h2 (set_filtered true (set_wavelength w (set_ellipticity e s)))
       (stdout st))
  else
    (Ok tt, print "Your data has already been filtered using HT threshold" st).

(** [wv_min <= w <= wv_max], the mask of [baseline]. *)
Definition in_range (lo hi w : F) : bool := fleb lo w && fleb w hi.

(** The blank file read as [baseline] does: the scan, then [read_csv]. *)
Definition read_blank (cols : list string) (f : File)
  : result (list (list F)) :=
  sc <- Sentinel.scan_blank (map csv_row f) 0 Sentinel.unbound ;;
  start <- Sentinel.local (Sentinel.start_of sc) ;;
  end_ <- Sentinel.local (Sentinel.end_of sc) ;;
  read_table f cols (start - 1) (end_ - start).

(** [baseline(self, baseline_path)] over the contents [f] of the file at
    [baseline_path]. *)
Definition baseline (f : File) (st : St) : Outcome F cd_spectra unit :=
  let s := self st in
  if negb (corrected s) then
    match read_blank (cols s) f with
    | Err e => (Err e, st)
    | Ok rows =>
        let (h1, bl) := frame_of_rows (heap st) (cols s) 0 rows in
        let s1 := set_blank bl s in
        let st1 := mkState h1 s1 (stdout st) in
        let wv_min := if filtered s1 then wv_cutoff s1 else wv_min s1 in
        match column bl "Wavelength [nm]" with
        | Err e => (Err e, st1)
        | Ok bw =>
            let cond :=
              map (in_range wv_min (wv_max s1)) (values (deref h1 bw)) in
            let (h2, w) := alloc h1 (boolean_index cond (deref h1 bw)) in
            let s2 := set_wavelength w s1 in
            let st2 := mkState h2 s2 (stdout st) in
            match column bl "CD [mdeg]" with
            | Err e => (Err e, st2)
            | Ok bc =>
                let (h3, e) :=
                  alloc h2 (sub_series (deref h2 (ellipticity s2))
                              (boolean_index cond (deref h2 bc))) in
                (Ok tt,
                 mkState h3 (set_corrected true (set_ellipticity e s2))
                   (stdout st))
            end
        end
    end
  else (Ok tt, print "Baseline is already corrected" st).

(** [smooth(self, wdw, polyorder)] *)
Definition smooth (wdw polyorder : Z) (st : St) : Outcome F cd_spectra unit :=
  match savgol_filter (values (ellipticity_of st)) wdw polyorder with
  | Err e => (Err e, st)
  | Ok y => (Ok tt, mkState (heap st) (set_smoothed y (self st)) (stdout st))
  end.

(** [10*concentration*aa_number*pathlength], with the defaults of [mre].
    The arguments are numbers of type [F]: Python floats, or ints where
    Python converts them to float on the way (an int [aa_number] or
    [pathlength] next to a float [concentration]).  A product of ints
    alone, which Python computes exactly and converts once, is outside
    the type. *)
Definition mre_divisor (concentration : F) (aa_number pathlength : option F) : F :=
  let aa_number := match aa_number with Some v => v | None => of_int 1 end in
  let pathlength := match pathlength with Some v => v | None => of_int 1 end in
  fmul (fmul (fmul (of_int 10) concentration) aa_number) pathlength.

(** [mre(self, concentration, aa_number=1, pathlength=1)] *)
Definition mre (concentration : F) (aa_number pathlength : option F) (st : St)
  : Outcome F cd_spectra unit :=
  let (h1, e) :=
    alloc (heap st)
      (div_scalar (ellipticity_of st)
         (mre_divisor concentration aa_number pathlength)) in
  (Ok tt, mkState h1 (set_ellipticity e (self st)) (stdout st)).

(** [integrate(self, wv_limit_lower, wv_limit_upper)] *)
Definition integrate (wv_limit_lower wv_limit_upper : F) (st : St)
  : Outcome F cd_spectra unit :=
  match
    (a <- index0 (where_eq (wavelength_of st) wv_limit_upper) ;;
     b <- index0 (where_eq (wavelength_of st) wv_limit_lower) ;;
     Ok (fmul (wv_delta (self st))
           (series_sum (iloc_slice a (b + 1) (ellipticity_of st)))))
  with
  | Err e => (Err e, st)
  | Ok v => (Ok tt, mkState (heap st) (set_integral v (self st)) (stdout st))
  end.

End Class.
Arguments St F : clear implicits.
End CD.

(** ** [cd_library.cd_melting_curve] *)

Module MeltCurve.
Section Class.
Context {F : Type} `{Number F} `{Pandas F}.

Record cd_melting_curve : Type := mk {
  path : string;
  name : string;
  cols : list string;
  title : option string;
  info : Table;
  data : Frame;
  metadata : Table;
  temperatures : nat;
  ellipticity : nat;
  ht : nat;
  abs : option nat;
  temp_min : F;
  temp_max : F;
  wv_monitor : F;
  smoothed : option (list F)
}.

Definition St : Type := State F cd_melting_curve.

Definition cols3 : list string := ["Temperature"; "CD [mdeg]"; "HT [V]"].
Definition cols4 : list string :=
  ["Temperature"; "CD [mdeg]"; "HT [V]"; "Abs [UA]"].

(** [cd_melting_curve(path, ht_max=600, abs=False)]; [ht_max] is not used. *)
Definition init (path : string) (f : File) (ht_max : option F) (abs : bool)
  : result St :=
  let name := Py.drop_last 4 (Py.basename path) in
  let cols := if abs then cols4 else cols3 in
  sc <- Sentinel.scan_spectrum (map csv_row f) 0 Sentinel.unbound ;;
  start <- Sentinel.local (Sentinel.start_of sc) ;;
  info <- read_pairs f None (Some start) ;;
  end_ <- Sentinel.local (Sentinel.end_of sc) ;;
  rows <- read_table f cols (start - 1) (end_ - start) ;;
  meta <- read_pairs f (Some (end_ + 1)) None ;;
  let metadata := map (fun kv => (Py.strip (fst kv), snd kv)) meta in
  let (h, data) := frame_of_rows [] cols 0 rows in
  tp <- column data "Temperature" ;;
  cd <- column data "CD [mdeg]" ;;
  ht <- column data "HT [V]" ;;
  ab <- (if abs then l <- column data "Abs [UA]" ;; Ok (Some l) else Ok None) ;;
  temp_min <- iloc (deref h tp) (-1) ;;
  temp_max <- iloc (deref h tp) 0 ;;
  monitor <- lookup_field metadata "Monitor wavelength" ;;
  wv_monitor <-
    of_option ValueError (float_of_string (Py.replace " nm" EmptyString monitor)) ;;
  Ok (mkState h
        (mk path name cols (Sentinel.title_of sc) info data metadata
            tp cd ht ab temp_min temp_max wv_monitor None)
        []).

(** [smooth(self, wdw, polyorder)] *)
Definition smooth (wdw polyorder : Z) (st : St)
  : Outcome F cd_melting_curve unit :=
  let s := self st in
  match savgol_filter (values (deref (heap st) (ellipticity s))) wdw polyorder with
  | Err e => (Err e, st)
  | Ok y =>
      (Ok tt,
       mkState (heap st)
         (mk (path s) (name s) (cols s) (title s) (info s) (data s)
             (metadata s) (temperatures s) (ellipticity s) (ht s) (abs s)
             (temp_min s) (temp_max s) (wv_monitor s) (Some y))
         (stdout st))
  end.

End Class.
Arguments St F : clear implicits.
End MeltCurve.

(** ** [abs_library.abs_spectra]

    The module as shipped does not compile: its line 15 reads
    [from scipy.signal import], with no name after [import], so
    [import abs_library] raises [SyntaxError] and no statement of the
    module runs ([import_module] and [session] below).  What follows
    [import_module] embeds the class body as it is written, that is, what
    runs once line 15 names what it imports, as line 24 of [cd_library]
    does ([from scipy.signal import savgol_filter]); every statement about
    [Abs.init] or a method of [Abs] is a statement about that class body. *)

Module Abs.
Section Class.
Context {F : Type} `{Number F} `{Pandas F}.

(** [import abs_library], lines 10 to 15 of the module. *)
Definition import_module : result unit := Err SyntaxError.

(** The attributes of an instance.  No method of the class assigns an
    attribute [nm]; [blank] and [concentration] are assigned only on lines
    that follow a statement that always raises. *)
Record abs_spectra : Type := mk {
  path : string;
  name : string;
  cols : list string;
  title : option string;
  info : Table;
  data : Frame;
  metadata : Table;
  wavelength : nat;
  abs_raw : nat;
  abs : nat;
  wv_min : F;
  wv_max : F;
  corrected : bool;
  wv_delta : F;
  blank : option Frame;
  smoothed : option (list F);
  concentration : option nat;
  integral : option F
}.

Definition set_smoothed (v : list F) (s : abs_spectra) : abs_spectra :=
  mk (path s) (name s) (cols s) (title s) (info s) (data s) (metadata s)
     (wavelength s) (abs_raw s) (abs s) (wv_min s) (wv_max s) (corrected s)
     (wv_delta s) (blank s) (Some v) (concentration s) (integral s).

Definition set_integral (v : F) (s : abs_spectra) : abs_spectra :=
  mk (path s) (name s) (cols s) (title s) (info s) (data s) (metadata s)
     (wavelength s) (abs_raw s) (abs s) (wv_min s) (wv_max s) (corrected s)
     (wv_delta s) (blank s) (smoothed s) (concentration s) (Some v).

Definition set_abs (v : nat) (s : abs_spectra) : abs_spectra :=
  mk (path s) (name s) (cols s) (title s) (info s) (data s) (metadata s)
     (wavelength s) (abs_raw s) v (wv_min s) (wv_max s) (corrected s)
     (wv_delta s) (blank s) (smoothed s) (concentration s) (integral s).

Definition set_concentration (v : nat) (s : abs_spectra) : abs_spectra :=
  mk (path s) (name s) (cols s) (title s) (info s) (data s) (metadata s)
     (wavelength s) (abs_raw s) (abs s) (wv_min s) (wv_max s) (corrected s)
     (wv_delta s) (blank s) (smoothed s) (Some v) (integral s).

Definition St : Type := State F abs_spectra.

Definition abs_of (st : St) : Series := deref (heap st) (abs (self st)).
Definition abs_raw_of (st : St) : Series := deref (heap st) (abs_raw (self st)).
Definition wavelength_of (st : St) : Series :=
  deref (heap st) (wavelength (self st)).

Definition cols2 : list string := ["Wavelength [nm]"; "Abs [UA]"].

(** The series attributes refer to objects of the heap, and the labels
    of the domain increase. *)
Definition wf (st : St) : Prop :=
  (abs_raw (self st) < List.length (heap st))%nat
  /\ (abs (self st) < List.length (heap st))%nat
  /\ (wavelength (self st) < List.length (heap st))%nat
  /\ increasing (index (wavelength_of st)).

(** [abs_spectra(path)] over the contents [f] of the file at [path]. *)
Definition init (path : string) (f : File) : result St :=
  let name := Py.drop_last 4 (Py.basename path) in
  let cols := cols2 in
  sc <- Sentinel.scan_spectrum (map csv_row f) 0 Sentinel.unbound ;;
  start <- Sentinel.local (Sentinel.start_of sc) ;;
  info <- read_pairs f None (Some start) ;;
  end_ <- Sentinel.local (Sentinel.end_of sc) ;;
  rows <- read_table f cols (start - 1) (end_ - start) ;;
  meta <- read_pairs f (Some (end_ + 1)) None ;;
  let metadata := map (fun kv => (Py.strip (fst kv), snd kv)) meta in
  let (h, data) := frame_of_rows [] cols 0 rows in
  wl <- column data "Wavelength [nm]" ;;
  ab <- column data "Abs [UA]" ;;
  wv_min <- iloc (deref h wl) (-1) ;;
  wv_max <- iloc (deref h wl) 0 ;;
  pitch <- lookup_field metadata "Data pitch" ;;
  wv_delta <-
    of_option ValueError (float_of_string (Py.replace " nm" EmptyString pitch)) ;;
  Ok (mkState h
        (mk path name cols (Sentinel.title_of sc) info data metadata
            wl ab ab wv_min wv_max false wv_delta None None None None)
        []).

(** [self.nm]: the attribute does not exist. *)
Definition get_nm (s : abs_spectra) : result nat := Err AttributeError.

(** [idx = self.nm[self.wavelength == v].index] and then
    [self.abs - self.abs[idx]], the two lines shared by [baseline] and
    [concentration_calc]; [v] may be [None], which equals no sample. *)
Definition abs_minus_at (v : option F) (st : St) : result Series :=
  nm <- get_nm (self st) ;;
  let equals x := match v with Some v => feqb x v | None => false end in
  let idx :=
    index (boolean_index (map equals (values (wavelength_of st)))
             (deref (heap st) nm)) in
  at_idx <- select (abs_of st) idx ;;
  Ok (sub_series (abs_of st) at_idx).

(** [not baseline_path] *)
Definition no_path (baseline_path : option string) : bool :=
  match baseline_path with
  | None => true
  | Some p => String.eqb p EmptyString
  end.

(** [not nm] *)
Definition no_number (nm : option F) : bool :=
  match nm with
  | None => true
  | Some v => feqb v (of_int 0)
  end.

(** [open(baseline_path)] where [not baseline_path] holds: [None] is not a
    path and the empty path names no file. *)
Definition open_no_path (baseline_path : option string) : exn :=
  match baseline_path with
  | None => TypeError
  | Some _ => FileNotFoundError
  end.

(** [baseline(self, baseline_path=None, nm=None)].  The first block opens
    [baseline_path] only when it is [None] or empty, so [open] raises and
    the lines after it in that block never run. *)
Definition baseline (baseline_path : option string) (nm : option F) (st : St)
  : Outcome F abs_spectra unit :=
  let first : Outcome F abs_spectra unit :=
    if no_path baseline_path then
      if negb (corrected (self st)) then (Err (open_no_path baseline_path), st)
      else (Ok tt, print "You have already substracted the buffer!" st)
    else (Ok tt, st) in
  match first with
  | (Err e, st1) => (Err e, st1)
  | (Ok _, st1) =>
      if no_number nm then
        match abs_minus_at nm st1 with
        | Err e => (Err e, st1)
        | Ok d =>
            let (h1, a) := alloc (heap st1) d in
            (Ok tt, mkState h1 (set_abs a (self st1)) (stdout st1))
        end
      else
        (Ok tt, print "You have already substracted a baseline value!" st1)
  end.

(** [smooth(self, wdw, polyorder)] *)
Definition smooth (wdw polyorder : Z) (st : St) : Outcome F abs_spectra unit :=
  match savgol_filter (values (abs_of st)) wdw polyorder with
  | Err e => (Err e, st)
  | Ok y => (Ok tt, mkState (heap st) (set_smoothed y (self st)) (stdout st))
  end.

(** [concentration_calc(self, wv, molar_extinction_coeff, pathlength)]:
    its first statement reads [self.nm]. *)
Definition concentration_calc (wv molar_extinction_coeff pathlength : F)
    (st : St) : Outcome F abs_spectra unit :=
  match abs_minus_at (Some wv) st with
  | Err e => (Err e, st)
  | Ok d =>
      let (h1, c) :=
        alloc (heap st) (div_scalar d (fmul molar_extinction_coeff pathlength)) in
      (Ok tt, mkState h1 (set_concentration c (self st)) (stdout st))
  end.

(** [integrate(self, wv_limit_lower, wv_limit_upper)] *)
Definition integrate (wv_limit_lower wv_limit_upper : F) (st : St)
  : Outcome F abs_spectra unit :=
  match
    (a <- index0 (where_eq (wavelength_of st) wv_limit_upper) ;;
     b <- index0 (where_eq (wavelength_of st) wv_limit_lower) ;;
     Ok (fmul (wv_delta (self st))
           (series_sum (iloc_slice a (b + 1) (abs_of st)))))
  with
  | Err e => (Err e, st)
  | Ok v => (Ok tt, mkState (heap st) (set_integral v (self st)) (stdout st))
  end.

(** What a caller gets from [from abs_library import abs_spectra],
    [s = abs_spectra(path)] and one call [s.method(...)]: the outcome, and
    the record when there is one. *)
Definition session {A : Type} (path : string) (f : File)
    (call : St -> Outcome F abs_spectra A) : result A * option St :=
  match import_module with
  | Err e => (Err e, None)
  | Ok _ =>
      match init path f with
      | Err e => (Err e, None)
      | Ok st => (fst (call st), Some (snd (call st)))
      end
  end.

End Class.
Arguments St F : clear implicits.
End Abs.

(** ** [cd_library.cd_melting_spectra] *)

Module MeltSpectra.
Section Class.
Context {F : Type} `{Number F} `{Pandas F}.

(** [self.data]: the long-form frame, one row per (wavelength,
    temperature) pair, held column by column; a column a method adds is
    absent until then. *)
Record Long : Type := mkLong {
  Wavelength : list F;
  Temperature : list string;
  CD_raw : list F;
  HT : list F;
  CD_filtered : list F;
  CD_mre : option (list F);
  CD_smoothed : option (list F)
}.

Record cd_melting_spectra : Type := mk {
  path : string;
  name : string;
  title : option string;
  info : Table;
  wv_delta : F;
  wavelength : list F;
  temperatures : list string;
  data : Long;
  mre_transformation : bool;
  integrals : option (list F)
}.

Definition St : Type := State F cd_melting_spectra.

(** [frame.melt(id_vars='Wavelength [nm]', ...)] of a wide frame whose
    index was copied into the column [Wavelength [nm]]: the value columns
    one after the other, each against the wavelengths. *)
Definition melt (wl : list F) (columns : list (string * list F))
  : list (F * string * F) :=
  flat_map (fun c => map (fun wv => (fst wv, fst c, snd wv)) (combine wl (snd c)))
    columns.

(** [value.replace(',', '.')] on every column label. *)
Definition dotted (columns : list (string * list F)) : list (string * list F) :=
  map (fun c => (Py.replace "," "." (fst c), snd c)) columns.

(** [cd_melting_spectra(path, ht_max=600)] over the contents [f] of the
    file at [path]. *)
Definition init (path : string) (f : File) (ht_max : option F) : result St :=
  let ht_max := match ht_max with Some v => v | None => of_int 600 end in
  let name := Py.drop_last 4 (Py.basename path) in
  sc <- Sentinel.scan_grid (map csv_row f) 0 Sentinel.unbound ;;
  start <- Sentinel.local (Sentinel.start_of sc) ;;
  end_ <- Sentinel.local (Sentinel.end_of sc) ;;
  CD <- read_grid f start (Some (end_ - start)) ;;
  HT <- read_grid f (end_ + 2) None ;;
  info <- read_pairs f None (Some start) ;;
  delta <- lookup_field info "DELTAX" ;;
  d <- of_option ValueError (float_of_string (Py.replace "," "." delta)) ;;
  let wv_delta := fabs d in
  let CDc := dotted (snd CD) in
  let HTc := dotted (snd HT) in
  let wavelength := fst CD in
  let temperatures := map fst CDc in
  let CDm := melt (fst CD) CDc in
  let HTm := melt (fst HT) HTc in
  let merged := combine CDm (map snd HTm) in
  let raw := map (fun r => snd (fst r)) merged in
  let ht := map snd merged in
  let filtered :=
    map (fun r => if fleb (snd r) ht_max then snd (fst r) else nan) merged in
  Ok (mkState []
        (mk path name (Sentinel.title_of sc) info wv_delta wavelength
            temperatures
            (mkLong (map (fun r => fst (fst (fst r))) merged)
               (map (fun r => snd (fst (fst r))) merged)
               raw ht filtered None None)
            false None)
        []).

(** [mre(self, concentration, aa_number=1, pathlength=1)] *)
Definition mre (concentration : F) (aa_number pathlength : option F) (st : St)
  : Outcome F cd_melting_spectra unit :=
  let s := self st in
  let d := data s in
  let q :=
    map (fun x => fdiv x (CD.mre_divisor concentration aa_number pathlength))
      (CD_filtered d) in
  (Ok tt,
   mkState (heap st)
     (mk (path s) (name s) (title s) (info s) (wv_delta s) (wavelength s)
         (temperatures s)
         (mkLong (Wavelength d) (Temperature d) (CD_raw d) (HT d)
            (CD_filtered d) (Some q) (CD_smoothed d))
         true (integrals s))
     (stdout st)).

(** The column [smooth] and [integrate] work on. *)
Definition active (s : cd_melting_spectra) : result (list F) :=
  if mre_transformation s then of_option KeyError (CD_mre (data s))
  else Ok (CD_filtered (data s)).

(** The column [CD_mre] exists once [mre_transformation] is set. *)
Definition wf (st : St) : Prop :=
  mre_transformation (self st) = true -> CD_mre (data (self st)) <> None.

(** [smooth(self, wdw, polyorder)] *)
Definition smooth (wdw polyorder : Z) (st : St)
  : Outcome F cd_melting_spectra unit :=
  let s := self st in
  let d := data s in
  match (c <- active s ;; savgol_filter c wdw polyorder) with
  | Err e => (Err e, st)
  | Ok y =>
      (Ok tt,
       mkState (heap st)
         (mk (path s) (name s) (title s) (info s) (wv_delta s) (wavelength s)
             (temperatures s)
             (mkLong (Wavelength d) (Temperature d) (CD_raw d) (HT d)
                (CD_filtered d) (CD_mre d) (Some y))
             (mre_transformation s) (integrals s))
         (stdout st))
  end.

(** The mask of [integrate] for one temperature label, row by row. *)
Definition window (d : Long) (temperature : string) (lower upper : F)
  : list bool :=
  map (fun r =>
         String.eqb (snd r) temperature && fleb (fst r) upper
         && fleb lower (fst r))
    (combine (Wavelength d) (Temperature d)).

(** [column[mask]] on plain columns. *)
Definition pick (cond : list bool) (xs : list F) : list F :=
  map snd (filter fst (combine cond xs)).

(** [integrate(self, wv_limit_lower, wv_limit_upper)] *)
Definition integrate (wv_limit_lower wv_limit_upper : F) (st : St)
  : Outcome F cd_melting_spectra unit :=
  let s := self st in
  if match temperatures s with [] => true | _ => false end then
    (Ok tt,
     mkState (heap st)
       (mk (path s) (name s) (title s) (info s) (wv_delta s) (wavelength s)
           (temperatures s) (data s) (mre_transformation s) (Some []))
       (stdout st))
  else
    match active s with
    | Err e => (Err e, st)
    | Ok c =>
        let integrals :=
          map (fun temperature =>
                 fmul (wv_delta s)
                   (sum_skipna
                      (pick (window (data s) temperature wv_limit_lower
                               wv_limit_upper) c)))
            (temperatures s) in
        (Ok tt,
         mkState (heap st)
           (mk (path s) (name s) (title s) (info s) (wv_delta s)
               (wavelength s) (temperatures s) (data s)
               (mre_transformation s) (Some integrals))
           (stdout st))
    end.

End Class.
Arguments St F : clear implicits.
End MeltSpectra.

(** ** IEEE binary64 numbers and a reference reader

    The instances the examples run on.  [Number_float] is the kernel's
    binary64 arithmetic; its [fsum] adds from the left starting at 0,
    which is what numpy's [sum] computes on fewer than 8 numbers (from 8
    on numpy adds in blocks, and the last bits can differ).
    [Pandas_reference] reads a file the way [read_csv] does on files of
    plain decimals: blank lines are skipped before [header] and [nrows]
    are counted, fields are separated by [;], the decimal mark is the
    comma, nothing is quoted, and a number in exponent notation is
    refused.  Its [savgol_filter] is a stand-in: it checks the window and
    returns a copy of its input, where scipy returns the filtered
    values. *)

Module Reference.

Definition float_of_Z (z : Z) : float :=
  match z with
  | Z0 => 0%float
  | Zpos _ => PrimFloat.of_uint63 (Uint63.of_Z z)
  | Zneg p => PrimFloat.opp (PrimFloat.of_uint63 (Uint63.of_Z (Zpos p)))
  end.

Definition digit (c : ascii) : option Z :=
  let n := Z.of_nat (nat_of_ascii c) in
  if (48 <=? n) && (n <=? 57) then Some (n - 48) else None.

Fixpoint digits_value (s : string) (acc : Z) : option Z :=
  match s with
  | EmptyString => Some acc
  | String c s' =>
      match digit c with
      | Some d => digits_value s' (10 * acc + d)
      | None => None
      end
  end.

(** An unsigned decimal [ddd] or [ddd.ddd]: the quotient of two integers
    that binary64 holds exactly, hence correctly rounded; longer numerals
    are refused. *)
Definition unsigned_decimal (s : string) : option float :=
  let exact (m : Z) (k : nat) :=
    if (m <? 2 ^ 53) && (Nat.leb k 22)
    then Some (PrimFloat.div (float_of_Z m) (float_of_Z (10 ^ Z.of_nat k)))
    else None in
  match Py.split "." s with
  | [i] =>
      match i with
      | EmptyString => None
      | _ => match digits_value i 0 with Some m => exact m O | None => None end
      end
  | [i; fr] =>
      match (i ++ fr)%string with
      | EmptyString => None
      | d =>
          match digits_value d 0 with
          | Some m => exact m (String.length fr)
          | None => None
          end
      end
  | _ => None
  end.

(** [float(s)] on plain signed decimals. *)
Definition parse_float (s : string) : option float :=
  match Py.strip s with
  | String "-" s' => option_map PrimFloat.opp (unsigned_decimal s')
  | String "+" s' => unsigned_decimal s'
  | s' => unsigned_decimal s'
  end.

#[export] Instance Number_float : Number float := {
  of_int := float_of_Z;
  fsub := PrimFloat.sub;
  fmul := PrimFloat.mul;
  fdiv := PrimFloat.div;
  fabs := PrimFloat.abs;
  feqb := PrimFloat.eqb;
  fltb := PrimFloat.ltb;
  fleb := PrimFloat.leb;
  nan := PrimFloat.nan;
  isnan := PrimFloat.is_nan;
  fsum := fun xs => fold_left PrimFloat.add xs 0%float;
  float_of_string := parse_float
}.

Definition fields (line : string) : list string := Py.split ";" line.

(** A numeric cell: decimal comma, NaN when empty. *)
Definition cell (s : string) : result float :=
  match Py.strip s with
  | EmptyString => Ok PrimFloat.nan
  | t => of_option PandasError (parse_float (Py.replace "," "." t))
  end.

Fixpoint cells (fs : list string) : result (list float) :=
  match fs with
  | [] => Ok []
  | s :: fs' => x <- cell s ;; xs <- cells fs' ;; Ok (x :: xs)
  end.

Fixpoint table (ls : list string) : result (list (list float)) :=
  match ls with
  | [] => Ok []
  | l :: ls' => r <- cells (fields l) ;; rs <- table ls' ;; Ok (r :: rs)
  end.

(** A line [read_csv] skips ([skip_blank_lines=True]): empty, or made of
    spaces and tabs only. *)
Fixpoint blank (l : string) : bool :=
  match l with
  | EmptyString => true
  | String c l' =>
      (Ascii.eqb c " " || Ascii.eqb c "009") && blank l'
  end.

(** The lines [read_csv] counts: [header] and [nrows] number the lines
    that are not blank. *)
Definition counted (f : File) : list string :=
  filter (fun l => negb (blank l)) f.

(** The lines after a header at counted line [header] (from the top when
    there is none), [nrows] of them when given. *)
Definition body (f : File) (header : option Z) (nrows : option Z) : list string :=
  let rest :=
    match header with
    | Some h => skipn (Z.to_nat (h + 1)) (counted f)
    | None => counted f
    end in
  match nrows with
  | Some n => firstn (Z.to_nat n) rest
  | None => rest
  end.

Definition pairs (f : File) (header nrows : option Z) : result Table :=
  Ok (map (fun l =>
             (nth 0%nat (fields l) EmptyString, nth 1%nat (fields l) EmptyString))
        (body f header nrows)).

Definition numeric (f : File) (names : list string) (header nrows : Z)
  : result (list (list float)) :=
  if nrows <? 0 then Err ValueError
  else table (body f (Some header) (Some nrows)).

Fixpoint grid_columns (labels : list string) (j : nat) (rows : list (list float))
  : list (string * list float) :=
  match labels with
  | [] => []
  | l :: labels' =>
      (l, map (fun r => nth j r PrimFloat.nan) rows) :: grid_columns labels' (S j) rows
  end.

Definition grid (f : File) (header : Z) (nrows : option Z)
  : result (list float * list (string * list float)) :=
  checked <-
    match nrows with
    | Some n => if n <? 0 then Err ValueError else Ok tt
    | None => Ok tt
    end ;;
  head <- of_option PandasError (nth_error (counted f) (Z.to_nat header)) ;;
  rows <- table (body f (Some header) nrows) ;;
  Ok (map (fun r => nth 0%nat r PrimFloat.nan) rows,
      grid_columns (tl (fields head)) 1 rows).

Definition copy_if_window (x : list float) (wdw polyorder : Z)
  : result (list float) :=
  if (0 <? wdw) && (polyorder <? wdw) && (wdw <=? Z.of_nat (List.length x))
  then Ok x else Err ValueError.

#[export] Instance Pandas_reference : Pandas float := {
  read_pairs := pairs;
  read_table := numeric;
  read_grid := grid;
  savgol_filter := copy_if_window
}.

End Reference.

(** ** Sequences of calls *)

(** Some row holds [first] as a field and a later row holds [last]. *)
Fixpoint start_then_end (first last : string) (rows : list (list string)) : bool :=
  match rows with
  | [] => false
  | r :: rest =>
      (Py.mem first r && existsb (Py.mem last) rest)
      || start_then_end first last rest
  end.

Module Pipeline.
Section Calls.
Context {F : Type} `{Number F} `{Pandas F}.

(** A call of a method of [cd_spectra], with its arguments. *)
Inductive cd_call : Type :=
| cd_ht_filter
| cd_baseline (blank : File)
| cd_smooth (wdw polyorder : Z)
| cd_mre (concentration : F) (aa_number pathlength : option F)
| cd_integrate (wv_limit_lower wv_limit_upper : F).

Definition cd_step (c : cd_call) (st : CD.St F) : Outcome F CD.cd_spectra unit :=
  match c with
  | cd_ht_filter => CD.ht_filter st
  | cd_baseline blank => CD.baseline blank st
  | cd_smooth wdw polyorder => CD.smooth wdw polyorder st
  | cd_mre c aa pl => CD.mre c aa pl st
  | cd_integrate lo up => CD.integrate lo up st
  end.

(** The calls one after the other on the same object; a caller that
    catches an exception goes on with the state the failed call left. *)
Definition cd_run (cs : list cd_call) (st : CD.St F) : CD.St F :=
  fold_left (fun st c => snd (cd_step c st)) cs st.

(** A call of a method of [abs_spectra], with its arguments. *)
Inductive abs_call : Type :=
| abs_baseline (baseline_path : option string) (nm : option F)
| abs_smooth (wdw polyorder : Z)
| abs_concentration_calc (wv molar_extinction_coeff pathlength : F)
| abs_integrate (wv_limit_lower wv_limit_upper : F).

Definition abs_step (c : abs_call) (st : Abs.St F)
  : Outcome F Abs.abs_spectra unit :=
  match c with
  | abs_baseline p nm => Abs.baseline p nm st
  | abs_smooth wdw polyorder => Abs.smooth wdw polyorder st
  | abs_concentration_calc wv e pl => Abs.concentration_calc wv e pl st
  | abs_integrate lo up => Abs.integrate lo up st
  end.

Definition abs_run (cs : list abs_call) (st : Abs.St F) : Abs.St F :=
  fold_left (fun st c => snd (abs_step c st)) cs st.

(** [st'] has the objects of [st], unchanged, and perhaps new ones, and
    its raw attributes refer to the same objects. *)
Definition cd_grows (st st' : CD.St F) : Prop :=
  (exists ext, heap st' = heap st ++ ext)
  /\ CD.ellipticity_raw (self st') = CD.ellipticity_raw (self st)
  /\ CD.wavelength_raw (self st') = CD.wavelength_raw (self st).

Definition abs_grows (st st' : Abs.St F) : Prop :=
  (exists ext, heap st' = heap st ++ ext)
  /\ Abs.abs_raw (self st') = Abs.abs_raw (self st).

End Calls.
End Pipeline.

(** ** Failure before the data section is read *)

Section EarlyFailure.
Context {F : Type} `{Pandas F}.

(** A constructor raised while scanning, on an unbound [start] or [end],
    or in the [read_csv] of the info block, which is all it runs before
    it reads [end]. *)
Definition fails_before_data {A : Type} (f : File) (r : result A) : Prop :=
  r = Err IndexError
  \/ r = Err UnboundLocalError
  \/ exists start e, read_pairs f None (Some start) = Err e /\ r = Err e.

End EarlyFailure.

(** ** Sample files and records *)

Module Sample.
Import Reference.
Local Open Scope float_scope.

Definition from_ok {A : Type} (default : A) (r : result A) : A :=
  match r with
  | Ok a => a
  | Err _ => default
  end.

(** A CD spectrum of four points; HT exceeds 600 from the third on. *)
Definition lys : File :=
  [ "TITLE;lysozyme";
    "DATA TYPE;ULTRAVIOLET SPECTRUM";
    "XUNITS;NANOMETERS";
    "XYDATA";
    "260,0;1,5;300,0";
    "259,0;2,5;400,5";
    "258,0;-3,25;610,0";
    "257,0;4,0;700,0";
    EmptyString;
    "##### Extended Information";
    "[Measurement Information]";
    " Data pitch ;1 nm";
    "Band width;1,00 nm" ].

(** The buffer recorded over the same wavelengths. *)
Definition buffer : File :=
  [ "TITLE;buffer";
    "XYDATA";
    "260,0;0,5;290,0";
    "259,0;0,25;300,0";
    "258,0;0,25;350,0";
    "257,0;1,0;420,0";
    EmptyString;
    "##### Extended Information";
    "[Measurement Information]";
    "Data pitch;1 nm" ].

(** [lys] without the line [XYDATA]. *)
Definition no_xydata : File :=
  [ "TITLE;lysozyme";
    "260,0;1,5;300,0";
    "259,0;2,5;400,5";
    EmptyString;
    "##### Extended Information";
    "Data pitch;1 nm" ].

(** An absorbance spectrum. *)
Definition a280 : File :=
  [ "TITLE;bsa";
    "XYDATA";
    "282,0;0,5";
    "281,0;0,5";
    "280,0;0,5";
    "279,0;0,5";
    EmptyString;
    "##### Extended Information";
    "[Measurement Information]";
    "Data pitch;1 nm" ].

(** A melt grid: two wavelengths at two temperatures, CD then HT. *)
Definition melt : File :=
  [ "TITLE;melt";
    "DELTAX;-1,0";
    "Channel 1";
    ";20,0;30,0";
    "260,0;2,5;7,5";
    "259,0;5,0;10,0";
    "Channel 2";
    ";20,0;30,0";
    "260,0;300,0;310,0";
    "259,0;650,0;320,0" ].

Definition no_cd : CD.cd_spectra :=
  CD.mk EmptyString EmptyString [] None [] [] [] 0 0 0 0 0 None 0 0 0%Z 0
    false false 0 None None None.

Definition lys_state : CD.St float :=
  Eval vm_compute in
    from_ok (mkState [] no_cd []) (CD.init "runs/lys.csv" lys None false).

(** The rows [baseline] reads from the buffer. *)
Definition buffer_rows : list (list float) :=
  Eval vm_compute in from_ok [] (CD.read_blank CD.cols3 buffer).

(** [lys_state] after [baseline] with the buffer. *)
Definition lys_corrected : CD.St float :=
  Eval vm_compute in snd (CD.baseline buffer lys_state).

Definition no_abs : Abs.abs_spectra :=
  Abs.mk EmptyString EmptyString [] None [] [] [] 0 0 0 0 0 false 0 None None
    None None.

Definition a280_state : Abs.St float :=
  Eval vm_compute in
    from_ok (mkState [] no_abs []) (Abs.init "runs/bsa.csv" a280).

Definition no_melt : MeltSpectra.cd_melting_spectra :=
  MeltSpectra.mk EmptyString EmptyString None [] 0 [] []
    (MeltSpectra.mkLong [] [] [] [] [] None None) false None.

Definition melt_state : MeltSpectra.St float :=
  Eval vm_compute in
    from_ok (mkState [] no_melt []) (MeltSpectra.init "runs/melt.csv" melt None).

End Sample.

(** ** The order [<=] against [<] *)

(** What the mask of [baseline] needs of [<=]: it holds of IEEE
    comparisons (instance [NumberLe_float] below).  A number that takes
    part in a true [<] is not NaN, hence [<=] itself. *)
Class NumberLe (F : Type) {N : Number F} : Prop := {
  fltb_fleb : forall a b, fltb a b = true -> fleb a b = true;
  fltb_not_fleb : forall a b, fltb a b = true -> fleb b a = false;
  fltb_fleb_left : forall a b, fltb a b = true -> fleb a a = true;
  fltb_fleb_right : forall a b, fltb a b = true -> fleb b b = true
}.
Arguments NumberLe F {N}.

(** ** Rows of a well-laid-out file *)



(** ** Further sample files *)

Module Cases.
Import Reference.
Local Open Scope float_scope.

(** A spectrum whose first HT sample is already above 600. *)
Definition hot : File :=
  [ "TITLE;hot";
    "XYDATA";
    "260,0;1,5;650,0";
    "259,0;2,5;700,0";
    "258,0;3,5;710,0";
    EmptyString;
    "##### Extended Information";
    "[Measurement Information]";
    "Data pitch;1 nm" ].

Definition hot_state : CD.St float :=
  Eval vm_compute in
    Sample.from_ok (mkState [] Sample.no_cd [])
      (CD.init "runs/hot.csv" hot None false).

(** A spectrum whose HT stays below 600. *)
Definition calm : File :=
  [ "TITLE;calm";
    "XYDATA";
    "260,0;1,5;300,0";
    "259,0;2,5;310,0";
    "258,0;3,5;320,0";
    EmptyString;
    "##### Extended Information";
    "[Measurement Information]";
    "Data pitch;1 nm" ].

Definition calm_state : CD.St float :=
  Eval vm_compute in
    Sample.from_ok (mkState [] Sample.no_cd [])
      (CD.init "runs/calm.csv" calm None false).

(** A melting curve of three temperatures; HT is above 600 at the last. *)
Definition curve : File :=
  [ "TITLE;curve";
    "XYDATA";
    "20,0;-10,5;300,0";
    "30,0;-9,5;305,0";
    "40,0;-4,0;650,0";
    EmptyString;
    "##### Extended Information";
    "[Measurement Information]";
    "Monitor wavelength;222 nm" ].

Definition no_curve : MeltCurve.cd_melting_curve :=
  MeltCurve.mk EmptyString EmptyString [] None [] [] [] 0 0 0 None 0 0 0 None.

Definition curve_state : MeltCurve.St float :=
  Eval vm_compute in
    Sample.from_ok (mkState [] no_curve [])
      (MeltCurve.init "runs/curve.csv" curve None false).

End Cases.

(** ** What the methods never assign *)

Section Settings.
Context {F : Type}.

(** The attributes of [cd_spectra] that only [__init__] assigns. *)
Definition cd_settings (s : @CD.cd_spectra F) :=
  (CD.path s, CD.name s, CD.cols s, CD.title s, CD.info s, CD.data s,
   CD.metadata s, CD.ht s, CD.abs s, CD.wv_min s, CD.wv_max s,
   CD.idx_cutoff s, CD.wv_cutoff s, CD.wv_delta s).

End Settings.

(** ** Runs without [smooth] *)

Section Unsmoothed.
Context {F : Type} `{Number F} `{Pandas F}.

(** The state [st] with [smoothed] bound to [y], or unbound. *)
Definition with_smoothed (y : option (list F)) (st : CD.St F) : CD.St F :=
  let s := self st in
  mkState (heap st)
    (CD.mk (CD.path s) (CD.name s) (CD.cols s) (CD.title s) (CD.info s)
       (CD.data s) (CD.metadata s) (CD.wavelength_raw s) (CD.wavelength s)
       (CD.ellipticity_raw s) (CD.ellipticity s) (CD.ht s) (CD.abs s)
       (CD.wv_min s) (CD.wv_max s) (CD.idx_cutoff s) (CD.wv_cutoff s)
       (CD.filtered s) (CD.corrected s) (CD.wv_delta s) (CD.blank s) y
       (CD.integral s))
    (stdout st).

Definition is_smooth (c : @Pipeline.cd_call F) : bool :=
  match c with
  | Pipeline.cd_smooth _ _ => true
  | _ => false
  end.

(** The calls of [cs] that are not calls of [smooth]. *)
Definition without_smooth (cs : list (@Pipeline.cd_call F))
  : list (@Pipeline.cd_call F) :=
  filter (fun c => negb (is_smooth c)) cs.

End Unsmoothed.

(** ** Calls on a melt-spectra record *)

Section MeltCalls.
Context {F : Type} `{Number F} `{Pandas F}.

(** A call of a method of [cd_melting_spectra], with its arguments. *)
Inductive melt_call : Type :=
| melt_mre (concentration : F) (aa_number pathlength : option F)
| melt_smooth (wdw polyorder : Z)
| melt_integrate (wv_limit_lower wv_limit_upper : F).

Definition melt_step (c : melt_call) (st : MeltSpectra.St F)
  : Outcome F MeltSpectra.cd_melting_spectra unit :=
  match c with
  | melt_mre c aa pl => MeltSpectra.mre c aa pl st
  | melt_smooth wdw polyorder => MeltSpectra.smooth wdw polyorder st
  | melt_integrate lo up => MeltSpectra.integrate lo up st
  end.

(** The calls one after the other on the same object, as in [cd_run]. *)
Definition melt_run (cs : list melt_call) (st : MeltSpectra.St F)
  : MeltSpectra.St F :=
  fold_left (fun st c => snd (melt_step c st)) cs st.

(** The arguments of the last call of [mre] in [cs], if there is one. *)
Fixpoint last_mre (cs : list melt_call) : option (F * option F * option F) :=
  match cs with
  | [] => None
  | c :: rest =>
      match last_mre rest with
      | Some args => Some args
      | None =>
          match c with
          | melt_mre c aa pl => Some (c, aa, pl)
          | _ => None
          end
      end
  end.

(** What the constructor of [cd_melting_spectra] measured or read. *)
Definition melt_measured (s : @MeltSpectra.cd_melting_spectra F) :=
  let d := MeltSpectra.data s in
  (MeltSpectra.path s, MeltSpectra.name s, MeltSpectra.title s,
   MeltSpectra.info s, MeltSpectra.wv_delta s, MeltSpectra.wavelength s,
   MeltSpectra.temperatures s, MeltSpectra.Wavelength d,
   MeltSpectra.Temperature d, MeltSpectra.CD_raw d, MeltSpectra.HT d,
   MeltSpectra.CD_filtered d).

End MeltCalls.

(** * Properties *)

Import Reference.

(** ** The Python helpers on examples *)

Example split_title : Py.split ";" "TITLE;lysozyme" = ["TITLE"; "lysozyme"].
Proof. reflexivity. Qed.

Example replace_unit : Py.replace " nm" EmptyString "0.5 nm" = "0.5".
Proof. reflexivity. Qed.

Example basename_name : Py.drop_last 4 (Py.basename "data/run1/lys.csv") = "lys".
Proof. reflexivity. Qed.

Example strip_field : Py.strip "  Data pitch " = "Data pitch".
Proof. reflexivity. Qed.

Example replace_comma :
  Py.replace "," "." "20,0" = "20.0" /\ Py.replace "aa" "b" "aaa" = "ba".
Proof. split; reflexivity. Qed.

Example csv_row_blank : csv_row EmptyString = [] /\ csv_row "XYDATA" = ["XYDATA"].
Proof. split; reflexivity. Qed.

Example parse_decimal : Reference.parse_float "-3.25" = Some (-3.25)%float.
Proof. reflexivity. Qed.

(** ** Heap and series facts *)

Section HeapFacts.
Context {F : Type}.
Implicit Types (h : @Heap F) (s : @Series F).

Lemma deref_app_old h ext l :
  (l < List.length h)%nat -> deref (h ++ ext) l = deref h l.
Proof. intros Hl. unfold deref. now rewrite app_nth1. Qed.

Lemma deref_alloc_new h s : deref (fst (alloc h s)) (snd (alloc h s)) = s.
Proof.
  unfold alloc, deref. simpl. rewrite app_nth2 by lia.
  now rewrite Nat.sub_diag.
Qed.

Lemma deref_snoc h s : deref (h ++ [s]) (List.length h) = s.
Proof. exact (deref_alloc_new h s). Qed.

Lemma index_div_scalar `{Number F} s d : index (div_scalar s d) = index s.
Proof. unfold index, div_scalar. rewrite map_map. reflexivity. Qed.

Lemma values_div_scalar `{Number F} s d :
  values (div_scalar s d) = map (fun x => fdiv x d) (values s).
Proof. unfold values, div_scalar. rewrite !map_map. reflexivity. Qed.

End HeapFacts.

(** ** Guarded calls *)

Section Guards.
Context {F : Type} `{Number F} `{Pandas F}.

Lemma ht_filter_sets_flag (st : CD.St F) :
  CD.filtered (self (snd (CD.ht_filter st))) = true.
Proof.
  unfold CD.ht_filter. destruct (CD.filtered (self st)) eqn:E; simpl; auto.
Qed.

Lemma ht_filter_when_filtered (st : CD.St F) :
  CD.filtered (self st) = true ->
  CD.ht_filter st =
  (Ok tt, print "Your data has already been filtered using HT threshold" st).
Proof. intros E. unfold CD.ht_filter. now rewrite E. Qed.

Lemma baseline_when_corrected (blank : File) (st : CD.St F) :
  CD.corrected (self st) = true ->
  CD.baseline blank st = (Ok tt, print "Baseline is already corrected" st).
Proof. intros E. unfold CD.baseline. now rewrite E. Qed.

(** C2.  A second [ht_filter] returns normally, prints one line and leaves
    the object and the series it refers to as the first call left them; so
    does [baseline], whatever the file, once [corrected] is set. *)
Theorem guarded_calls_repeat_as_noops (st : CD.St F) (blank : File) :
  (let once := snd (CD.ht_filter st) in
   let twice := CD.ht_filter once in
   fst twice = Ok tt
   /\ self (snd twice) = self once
   /\ heap (snd twice) = heap once
   /\ stdout (snd twice) =
      stdout once ++ ["Your data has already been filtered using HT threshold"])
  /\ (CD.corrected (self st) = true ->
      let again := CD.baseline blank st in
      fst again = Ok tt
      /\ self (snd again) = self st
      /\ heap (snd again) = heap st
      /\ stdout (snd again) = stdout st ++ ["Baseline is already corrected"]).
Proof.
  split.
  - cbv zeta. rewrite (ht_filter_when_filtered _ (ht_filter_sets_flag st)).
    repeat split.
  - intros E. cbv zeta. rewrite (baseline_when_corrected blank _ E).
    repeat split.
Qed.

End Guards.

Lemma guarded_calls_repeat_witness :
  CD.corrected (self Sample.lys_corrected) = true
  /\ (let again := CD.baseline Sample.buffer Sample.lys_corrected in
      fst again = Ok tt
      /\ self (snd again) = self Sample.lys_corrected
      /\ heap (snd again) = heap Sample.lys_corrected
      /\ stdout (snd again) =
         stdout Sample.lys_corrected ++ ["Baseline is already corrected"]).
Proof.
  split.
  - reflexivity.
  - apply (proj2 (guarded_calls_repeat_as_noops Sample.lys_corrected
                    Sample.buffer)).
    reflexivity.
Defined.

(** ** [mre] validates nothing *)

Section Mre.
Context {F : Type} `{Number F} `{Pandas F}.

(** C7, as the code has it.  [mre] raises for no argument of the number
    type: it binds [ellipticity] to a new series holding every sample
    divided by [10 * concentration * aa_number * pathlength], multiplied
    from the left, with [aa_number] and [pathlength] 1 when not given,
    under the same labels; on a melt-spectra record it stores the
    quotients of [CD_filtered] by the same product as the column [CD_mre],
    keeps [CD_filtered] and sets [mre_transformation]. *)
Theorem mre_divides_without_validation
    (concentration : F) (aa_number pathlength : option F)
    (st : CD.St F) (mst : MeltSpectra.St F) :
  let aa := match aa_number with Some v => v | None => of_int 1 end in
  let pl := match pathlength with Some v => v | None => of_int 1 end in
  let d := fmul (fmul (fmul (of_int 10) concentration) aa) pl in
  (let out := CD.mre concentration aa_number pathlength st in
   fst out = Ok tt
   /\ index (CD.ellipticity_of (snd out)) = index (CD.ellipticity_of st)
   /\ values (CD.ellipticity_of (snd out)) =
      map (fun x => fdiv x d) (values (CD.ellipticity_of st)))
  /\ (let out := MeltSpectra.mre concentration aa_number pathlength mst in
      fst out = Ok tt
      /\ MeltSpectra.CD_mre (MeltSpectra.data (self (snd out))) =
         Some (map (fun x => fdiv x d)
                 (MeltSpectra.CD_filtered (MeltSpectra.data (self mst))))
      /\ MeltSpectra.CD_filtered (MeltSpectra.data (self (snd out))) =
         MeltSpectra.CD_filtered (MeltSpectra.data (self mst))
      /\ MeltSpectra.mre_transformation (self (snd out)) = true).
Proof.
  cbv zeta. split.
  - unfold CD.mre, CD.ellipticity_of. simpl.
    rewrite deref_snoc, index_div_scalar, values_div_scalar. auto.
  - unfold MeltSpectra.mre. simpl. auto.
Qed.

End Mre.

(** C7 as stated fails: with concentration 0 the divisor is 0, and the call
    returns normally with infinite samples; with the negative
    concentration -0.25 the divisor is -2.5, and the call returns the
    quotients by it. *)
Lemma mre_zero_divisor_returns :
  let out := CD.mre 0%float None None Sample.lys_state in
  let neg := CD.mre (-0.25)%float None None Sample.lys_state in
  CD.mre_divisor 0%float None None = 0%float
  /\ fst out = Ok tt
  /\ fst out <> Err InvalidParameterError
  /\ values (CD.ellipticity_of (snd out)) =
     [infinity; infinity; neg_infinity; infinity]
  /\ fst neg = Ok tt
  /\ values (CD.ellipticity_of (snd neg)) =
     map (fun x => PrimFloat.div x (-2.5)%float)
       [1.5%float; 2.5%float; (-3.25)%float; 4%float].
Proof.
  cbv zeta. repeat split; try reflexivity. discriminate.
Qed.

(** ** [concentration_calc] *)

Section Concentration.
Context {F : Type} `{Number F} `{Pandas F}.

Lemma concentration_calc_raises (wv e pl : F) (st : Abs.St F) :
  Abs.concentration_calc wv e pl st = (Err AttributeError, st).
Proof. reflexivity. Qed.

(** C8, the code.  A caller cannot reach [concentration_calc]: importing
    the module raises [SyntaxError], whatever the file and the arguments.
    In the class body as written, the first statement of the method reads
    [self.nm], which nothing assigns: for every record and all arguments
    the call raises [AttributeError], leaves the record as it was and
    stores no concentration. *)
Theorem concentration_calc_never_stores
    (path : string) (f : File) (wv e pl : F) :
  Abs.session path f (Abs.concentration_calc wv e pl) = (Err SyntaxError, None)
  /\ forall st : Abs.St F,
      Abs.concentration_calc wv e pl st = (Err AttributeError, st)
      /\ Abs.concentration (self (snd (Abs.concentration_calc wv e pl st)))
         = Abs.concentration (self st).
Proof.
  split; [reflexivity|]. intros st.
  rewrite concentration_calc_raises. split; reflexivity.
Qed.

End Concentration.

(** The class body at a record whose domain holds 280, where the claim
    has the quotient of the absorbance at 280: [AttributeError], and
    [concentration] stays unassigned. *)
Example concentration_calc_at_280 :
  let out := Abs.concentration_calc 280%float 43824%float 1%float
               Sample.a280_state in
  Abs.init "runs/bsa.csv" Sample.a280 = Ok Sample.a280_state
  /\ Abs.session "runs/bsa.csv" Sample.a280
       (Abs.concentration_calc 280%float 43824%float 1%float)
     = (Err SyntaxError, None)
  /\ existsb (fun w => PrimFloat.eqb w 280%float)
       (values (Abs.wavelength_of Sample.a280_state)) = true
  /\ fst out = Err AttributeError
  /\ snd out = Sample.a280_state
  /\ Abs.concentration (self (snd out)) = None.
Proof. cbv zeta. repeat split. Qed.

(** ** Columns of a parsed frame *)

Section Columns.
Context {F : Type} `{Number F}.
Implicit Types (h : @Heap F) (s : @Series F).

Lemma index_combine_seq (vals : list F) (base : nat) :
  map fst (combine (seq base (List.length vals)) vals) = seq base (List.length vals).
Proof.
  revert base. induction vals as [|x vals IH]; intros base; simpl; auto.
  now rewrite IH.
Qed.

Lemma values_combine_seq (vals : list F) (base : nat) :
  map snd (combine (seq base (List.length vals)) vals) = vals.
Proof.
  revert base. induction vals as [|x vals IH]; intros base; simpl; auto.
  now rewrite IH.
Qed.

Lemma length_range_series (vals : list F) :
  List.length (range_series vals) = List.length vals.
Proof.
  unfold range_series. rewrite length_combine, length_seq. apply Nat.min_id.
Qed.

Lemma index_range_series (vals : list F) :
  index (range_series vals) = seq 0 (List.length vals).
Proof. apply index_combine_seq. Qed.

Lemma values_range_series (vals : list F) : values (range_series vals) = vals.
Proof. apply values_combine_seq. Qed.

Lemma column_of_length h rows l :
  column_of h rows l -> List.length (deref h l) = List.length rows.
Proof.
  intros [_ [k ->]]. now rewrite length_range_series, length_map.
Qed.

(** [frame_of_rows] only extends the heap, and every column of the frame
    is a fresh series holding one field of every row. *)
Lemma frame_of_rows_columns (names : list string) :
  forall h j rows h' df,
    frame_of_rows h names j rows = (h', df) ->
    (exists ext, h' = h ++ ext)
    /\ forall name l, column df name = Ok l ->
                      (List.length h <= l)%nat /\ column_of h' rows l.
Proof.
  induction names as [|n names IH]; intros h j rows h' df Hf; simpl in Hf.
  - inversion Hf; subst. split.
    + exists []. now rewrite app_nil_r.
    + intros name l Hc. discriminate Hc.
  - destruct (frame_of_rows (h ++ [range_series (map (fun r => nth j r nan) rows)])
                names (S j) rows) as [h2 df2] eqn:E.
    inversion Hf; subst. destruct (IH _ _ _ _ _ E) as [[ext Hext] Hcols].
    split.
    + exists ([range_series (map (fun r => nth j r nan) rows)] ++ ext).
      now rewrite app_assoc.
    + intros name l Hc. simpl in Hc.
      destruct (String.eqb n name).
      * inversion Hc; subst l. split; [lia|]. rewrite Hext. split.
        -- rewrite !length_app. simpl. lia.
        -- exists j. rewrite deref_app_old by (rewrite length_app; simpl; lia).
           apply deref_snoc.
      * destruct (Hcols _ _ Hc) as [Hle Hcol]. split; auto.
        rewrite length_app in Hle. lia.
Qed.

End Columns.

(** Inversion of a chain of binds that returned. *)
Ltac bind_ok H :=
  repeat match type of H with
         | bind ?e _ = Ok _ =>
             let E := fresh "E" in
             destruct e eqn:E; [simpl in H | discriminate H]
         | (let (_, _) := ?e in _) = Ok _ =>
             let E := fresh "E" in destruct e eqn:E
         end.

(** ** The cutoff and [ht_filter] *)

Section Cutoff.
Context {F : Type} `{Number F} `{Pandas F}.

Lemma first_above_some (limit : F) (hts : list F) :
  forall base p,
    CD.first_above limit hts base = Some p ->
    exists k x,
      p = (base + k)%nat /\ nth_error hts k = Some x /\ fltb limit x = true
      /\ forall q y, (q < k)%nat -> nth_error hts q = Some y ->
                     fltb limit y = false.
Proof.
  induction hts as [|ht rest IH]; intros base p Hp; simpl in Hp; [discriminate|].
  destruct (fltb limit ht) eqn:E.
  - inversion Hp; subst. exists 0%nat, ht.
    split; [lia|]. split; [reflexivity|]. split; [assumption|].
    intros q y Hq. lia.
  - destruct (IH _ _ Hp) as (k & x & -> & Hx & Hlt & Hbefore).
    exists (S k), x.
    split; [lia|]. split; [assumption|]. split; [assumption|].
    intros [|q] y Hq Hy; simpl in Hy.
    + now inversion Hy; subst.
    + apply (Hbefore q); auto. lia.
Qed.

Lemma first_above_none (limit : F) (hts : list F) :
  forall base,
    CD.first_above limit hts base = None ->
    forall y, In y hts -> fltb limit y = false.
Proof.
  induction hts as [|ht rest IH]; intros base Hp y Hy; simpl in *; [tauto|].
  destruct (fltb limit ht) eqn:E; [discriminate|].
  destruct Hy as [<-|Hy]; eauto.
Qed.

(** What [init] leaves: the three columns of the parsed rows, the current
    series aliased to the raw ones. *)
Lemma init_columns path f ht_max abs (st : CD.St F) :
  CD.init path f ht_max abs = Ok st ->
  exists rows,
    column_of (heap st) rows (CD.wavelength (self st))
    /\ column_of (heap st) rows (CD.ellipticity (self st))
    /\ column_of (heap st) rows (CD.ht (self st))
    /\ CD.wavelength_raw (self st) = CD.wavelength (self st)
    /\ CD.ellipticity_raw (self st) = CD.ellipticity (self st)
    /\ column (CD.data (self st)) "Wavelength [nm]" = Ok (CD.wavelength (self st))
    /\ column (CD.data (self st)) "CD [mdeg]" = Ok (CD.ellipticity (self st))
    /\ CD.filtered (self st) = false /\ CD.corrected (self st) = false
    /\ stdout st = [].
Proof.
  intros Hinit. unfold CD.init in Hinit. bind_ok Hinit.
  inversion Hinit; subst; clear Hinit. simpl.
  match goal with
  | E : frame_of_rows _ _ _ _ = _ |- _ =>
      destruct (frame_of_rows_columns _ _ _ _ E) as [_ Hcols]
  end.
  match goal with
  | E : read_table _ _ _ _ = Ok ?rows |- _ => exists rows
  end.
  pose proof (fun n l Hc => proj2 (Hcols n l Hc)) as Hcol.
  split; [eapply Hcol; eassumption|].
  split; [eapply Hcol; eassumption|].
  split; [eapply Hcol; eassumption|].
  repeat split; assumption.
Qed.

End Cutoff.

Section CutoffTheorem.
Context {F : Type} `{Number F} `{Pandas F}.

Lemma init_cutoff path f ht_max abs (st : CD.St F) :
  CD.init path f ht_max abs = Ok st ->
  CD.idx_cutoff (self st) =
  Z.of_nat
    match CD.first_above (match ht_max with Some v => v | None => of_int 600 end)
            (values (CD.ht_of st)) 0 with
    | Some position => position
    | None => List.length (CD.wavelength_of st)
    end - 1.
Proof.
  intros Hinit. unfold CD.init in Hinit. bind_ok Hinit.
  inversion Hinit; subst; clear Hinit. reflexivity.
Qed.

Lemma ht_filter_truncates (st : CD.St F) :
  CD.filtered (self st) = false ->
  (CD.wavelength (self st) < List.length (heap st))%nat ->
  let out := CD.ht_filter st in
  let k := CD.idx_cutoff (self st) + 1 in
  fst out = Ok tt
  /\ CD.ellipticity_of (snd out) = iloc_upto k (CD.ellipticity_of st)
  /\ CD.wavelength_of (snd out) = iloc_upto k (CD.wavelength_of st)
  /\ CD.filtered (self (snd out)) = true.
Proof.
  intros Hf Hw. cbv zeta. unfold CD.ht_filter. rewrite Hf. simpl.
  unfold CD.ellipticity_of, CD.wavelength_of. simpl.
  rewrite deref_snoc.
  rewrite (deref_app_old _ _ (l := List.length (heap st)))
    by (rewrite length_app; simpl; lia).
  rewrite deref_snoc.
  rewrite (deref_app_old _ _ Hw). auto.
Qed.

(** C1.  A record that [cd_spectra(path, ht_max, abs)] returned has
    [idx_cutoff] one below the position of the first HT sample above
    [ht_max] (600 when not given), no earlier sample being above it, or
    one below the length of the domain when no sample is; [ht_filter]
    then returns with [ellipticity] and [wavelength] cut to their first
    [idx_cutoff + 1] samples, both of exactly that length, and [filtered]
    set. *)
Theorem init_cutoff_then_ht_filter
    (path : string) (f : File) (ht_max : option F) (abs : bool)
    (st : CD.St F) :
  CD.init path f ht_max abs = Ok st ->
  let limit := match ht_max with Some v => v | None => of_int 600 end in
  let hts := values (CD.ht_of st) in
  let cut := CD.idx_cutoff (self st) in
  ((exists p x,
       nth_error hts p = Some x /\ fltb limit x = true
       /\ (forall q y, (q < p)%nat -> nth_error hts q = Some y ->
                       fltb limit y = false)
       /\ cut = Z.of_nat p - 1)
   \/ ((forall y, In y hts -> fltb limit y = false)
       /\ cut = Z.of_nat (List.length (CD.wavelength_of st)) - 1))
  /\ (let out := CD.ht_filter st in
      fst out = Ok tt
      /\ CD.ellipticity_of (snd out) =
         firstn (Z.to_nat (cut + 1)) (CD.ellipticity_of st)
      /\ CD.wavelength_of (snd out) =
         firstn (Z.to_nat (cut + 1)) (CD.wavelength_of st)
      /\ Z.of_nat (List.length (CD.ellipticity_of (snd out))) = cut + 1
      /\ Z.of_nat (List.length (CD.wavelength_of (snd out))) = cut + 1
      /\ CD.filtered (self (snd out)) = true).
Proof.
  intros Hinit. cbv zeta.
  destruct (init_columns _ _ _ _ Hinit)
    as (rows & Hw & He & Hh & _ & _ & _ & _ & Hf & _).
  pose proof (init_cutoff _ _ _ _ Hinit) as Hcut.
  pose proof (column_of_length Hw) as Lw.
  pose proof (column_of_length He) as Le.
  pose proof (column_of_length Hh) as Lh.
  fold (CD.wavelength_of st) in Lw. fold (CD.ellipticity_of st) in Le.
  fold (CD.ht_of st) in Lh.
  assert (exists p : nat,
             CD.idx_cutoff (self st) = Z.of_nat p - 1
             /\ (p <= List.length rows)%nat) as (p & Hp & Hle).
  { rewrite Hcut.
    destruct (CD.first_above _ (values (CD.ht_of st)) 0) as [p|] eqn:E.
    - exists p. split; auto.
      destruct (first_above_some _ _ _ E) as (k & x & -> & Hx & _).
      assert (Hk : (k < List.length (values (CD.ht_of st)))%nat)
        by (apply nth_error_Some; congruence).
      unfold values in Hk. rewrite length_map, Lh in Hk. lia.
    - exists (List.length (CD.wavelength_of st)). split; auto. lia. }
  split.
  - rewrite Hcut.
    destruct (CD.first_above _ (values (CD.ht_of st)) 0) as [q|] eqn:E.
    + left. destruct (first_above_some _ _ _ E) as (k & x & -> & Hx & Hlt & Hb).
      exists k, x. auto.
    + right. split; auto. exact (first_above_none _ _ _ E).
  - destruct Hw as [Hw _].
    destruct (ht_filter_truncates st Hf Hw) as (R & Ee & Ew & Fl).
    cbv zeta in Ee, Ew. rewrite Ee, Ew. unfold iloc_upto, Py.upto.
    replace (CD.idx_cutoff (self st) + 1) with (Z.of_nat p) by lia.
    destruct (Z.of_nat p <? 0) eqn:Neg; [apply Z.ltb_lt in Neg; lia|].
    rewrite Nat2Z.id, !length_firstn, Le, Lw.
    repeat split; auto; lia.
Qed.

End CutoffTheorem.

Example first_above_at_50 :
  CD.first_above 600%float (repeat 500%float 50 ++ [601%float; 500%float]) 0
  = Some 50%nat.
Proof. reflexivity. Qed.

Lemma init_cutoff_witness :
  CD.init "runs/lys.csv" Sample.lys None false = Ok Sample.lys_state
  /\ CD.idx_cutoff (self Sample.lys_state) = 1
  /\ Z.of_nat (List.length (CD.wavelength_of (snd (CD.ht_filter Sample.lys_state))))
     = 2.
Proof.
  assert (E : CD.init "runs/lys.csv" Sample.lys None false = Ok Sample.lys_state)
    by (vm_compute; reflexivity).
  split; [exact E|]. split; [reflexivity|].
  exact (proj1 (proj2 (proj2 (proj2 (proj2
           (proj2 (init_cutoff_then_ht_filter _ _ _ _ E))))))).
Defined.

(** ** Exact-match lookup and the window of [integrate] *)

Section Lookup.
Context {F : Type} `{Number F}.
Implicit Types (s : @Series F).

Lemma boolean_index_map (p : nat * F -> bool) s :
  boolean_index (map p s) s = filter p s.
Proof.
  unfold boolean_index. induction s as [|x s IH]; simpl; auto.
  destruct (p x); simpl; now rewrite IH.
Qed.

Lemma where_eq_filter s v :
  where_eq s v = filter (fun x => feqb (snd x) v) s.
Proof. apply boolean_index_map. Qed.

Lemma index0_where_eq_absent s v :
  present v s = false -> index0 (where_eq s v) = Err IndexError.
Proof.
  rewrite where_eq_filter. unfold present, values.
  induction s as [|[l x] s IH]; simpl; auto.
  destruct (feqb x v); simpl; [discriminate|auto].
Qed.

Lemma index0_where_eq_present s v :
  present v s = true -> exists l, index0 (where_eq s v) = Ok l.
Proof.
  rewrite where_eq_filter. unfold present, values.
  induction s as [|[l x] s IH]; simpl; [discriminate|].
  destruct (feqb x v); simpl; eauto.
Qed.

Lemma index0_where_eq_ok s v l :
  index0 (where_eq s v) = Ok l ->
  exists k x, nth_error s k = Some (l, x) /\ feqb x v = true.
Proof.
  rewrite where_eq_filter.
  induction s as [|[l' x] s IH]; simpl; [discriminate|].
  destruct (feqb x v) eqn:E; simpl.
  - intros Hl. inversion Hl; subst. now exists 0%nat, x.
  - intros Hl. destruct (IH Hl) as (k & y & Hk & Hy). now exists (S k), y.
Qed.

Lemma nth_error_values s k l x :
  nth_error s k = Some (l, x) -> nth_error (values s) k = Some x.
Proof. intros Hk. unfold values. now rewrite nth_error_map, Hk. Qed.

Lemma descending_head `{!NumberOrder F} (rest : list F) :
  forall x y,
    descending (x :: rest) = true -> In y rest -> fltb y x = true.
Proof.
  induction rest as [|y0 rest IH]; intros x y Hd Hy; [destruct Hy|].
  change (fltb y0 x && descending (y0 :: rest) = true) in Hd.
  apply andb_prop in Hd as [Hx Hd].
  destruct Hy as [<-|Hy]; auto.
  eapply fltb_trans; eauto.
Qed.

Lemma descending_tail (x : F) (rest : list F) :
  descending (x :: rest) = true -> descending rest = true.
Proof.
  destruct rest as [|y rest]; auto.
  change (fltb y x && descending (y :: rest) = true -> descending (y :: rest) = true).
  intros Hd. now apply andb_prop in Hd.
Qed.

Lemma descending_nth `{!NumberOrder F} (vals : list F) :
  forall i j x y,
    descending vals = true -> (i < j)%nat ->
    nth_error vals i = Some x -> nth_error vals j = Some y ->
    fltb y x = true.
Proof.
  induction vals as [|v vals IH]; intros i j x y Hd Hij Hi Hj.
  - destruct i; discriminate.
  - destruct j as [|j]; [lia|]. simpl in Hj.
    destruct i as [|i]; simpl in Hi.
    + inversion Hi; subst. eapply descending_head; eauto.
      eapply nth_error_In; eauto.
    + apply (IH i j); auto; [eapply descending_tail; eauto|lia].
Qed.

Lemma increasing_nth_label s :
  forall i j a b x y,
    increasing (index s) -> (i < j)%nat ->
    nth_error s i = Some (a, x) -> nth_error s j = Some (b, y) ->
    (a < b)%nat.
Proof.
  induction s as [|[l v] s IH]; intros i j a b x y Hinc Hij Hi Hj.
  - destruct i; discriminate.
  - destruct Hinc as [Hall Hinc]. destruct j as [|j]; [lia|]. simpl in Hj.
    destruct i as [|i]; simpl in Hi.
    + inversion Hi; subst. rewrite Forall_forall in Hall. apply Hall.
      apply nth_error_In in Hj. now apply (in_map fst) in Hj.
    + apply (IH i j a b x y); auto. lia.
Qed.

Lemma at_label_nth s :
  forall k l x,
    increasing (index s) -> nth_error s k = Some (l, x) ->
    at_label l s = Some x.
Proof.
  induction s as [|[l0 v] s IH]; intros k l x Hinc Hk.
  - destruct k; discriminate.
  - destruct Hinc as [Hall Hinc]. simpl.
    destruct k as [|k]; simpl in Hk.
    + inversion Hk; subst. now rewrite Nat.eqb_refl.
    + rewrite Forall_forall in Hall.
      assert (l0 < l)%nat.
      { apply Hall. apply nth_error_In in Hk. now apply (in_map fst) in Hk. }
      destruct (Nat.eqb_spec l0 l); [lia|]. eapply IH; eauto.
Qed.

Lemma range_indexed_at_label s l :
  range_indexed s -> at_label l s = nth_error (values s) l.
Proof.
  unfold range_indexed, index, values.
  assert (G : forall base,
             map fst s = seq base (List.length s) ->
             at_label (base + l) s = nth_error (map snd s) l
             /\ forall k, (k < base)%nat -> at_label k s = None).
  { revert l. induction s as [|[l0 v] s IH]; intros l base Hr; simpl.
    - split; auto. now destruct l.
    - simpl in Hr. inversion Hr as [[Hl0 Hrest]]. rewrite <- Hl0 in *.
      destruct (IH 0%nat _ Hrest) as [_ Hbelow]. split.
      + destruct l as [|l].
        * now rewrite Nat.add_0_r, Nat.eqb_refl.
        * destruct (Nat.eqb_spec l0 (l0 + S l)); [lia|].
          replace (l0 + S l)%nat with (S l0 + l)%nat by lia.
          apply (IH l _ Hrest).
      + intros k Hk. destruct (Nat.eqb_spec l0 k); [lia|].
        apply Hbelow. lia. }
  intros Hr. exact (proj1 (G 0%nat Hr)).
Qed.

(** In a descending domain the sample equal to the upper bound is
    labelled strictly below the one equal to the lower bound. *)
Lemma window_labels `{!NumberOrder F} s lower upper a b :
  increasing (index s) -> descending (values s) = true ->
  fltb lower upper = true ->
  index0 (where_eq s upper) = Ok a ->
  index0 (where_eq s lower) = Ok b ->
  (a < b)%nat
  /\ exists wu wl,
      at_label a s = Some wu /\ feqb wu upper = true
      /\ at_label b s = Some wl /\ feqb wl lower = true.
Proof.
  intros Hinc Hd Hlt Ha Hb.
  destruct (index0_where_eq_ok _ _ Ha) as (ka & wu & Hka & Hu).
  destruct (index0_where_eq_ok _ _ Hb) as (kb & wl & Hkb & Hl).
  split.
  - destruct (Nat.lt_trichotomy ka kb) as [Lt|[Eq|Gt]].
    + exact (increasing_nth_label _ Hinc Lt Hka Hkb).
    + exfalso. subst kb. rewrite Hka in Hkb. inversion Hkb; subst.
      pose proof (fltb_feqb _ _ _ _ Hl Hu) as Hxx. rewrite Hlt in Hxx.
      pose proof (fltb_asym _ _ Hxx). congruence.
    + exfalso. apply nth_error_values in Hka, Hkb.
      pose proof (descending_nth _ Hd Gt Hkb Hka) as Hdesc.
      rewrite (fltb_feqb _ _ _ _ Hu Hl) in Hdesc.
      pose proof (fltb_asym _ _ Hlt). congruence.
  - exists wu, wl. repeat split; auto; eapply at_label_nth; eauto.
Qed.

End Lookup.

(** ** IEEE comparisons satisfy [NumberOrder] *)

Lemma SFcompare_swap x y :
  SFcompare y x =
  match SFcompare x y with
  | Some c => Some (CompOpp c)
  | None => None
  end.
Proof.
  destruct x as [sx|sx| |sx mx ex], y as [sy|sy| |sy my ey]; simpl;
    try reflexivity;
    repeat match goal with |- context [if ?b then _ else _] => destruct b end;
    try reflexivity.
  all: try (destruct sx, sy; simpl; try reflexivity).
  all: change (PosDef.Pos.compare_cont Eq my mx) with (Pos.compare my mx);
       change (PosDef.Pos.compare_cont Eq mx my) with (Pos.compare mx my);
       rewrite (Z.compare_antisym ex ey); destruct (ex ?= ey)%Z; simpl;
       try reflexivity;
       rewrite (Pos.compare_antisym mx my); destruct (mx ?= my)%positive;
       reflexivity.
Qed.

Lemma SFcompare_eq_l x a y :
  SFcompare x a = Some Eq -> SFcompare x y = SFcompare a y.
Proof.
  destruct x as [sx|sx| |sx mx ex], a as [sa|sa| |sa ma ea]; simpl; intros E;
    try discriminate;
    repeat match goal with s : bool |- _ => destruct s end;
    try discriminate; try (destruct y; reflexivity).
  all: change (PosDef.Pos.compare_cont Eq mx ma) with (Pos.compare mx ma) in E;
       destruct (ex ?= ea)%Z eqn:Ez; try discriminate;
       apply Z.compare_eq in Ez; subst;
       destruct (mx ?= ma)%positive eqn:Ep; try discriminate;
       apply Pos.compare_eq in Ep; subst; reflexivity.
Qed.

Lemma SFcompare_eq_r y b x :
  SFcompare y b = Some Eq -> SFcompare x y = SFcompare x b.
Proof.
  intros E. rewrite (SFcompare_swap y x), (SFcompare_swap b x).
  now rewrite (SFcompare_eq_l _ _ x E).
Qed.

Lemma float_ltb_asym (a b : float) :
  PrimFloat.ltb a b = true -> PrimFloat.ltb b a = false.
Proof.
  rewrite !FloatAxioms.ltb_spec. unfold SFltb.
  rewrite (SFcompare_swap (Prim2SF a) (Prim2SF b)).
  destruct (SFcompare (Prim2SF a) (Prim2SF b)) as [[]|]; simpl; congruence.
Qed.

Lemma float_ltb_eqb (x a y b : float) :
  PrimFloat.eqb x a = true -> PrimFloat.eqb y b = true ->
  PrimFloat.ltb x y = PrimFloat.ltb a b.
Proof.
  rewrite !FloatAxioms.eqb_spec, !FloatAxioms.ltb_spec.
  unfold SFeqb, SFltb. intros E1 E2.
  destruct (SFcompare (Prim2SF x) (Prim2SF a)) as [[]|] eqn:C1; try discriminate.
  destruct (SFcompare (Prim2SF y) (Prim2SF b)) as [[]|] eqn:C2; try discriminate.
  now rewrite (SFcompare_eq_l _ _ _ C1), (SFcompare_eq_r _ _ _ C2).
Qed.

Lemma SFltb_trans x y z :
  SFltb x y = true -> SFltb y z = true -> SFltb x z = true.
Proof.
  unfold SFltb.
  destruct x as [sx|sx| |sx mx ex], y as [sy|sy| |sy my ey],
           z as [sz|sz| |sz mz ez]; simpl;
    repeat match goal with s : bool |- _ => destruct s end;
    simpl; try discriminate; try reflexivity.
  all: repeat match goal with
         | |- context [PosDef.Pos.compare_cont Eq ?a ?b] =>
             change (PosDef.Pos.compare_cont Eq a b) with (Pos.compare a b)
         end.
  all: destruct (Z.compare_spec ex ey), (Z.compare_spec ey ez),
         (Z.compare_spec ex ez); subst; simpl; try discriminate;
         try reflexivity; try lia.
  all: destruct (Pos.compare_spec mx my), (Pos.compare_spec my mz),
         (Pos.compare_spec mx mz); subst; simpl; try discriminate;
         try reflexivity; try lia.
Qed.

Lemma float_ltb_trans (a b c : float) :
  PrimFloat.ltb a b = true -> PrimFloat.ltb b c = true ->
  PrimFloat.ltb a c = true.
Proof. rewrite !FloatAxioms.ltb_spec. apply SFltb_trans. Qed.

#[export] Instance NumberOrder_float : NumberOrder float := {
  fltb_asym := float_ltb_asym;
  fltb_trans := float_ltb_trans;
  fltb_feqb := float_ltb_eqb
}.

(** ** [integrate] on the one-dimensional records *)

Section Integrate.
Context {F : Type} `{Number F} `{Pandas F}.

Lemma nth_error_slice {A : Type} (a b k : nat) (l : list A) :
  nth_error (Py.slice a (S b) l) k =
  if (a + k <=? b)%nat then nth_error l (a + k) else None.
Proof.
  unfold Py.slice. rewrite nth_error_skipn, nth_error_firstn.
  destruct (a + k <=? b)%nat eqn:E1; destruct (a + k <? S b)%nat eqn:E2; auto.
  - apply Nat.leb_le in E1. apply Nat.ltb_ge in E2. lia.
  - apply Nat.leb_gt in E1. apply Nat.ltb_lt in E2. lia.
Qed.

Lemma values_slice (a b : nat) (s : @Series F) :
  values (Py.slice a b s) = skipn a (firstn b (values s)).
Proof. unfold values, Py.slice. now rewrite firstn_map, skipn_map. Qed.

(** C4.  On a record whose domain is strictly descending, with
    [lower < upper] both equal to a sample of the domain,
    [integrate(lower, upper)] returns and stores [wv_delta] times the sum
    of the samples of the signal at the positions [iu], ..., [il], both
    included, where [iu] is the index of [upper], [il] the index of
    [lower], and [iu < il]; a NaN among them counts as 0.  The indexes
    are the labels of the two samples in the domain, which are their
    positions on a record whose domain is addressed by position.  It
    holds of [cd_spectra] and of [abs_spectra]. *)
Theorem integrate_descending_window `{!NumberOrder F} (lower upper : F) :
  (forall st : CD.St F,
      CD.wf st ->
      descending (values (CD.wavelength_of st)) = true ->
      fltb lower upper = true ->
      present lower (CD.wavelength_of st) = true ->
      present upper (CD.wavelength_of st) = true ->
      exists iu il wu wl,
        (iu < il)%nat
        /\ at_label iu (CD.wavelength_of st) = Some wu
        /\ feqb wu upper = true
        /\ at_label il (CD.wavelength_of st) = Some wl
        /\ feqb wl lower = true
        /\ (range_indexed (CD.wavelength_of st) ->
            nth_error (values (CD.wavelength_of st)) iu = Some wu
            /\ nth_error (values (CD.wavelength_of st)) il = Some wl)
        /\ let window :=
             skipn iu (firstn (S il) (values (CD.ellipticity_of st))) in
           let v :=
             fmul (CD.wv_delta (self st))
               (fsum (map (fun x => if isnan x then of_int 0 else x) window)) in
           CD.integrate lower upper st =
           (Ok tt, mkState (heap st) (CD.set_integral v (self st)) (stdout st))
           /\ CD.integral (self (snd (CD.integrate lower upper st))) = Some v)
  /\ (forall st : Abs.St F,
         Abs.wf st ->
         descending (values (Abs.wavelength_of st)) = true ->
         fltb lower upper = true ->
         present lower (Abs.wavelength_of st) = true ->
         present upper (Abs.wavelength_of st) = true ->
         exists iu il wu wl,
           (iu < il)%nat
           /\ at_label iu (Abs.wavelength_of st) = Some wu
           /\ feqb wu upper = true
           /\ at_label il (Abs.wavelength_of st) = Some wl
           /\ feqb wl lower = true
           /\ (range_indexed (Abs.wavelength_of st) ->
               nth_error (values (Abs.wavelength_of st)) iu = Some wu
               /\ nth_error (values (Abs.wavelength_of st)) il = Some wl)
           /\ let window :=
                skipn iu (firstn (S il) (values (Abs.abs_of st))) in
              let v :=
                fmul (Abs.wv_delta (self st))
                  (fsum (map (fun x => if isnan x then of_int 0 else x) window)) in
              Abs.integrate lower upper st =
              (Ok tt, mkState (heap st) (Abs.set_integral v (self st)) (stdout st))
              /\ Abs.integral (self (snd (Abs.integrate lower upper st))) = Some v).
Proof.
  split; intros st Hwf Hd Hlt Hl Hu;
    [ pose proof (proj2 (proj2 (proj2 (proj2 (proj2 (proj2 Hwf)))))) as Hinc
    | pose proof (proj2 (proj2 (proj2 Hwf))) as Hinc ];
    destruct (index0_where_eq_present _ _ Hu) as [a Ha];
    destruct (index0_where_eq_present _ _ Hl) as [b Hb];
    destruct (window_labels _ lower upper Hinc Hd Hlt Ha Hb)
      as (Hab & wu & wl & Hwu & Eu & Hwl & El);
    exists a, b, wu, wl; repeat (split; [assumption|]);
    (split;
     [intros Hr; rewrite <- !(range_indexed_at_label _ Hr); now split|]);
    cbv zeta.
  - unfold CD.integrate. rewrite Ha. cbn [bind]. rewrite Hb. cbn [bind].
    unfold iloc_slice, series_sum, sum_skipna, zero_filled.
    rewrite Nat.add_1_r, values_slice. split; reflexivity.
  - unfold Abs.integrate. rewrite Ha. cbn [bind]. rewrite Hb. cbn [bind].
    unfold iloc_slice, series_sum, sum_skipna, zero_filled.
    rewrite Nat.add_1_r, values_slice. split; reflexivity.
Qed.

(** C5, as the code has it.  When a bound equals no sample of the domain,
    [integrate] raises [IndexError] (from [.index[0]] on an empty index)
    and leaves the state as it was; so on [cd_spectra] and [abs_spectra]. *)
Theorem integrate_missing_bound_IndexError (lower upper : F) :
  (forall st : CD.St F,
      present lower (CD.wavelength_of st) = false
      \/ present upper (CD.wavelength_of st) = false ->
      CD.integrate lower upper st = (Err IndexError, st))
  /\ (forall st : Abs.St F,
         present lower (Abs.wavelength_of st) = false
         \/ present upper (Abs.wavelength_of st) = false ->
         Abs.integrate lower upper st = (Err IndexError, st)).
Proof.
  split; intros st Hmiss.
  - unfold CD.integrate.
    destruct (present upper (CD.wavelength_of st)) eqn:Eu.
    + destruct (index0_where_eq_present _ _ Eu) as [a ->]. simpl.
      destruct Hmiss as [Hl|Hu]; [|discriminate].
      now rewrite (index0_where_eq_absent _ _ Hl).
    + now rewrite (index0_where_eq_absent _ _ Eu).
  - unfold Abs.integrate.
    destruct (present upper (Abs.wavelength_of st)) eqn:Eu.
    + destruct (index0_where_eq_present _ _ Eu) as [a ->]. simpl.
      destruct Hmiss as [Hl|Hu]; [|discriminate].
      now rewrite (index0_where_eq_absent _ _ Hl).
    + now rewrite (index0_where_eq_absent _ _ Eu).
Qed.

End Integrate.

Example integrate_lys_258_260 :
  CD.integral (self (snd (CD.integrate 258%float 260%float Sample.lys_state)))
  = Some 0.75%float
  /\ Abs.integral
       (self (snd (Abs.integrate 280%float 282%float Sample.a280_state)))
     = Some 1.5%float.
Proof. split; reflexivity. Qed.

Lemma integrate_missing_bound_witness :
  present 258.5%float (CD.wavelength_of Sample.lys_state) = false
  /\ CD.integrate 258.5%float 260%float Sample.lys_state =
     (Err IndexError, Sample.lys_state).
Proof.
  split; [reflexivity|].
  apply (proj1 (integrate_missing_bound_IndexError 258.5%float 260%float)).
  left. reflexivity.
Defined.

(** C5 as stated fails: 258.5 lies between two samples, and the exception
    is [IndexError], not [ValueNotFoundError]. *)
Lemma integrate_between_samples_not_ValueNotFound :
  present 258.5%float (CD.wavelength_of Sample.lys_state) = false
  /\ fst (CD.integrate 258.5%float 260%float Sample.lys_state) = Err IndexError
  /\ fst (CD.integrate 258.5%float 260%float Sample.lys_state)
     <> Err ValueNotFoundError
  /\ fst (Abs.integrate 280.5%float 282%float Sample.a280_state)
     <> Err ValueNotFoundError.
Proof. repeat split; try reflexivity; discriminate. Qed.

(** ** Missing sentinels *)

Section Scans.
Import Sentinel.

Lemma getitem_error {A : Type} (l : list A) (i : Z) (e : exn) :
  Py.getitem l i = Err e -> e = IndexError.
Proof.
  unfold Py.getitem.
  destruct ((0 <=? i) && (i <? Z.of_nat (List.length l))).
  - destruct (nth_error l (Z.to_nat i)); simpl; congruence.
  - destruct ((i <? 0) && (0 <=? Z.of_nat (List.length l) + i)).
    + destruct (nth_error l (Z.to_nat (Z.of_nat (List.length l) + i))); simpl;
        congruence.
    + congruence.
Qed.

Lemma title_field_error (line : list string) (e : exn) :
  title_field line = Err e -> e = IndexError.
Proof.
  unfold title_field. destruct (Py.getitem line 0) eqn:E; simpl.
  - apply getitem_error.
  - intros Heq. inversion Heq; subst. eapply getitem_error; eauto.
Qed.

Lemma scan_spectrum_error rows :
  forall position sc e,
    scan_spectrum rows position sc = Err e -> e = IndexError.
Proof.
  induction rows as [|line rest IH]; intros position sc e; simpl; [discriminate|].
  destruct (position =? 0).
  - destruct (title_field line) eqn:E; simpl; [apply IH|].
    intros Heq. inversion Heq; subst. eapply title_field_error; eauto.
  - destruct (Py.mem XYDATA line); [apply IH|].
    destruct (Py.mem Extended line); [discriminate|apply IH].
Qed.

Lemma scan_spectrum_end rows :
  forall position sc sc',
    scan_spectrum rows position sc = Ok sc' ->
    end_of sc = None -> end_of sc' <> None ->
    existsb (Py.mem Extended) rows = true.
Proof.
  induction rows as [|line rest IH]; intros position sc sc'; simpl.
  - intros Heq; inversion Heq; subst. congruence.
  - destruct (position =? 0).
    + destruct (title_field line); simpl; [|discriminate].
      intros Hs He Hn. rewrite (IH _ _ _ Hs); auto. apply orb_true_r.
    + destruct (Py.mem XYDATA line).
      * intros Hs He Hn. rewrite (IH _ _ _ Hs); auto. apply orb_true_r.
      * destruct (Py.mem Extended line); [reflexivity|].
        intros Hs He Hn. simpl. eapply IH; eauto.
Qed.

Lemma scan_spectrum_both rows :
  forall position sc sc',
    scan_spectrum rows position sc = Ok sc' ->
    start_of sc = None -> end_of sc = None ->
    start_of sc' <> None -> end_of sc' <> None ->
    start_then_end XYDATA Extended rows = true.
Proof.
  induction rows as [|line rest IH]; intros position sc sc'; simpl.
  - intros Heq; inversion Heq; subst. congruence.
  - destruct (position =? 0).
    + destruct (title_field line); simpl; [|discriminate].
      intros Hs S0 E0 S1 E1. rewrite (IH _ _ _ Hs); auto. apply orb_true_r.
    + destruct (Py.mem XYDATA line) eqn:X.
      * intros Hs S0 E0 S1 E1.
        rewrite (scan_spectrum_end _ _ _ Hs); auto.
      * destruct (Py.mem Extended line).
        -- intros Heq; inversion Heq; subst. simpl. congruence.
        -- intros Hs S0 E0 S1 E1. simpl. eapply IH; eauto.
Qed.

Lemma scan_grid_error rows :
  forall position sc e, scan_grid rows position sc = Err e -> e = IndexError.
Proof.
  induction rows as [|line rest IH]; intros position sc e; simpl; [discriminate|].
  destruct (Py.getitem line 0) as [f|e0] eqn:E; simpl.
  - destruct (Py.contains "TITLE" f).
    + destruct (Py.getitem (Py.split ";" f) 1) eqn:E1; simpl; [apply IH|].
      intros Heq. inversion Heq; subst. eapply getitem_error; eauto.
    + destruct (Py.mem Channel1 line); [apply IH|].
      destruct (Py.mem Channel2 line); [discriminate|apply IH].
  - intros Heq. inversion Heq; subst. eapply getitem_error; eauto.
Qed.

Lemma scan_grid_end rows :
  forall position sc sc',
    scan_grid rows position sc = Ok sc' ->
    end_of sc = None -> end_of sc' <> None ->
    existsb (Py.mem Channel2) rows = true.
Proof.
  induction rows as [|line rest IH]; intros position sc sc'; simpl.
  - intros Heq; inversion Heq; subst. congruence.
  - destruct (Py.getitem line 0) as [f|e0]; simpl; [|discriminate].
    destruct (Py.contains "TITLE" f).
    + destruct (Py.getitem (Py.split ";" f) 1); simpl; [|discriminate].
      intros Hs He Hn. rewrite (IH _ _ _ Hs); auto. apply orb_true_r.
    + destruct (Py.mem Channel1 line).
      * intros Hs He Hn. rewrite (IH _ _ _ Hs); auto. apply orb_true_r.
      * destruct (Py.mem Channel2 line); [reflexivity|].
        intros Hs He Hn. simpl. eapply IH; eauto.
Qed.

Lemma scan_grid_both rows :
  forall position sc sc',
    scan_grid rows position sc = Ok sc' ->
    start_of sc = None -> end_of sc = None ->
    start_of sc' <> None -> end_of sc' <> None ->
    start_then_end Channel1 Channel2 rows = true.
Proof.
  induction rows as [|line rest IH]; intros position sc sc'; simpl.
  - intros Heq; inversion Heq; subst. congruence.
  - destruct (Py.getitem line 0) as [f|e0]; simpl; [|discriminate].
    destruct (Py.contains "TITLE" f).
    + destruct (Py.getitem (Py.split ";" f) 1); simpl; [|discriminate].
      intros Hs S0 E0 S1 E1. rewrite (IH _ _ _ Hs); auto. apply orb_true_r.
    + destruct (Py.mem Channel1 line) eqn:X.
      * intros Hs S0 E0 S1 E1. rewrite (scan_grid_end _ _ _ Hs); auto.
      * destruct (Py.mem Channel2 line).
        -- intros Heq; inversion Heq; subst. simpl. congruence.
        -- intros Hs S0 E0 S1 E1. simpl. eapply IH; eauto.
Qed.

End Scans.

Section MissingSentinel.
Context {F : Type} `{Number F} `{Pandas F}.

(** The shared opening of the three spectrum constructors. *)
Lemma spectrum_opening_fails {A : Type} (f : File)
    (rest : Sentinel.Scan -> Z -> Table -> Z -> result A) :
  start_then_end Sentinel.XYDATA Sentinel.Extended (map csv_row f) = false ->
  fails_before_data f
    (sc <- Sentinel.scan_spectrum (map csv_row f) 0 Sentinel.unbound ;;
     start <- Sentinel.local (Sentinel.start_of sc) ;;
     info <- read_pairs f None (Some start) ;;
     end_ <- Sentinel.local (Sentinel.end_of sc) ;;
     rest sc start info end_).
Proof.
  intros Hno. unfold fails_before_data.
  destruct (Sentinel.scan_spectrum (map csv_row f) 0 Sentinel.unbound)
    as [sc|e] eqn:E; simpl.
  - destruct (Sentinel.start_of sc) as [start|] eqn:S1; simpl; [|auto].
    destruct (read_pairs f None (Some start)) as [info|e] eqn:R; simpl.
    + destruct (Sentinel.end_of sc) as [end_|] eqn:E1; simpl; [|auto].
      exfalso.
      assert (start_then_end Sentinel.XYDATA Sentinel.Extended (map csv_row f)
              = true)
        by (eapply scan_spectrum_both; eauto; congruence).
      congruence.
    + right. right. now exists start, e.
  - left. f_equal. eapply scan_spectrum_error; eauto.
Qed.

(** C6, as the code has it.  When no row holding [XYDATA] is followed by a
    row holding the end sentinel, each spectrum constructor raises and
    returns no record: [IndexError] from the title line,
    [UnboundLocalError] on the unbound [start] or [end], or what
    [read_csv] raised on the info block.  The grid constructor does so
    for [Channel 1] and [Channel 2], before any read. *)
Theorem missing_sentinel_raises
    (path : string) (f : File) (ht_max : option F) (abs : bool) :
  (start_then_end Sentinel.XYDATA Sentinel.Extended (map csv_row f) = false ->
   fails_before_data f (CD.init path f ht_max abs)
   /\ fails_before_data f (MeltCurve.init path f ht_max abs)
   /\ fails_before_data f (Abs.init path f))
  /\ (start_then_end Sentinel.Channel1 Sentinel.Channel2 (map csv_row f) = false ->
      MeltSpectra.init path f ht_max = Err IndexError
      \/ MeltSpectra.init path f ht_max = Err UnboundLocalError).
Proof.
  split.
  - intros Hno. repeat split.
    + unfold CD.init. cbv zeta. now apply spectrum_opening_fails.
    + unfold MeltCurve.init. cbv zeta. now apply spectrum_opening_fails.
    + unfold Abs.init. cbv zeta. now apply spectrum_opening_fails.
  - intros Hno. unfold MeltSpectra.init. cbv zeta.
    destruct (Sentinel.scan_grid (map csv_row f) 0 Sentinel.unbound)
      as [sc|e] eqn:E; simpl.
    + destruct (Sentinel.start_of sc) as [start|] eqn:S1; simpl; [|auto].
      destruct (Sentinel.end_of sc) as [end_|] eqn:E1; simpl; [|auto].
      exfalso.
      assert (start_then_end Sentinel.Channel1 Sentinel.Channel2 (map csv_row f)
              = true)
        by (eapply scan_grid_both; eauto; congruence).
      congruence.
    + left. f_equal. eapply scan_grid_error; eauto.
Qed.

End MissingSentinel.

Lemma missing_sentinel_witness :
  start_then_end Sentinel.XYDATA Sentinel.Extended (map csv_row Sample.no_xydata)
  = false
  /\ fails_before_data Sample.no_xydata
       (CD.init "runs/lys.csv" Sample.no_xydata (None : option float) false).
Proof.
  split; [reflexivity|].
  apply (proj1 (missing_sentinel_raises "runs/lys.csv" Sample.no_xydata
                  (None : option float) false)).
  reflexivity.
Defined.

(** C6 as stated fails: without [XYDATA] the constructor raises
    [UnboundLocalError], not [MalformedFormatError]; so do the grid
    constructor without [Channel 1] and the absorbance constructor. *)
Lemma no_xydata_not_MalformedFormat :
  start_then_end Sentinel.XYDATA Sentinel.Extended (map csv_row Sample.no_xydata)
  = false
  /\ CD.init "runs/lys.csv" Sample.no_xydata (None : option float) false
     = Err UnboundLocalError
  /\ CD.init "runs/lys.csv" Sample.no_xydata (None : option float) false
     <> Err MalformedFormatError
  /\ Abs.init "runs/lys.csv" Sample.no_xydata <> Err MalformedFormatError
  /\ MeltSpectra.init "runs/lys.csv" ["TITLE;melt"] (None : option float)
     <> Err MalformedFormatError.
Proof. repeat split; try reflexivity; discriminate. Qed.

(** ** Label alignment of [a - b] *)

Section Alignment.
Context {F : Type} `{Number F}.
Implicit Types (a b s : @Series F).

Lemma sub_series_cons_cons la x a lb y b :
  sub_series ((la, x) :: a) ((lb, y) :: b) =
  match Nat.compare la lb with
  | Eq => (la, fsub x y) :: sub_series a b
  | Lt => (la, fsub x nan) :: sub_series a ((lb, y) :: b)
  | Gt => (lb, fsub nan y) :: sub_series ((la, x) :: a) b
  end.
Proof. reflexivity. Qed.

Lemma sub_series_nil_r a :
  sub_series a [] = map (fun x => (fst x, fsub (snd x) nan)) a.
Proof. destruct a as [|[la x] a]; reflexivity. Qed.

Lemma at_label_cons k x s l :
  at_label l ((k, x) :: s) = if Nat.eqb k l then Some x else at_label l s.
Proof. reflexivity. Qed.

Lemma at_label_map (g : F -> F) s l :
  at_label l (map (fun x => (fst x, g (snd x))) s) = option_map g (at_label l s).
Proof.
  induction s as [|[k x] s IH]; simpl; auto.
  destruct (Nat.eqb k l); auto.
Qed.

Lemma at_label_below s l :
  Forall (fun k => (l < k)%nat) (index s) -> at_label l s = None.
Proof.
  induction s as [|[k x] s IH]; simpl; auto.
  intros Hall. inversion Hall; subst.
  destruct (Nat.eqb_spec k l); [lia|auto].
Qed.

Lemma increasing_tail l ls : increasing (l :: ls) -> increasing ls.
Proof. simpl. tauto. Qed.

Lemma at_label_head_below la x a l :
  increasing (index ((la, x) :: a)) -> (l < la)%nat ->
  at_label l ((la, x) :: a) = None.
Proof.
  intros [Hall _] Hlt. apply at_label_below. simpl. constructor; auto.
  eapply Forall_impl; [|exact Hall]. simpl. intros k Hk. lia.
Qed.

(** The cell of [a - b] at every label. *)
Lemma at_label_sub_series a :
  forall b l,
    increasing (index a) -> increasing (index b) ->
    at_label l (sub_series a b) = sub_cell (at_label l a) (at_label l b).
Proof.
  induction a as [|[la x] a IHa].
  - intros b l _ _. simpl sub_series.
    rewrite (at_label_map (fun y => fsub nan y)). simpl.
    now destruct (at_label l b).
  - induction b as [|[lb y] b IHb]; intros l Ha Hb.
    + rewrite sub_series_nil_r, (at_label_map (fun x => fsub x nan)).
      change (at_label l (@nil (nat * F))) with (@None F).
      now destruct (at_label l ((la, x) :: a)).
    + rewrite sub_series_cons_cons.
      destruct (Nat.compare_spec la lb) as [Eq|Lt|Gt].
      * subst lb. simpl. destruct (Nat.eqb la l); auto.
        apply IHa; eapply increasing_tail; eauto.
      * rewrite at_label_cons.
        destruct (Nat.eqb_spec la l) as [->|Hne].
        -- rewrite (at_label_head_below Hb Lt), at_label_cons, Nat.eqb_refl.
           reflexivity.
        -- rewrite (IHa _ l (increasing_tail Ha) Hb).
           rewrite (at_label_cons la). rewrite (proj2 (Nat.eqb_neq la l) Hne).
           reflexivity.
      * rewrite at_label_cons.
        destruct (Nat.eqb_spec lb l) as [->|Hne].
        -- rewrite (at_label_head_below Ha Gt), at_label_cons, Nat.eqb_refl.
           reflexivity.
        -- rewrite (IHb l Ha (increasing_tail Hb)).
           rewrite (at_label_cons lb). rewrite (proj2 (Nat.eqb_neq lb l) Hne).
           reflexivity.
Qed.

Lemma increasing_seq base n : increasing (seq base n).
Proof.
  revert base. induction n as [|n IH]; intros base; simpl; auto.
  split; auto. apply Forall_forall. intros k Hk. apply in_seq in Hk. lia.
Qed.

Lemma increasing_range_series (vals : list F) :
  increasing (index (range_series vals)).
Proof. rewrite index_range_series. apply increasing_seq. Qed.

(** A cell of a masked column parsed from rows: the value at that
    position, when the mask holds there. *)
Lemma at_label_boolean_index_range (vals : list F) :
  forall (cond : list bool) base l,
    at_label l (boolean_index cond (combine (seq base (List.length vals)) vals)) =
    if (base <=? l)%nat then
      match nth_error cond (l - base), nth_error vals (l - base) with
      | Some true, Some y => Some y
      | _, _ => None
      end
    else None.
Proof.
  unfold boolean_index.
  induction vals as [|v vals IH]; intros cond base l.
  - simpl. rewrite combine_nil. simpl.
    destruct (base <=? l)%nat; auto.
    destruct (nth_error cond (l - base)) as [[]|]; auto;
      now destruct (l - base)%nat.
  - destruct cond as [|c cond]; simpl.
    + destruct (base <=? l)%nat; auto. now destruct (l - base)%nat.
    + assert (Hrest := IH cond (S base) l).
      destruct c; simpl; rewrite Hrest; clear Hrest.
      * destruct (Nat.eqb_spec base l) as [->|Hne].
        -- rewrite Nat.leb_refl, Nat.sub_diag. reflexivity.
        -- destruct (Nat.leb_spec (S base) l), (Nat.leb_spec base l);
             try lia; auto.
           replace (l - base)%nat with (S (l - S base)) by lia. reflexivity.
      * destruct (Nat.leb_spec (S base) l), (Nat.leb_spec base l);
          try lia; auto.
        -- replace (l - base)%nat with (S (l - S base)) by lia. reflexivity.
        -- replace l with base by lia. now rewrite Nat.sub_diag.
Qed.

End Alignment.

(** ** The invariant of [cd_spectra] states *)

Section Invariant.
Context {F : Type} `{Number F} `{Pandas F}.
Implicit Types (a b s : @Series F).

Lemma deref_app_new (h : @Heap F) ext k :
  deref (h ++ ext) (List.length h + k) = nth k ext [].
Proof. unfold deref. apply app_nth2_plus. Qed.

Lemma deref_app_first (h : @Heap F) x ext :
  deref (h ++ x :: ext) (List.length h) = x.
Proof.
  rewrite <- (Nat.add_0_r (List.length h)). apply deref_app_new.
Qed.

Lemma increasing_firstn (ls : list nat) :
  forall n, increasing ls -> increasing (firstn n ls).
Proof.
  induction ls as [|l ls IH]; intros [|n]; simpl; auto.
  intros [Hall Hinc]. split; auto.
  apply Forall_forall. intros k Hk. rewrite Forall_forall in Hall.
  apply Hall. rewrite <- (firstn_skipn n ls). apply in_or_app. now left.
Qed.

Lemma index_iloc_upto k s : index (iloc_upto k s) = Py.upto k (index s).
Proof.
  unfold iloc_upto, Py.upto, index. rewrite length_map.
  destruct (k <? 0); now rewrite firstn_map.
Qed.

Lemma increasing_iloc_upto k s :
  increasing (index s) -> increasing (index (iloc_upto k s)).
Proof.
  intros Hs. rewrite index_iloc_upto. unfold Py.upto.
  destruct (k <? 0); now apply increasing_firstn.
Qed.

Lemma in_index_sub_series a :
  forall b l, In l (index (sub_series a b)) -> In l (index a) \/ In l (index b).
Proof.
  induction a as [|[la x] a IHa].
  - intros b l. simpl sub_series. unfold index. rewrite map_map. simpl. auto.
  - induction b as [|[lb y] b IHb]; intros l.
    + rewrite sub_series_nil_r. unfold index. rewrite map_map. simpl. auto.
    + rewrite sub_series_cons_cons.
      destruct (Nat.compare_spec la lb) as [Eq|Lt|Gt]; simpl.
      * intros [<-|Hin]; auto. destruct (IHa _ _ Hin); auto.
      * intros [<-|Hin]; auto. destruct (IHa _ _ Hin) as [|Hb]; auto.
      * intros [<-|Hin]; auto. destruct (IHb _ Hin) as [Ha|]; auto.
Qed.

Lemma increasing_index_cons l x s :
  Forall (fun k => (l < k)%nat) (index s) /\ increasing (index s) ->
  increasing (index ((l, x) :: s)).
Proof. intros Hs. exact Hs. Qed.

Lemma increasing_sub_series a :
  forall b, increasing (index a) -> increasing (index b) ->
            increasing (index (sub_series a b)).
Proof.
  induction a as [|[la x] a IHa].
  - intros b _ Hb. simpl sub_series. unfold index in *. now rewrite map_map.
  - induction b as [|[lb y] b IHb]; intros Ha Hb.
    + rewrite sub_series_nil_r. unfold index in *. now rewrite map_map.
    + rewrite sub_series_cons_cons.
      pose proof Ha as [HallA HincA]. pose proof Hb as [HallB HincB].
      rewrite Forall_forall in HallA, HallB. simpl in HallA, HallB.
      destruct (Nat.compare_spec la lb) as [Eq|Lt|Gt];
        apply increasing_index_cons; split.
      * subst lb. apply Forall_forall. intros k Hk.
        destruct (in_index_sub_series _ _ _ Hk); auto.
      * now apply IHa.
      * apply Forall_forall. intros k Hk.
        destruct (in_index_sub_series _ _ _ Hk) as [Hin|Hin]; auto.
        simpl in Hin. destruct Hin as [<-|Hin]; auto.
        specialize (HallB _ Hin). lia.
      * now apply IHa.
      * apply Forall_forall. intros k Hk.
        destruct (in_index_sub_series _ _ _ Hk) as [Hin|Hin]; auto.
        simpl in Hin. destruct Hin as [<-|Hin]; auto.
        specialize (HallA _ Hin). lia.
      * now apply IHb.
Qed.

Lemma increasing_boolean_index (cond : list bool) s :
  increasing (index s) -> increasing (index (boolean_index cond s)).
Proof.
  unfold boolean_index. revert cond.
  induction s as [|[l x] s IH]; intros cond Hs.
  - now rewrite combine_nil.
  - destruct cond as [|c cond]; simpl; auto.
    destruct Hs as [Hall Hinc]. specialize (IH cond Hinc).
    destruct c; simpl; auto. split; auto.
    apply Forall_forall. intros k Hk. rewrite Forall_forall in Hall.
    apply Hall. unfold index in Hk. rewrite map_map in Hk.
    apply in_map_iff in Hk as [[c [k' y]] [<- Hin]].
    apply filter_In in Hin as [Hin _]. apply in_combine_r in Hin.
    apply (in_map fst) in Hin. exact Hin.
Qed.

Lemma init_wf path f ht_max abs (st : CD.St F) :
  CD.init path f ht_max abs = Ok st -> CD.wf st.
Proof.
  intros Hinit.
  destruct (init_columns _ _ _ _ Hinit)
    as (rows & [Hw [kw Hwk]] & [He [k Hek]] & _ & Rw & Re & _).
  unfold CD.wf. rewrite Rw, Re. unfold CD.ellipticity_of, CD.wavelength_of.
  rewrite Hek, Hwk.
  repeat split; auto using increasing_range_series.
  unfold CD.init in Hinit. bind_ok Hinit.
  inversion Hinit; subst; clear Hinit. simpl. destruct abs; auto.
Qed.

End Invariant.

(** ** [baseline] *)

Section Baseline.
Context {F : Type} `{Number F} `{Pandas F}.

(** The state [baseline] leaves when the blank parses: three series
    objects are added for the columns of the blank (four with the
    absorbance), then the masked wavelengths, then the difference. *)
Lemma baseline_parsed (st : CD.St F) (f : File) (rows : list (list F)) :
  CD.wf st ->
  CD.corrected (self st) = false ->
  CD.read_blank (CD.cols (self st)) f = Ok rows ->
  let lo := if CD.filtered (self st) then CD.wv_cutoff (self st)
            else CD.wv_min (self st) in
  let bw := range_series (map (fun r => nth 0 r nan) rows) in
  let bc := range_series (map (fun r => nth 1 r nan) rows) in
  let cond := map (CD.in_range lo (CD.wv_max (self st))) (values bw) in
  let out := CD.baseline f st in
  fst out = Ok tt
  /\ CD.corrected (self (snd out)) = true
  /\ CD.wavelength_of (snd out) = boolean_index cond bw
  /\ CD.ellipticity_of (snd out) =
     sub_series (CD.ellipticity_of st) (boolean_index cond bc).
Proof.
  intros (Hcols & _ & _ & He & _ & _ & _) Hc Hparse. cbv zeta.
  unfold CD.baseline. rewrite Hc, Hparse. cbn [negb].
  unfold CD.ellipticity_of, CD.wavelength_of.
  destruct Hcols as [-> | ->]; simpl;
    rewrite <- !app_assoc; simpl;
    rewrite !length_app; simpl.
  all: repeat first [ rewrite deref_app_first
                    | rewrite deref_app_new; cbn [nth]
                    | rewrite (deref_app_old (heap st) _ He) ].
  all: auto.
Qed.

(** C3.  On a record not yet corrected, with a blank that parses,
    [baseline] returns, sets [corrected], binds [wavelength] to the
    wavelengths [w] of the blank with [lo <= w] and [w <= wv_max], under
    the labels of their rows, where [lo] is [wv_cutoff] on a filtered
    record and [wv_min] otherwise, and binds [ellipticity] to the
    difference aligned on positions: at every label [i] that the signal
    holds and whose blank wavelength lies in the range, the new sample is
    the old one minus the blank's CD at row [i].  At every other label the
    cell is [sub_cell] of the two sides: NaN where one side only holds the
    label, nothing where neither does. *)
Theorem baseline_subtracts_blank
    (st : CD.St F) (f : File) (rows : list (list F)) :
  CD.wf st ->
  CD.corrected (self st) = false ->
  CD.read_blank (CD.cols (self st)) f = Ok rows ->
  let lo := if CD.filtered (self st) then CD.wv_cutoff (self st)
            else CD.wv_min (self st) in
  let hi := CD.wv_max (self st) in
  let bw := map (fun r => nth 0 r nan) rows in
  let bc := map (fun r => nth 1 r nan) rows in
  let within w := fleb lo w && fleb w hi in
  let kept i :=
    match nth_error bw i with
    | Some w => within w
    | None => false
    end in
  let out := CD.baseline f st in
  fst out = Ok tt
  /\ CD.corrected (self (snd out)) = true
  /\ CD.wavelength_of (snd out) =
     filter (fun x => within (snd x)) (combine (seq 0 (List.length bw)) bw)
  /\ (forall i x w y,
         at_label i (CD.ellipticity_of st) = Some x ->
         nth_error bw i = Some w ->
         fleb lo w = true -> fleb w hi = true ->
         nth_error bc i = Some y ->
         at_label i (CD.ellipticity_of (snd out)) = Some (fsub x y))
  /\ (forall i,
         at_label i (CD.ellipticity_of (snd out)) =
         sub_cell (at_label i (CD.ellipticity_of st))
           (if kept i then nth_error bc i else None)).
Proof.
  intros Hwf Hc Hparse. cbv zeta.
  destruct (baseline_parsed f Hwf Hc Hparse) as (R & C & W & E).
  cbv zeta in W, E. rewrite values_range_series in W, E.
  unfold CD.in_range in W, E.
  assert (Cell : forall i,
             at_label i (CD.ellipticity_of (snd (CD.baseline f st))) =
             sub_cell (at_label i (CD.ellipticity_of st))
               (if match nth_error (map (fun r => nth 0 r nan) rows) i with
                   | Some w =>
                       fleb
                         (if CD.filtered (self st) then CD.wv_cutoff (self st)
                          else CD.wv_min (self st)) w
                       && fleb w (CD.wv_max (self st))
                   | None => false
                   end
                then nth_error (map (fun r => nth 1 r nan) rows) i else None)).
  { intros i. rewrite E. rewrite at_label_sub_series.
    - f_equal. unfold range_series.
      rewrite at_label_boolean_index_range. simpl. rewrite Nat.sub_0_r.
      rewrite nth_error_map.
      destruct (nth_error (map (fun r => nth 0 r nan) rows) i) as [w|]; simpl; auto.
      destruct (fleb _ w && fleb w _); auto.
      now destruct (nth_error (map (fun r => nth 1 r nan) rows) i).
    - apply (proj1 (proj2 (proj2 (proj2 (proj2 (proj2 Hwf)))))).
    - apply increasing_boolean_index, increasing_range_series. }
  repeat split; auto.
  - rewrite W. rewrite <- boolean_index_map. f_equal.
    rewrite <- (values_range_series (map (fun r => nth 0 r nan) rows)) at 1.
    unfold values. now rewrite map_map.
  - intros i x w y Hx Hw Hlo Hhi Hy.
    rewrite Cell, Hx, Hw, Hlo, Hhi, Hy. reflexivity.
Qed.

End Baseline.

Example baseline_lys_buffer :
  values (CD.ellipticity_of Sample.lys_corrected) =
  [1%float; 2.25%float; (-3.5)%float; 3%float]
  /\ values (CD.wavelength_of Sample.lys_corrected) =
     [260%float; 259%float; 258%float; 257%float]
  /\ values (CD.ellipticity_of
               (snd (CD.baseline Sample.buffer (snd (CD.ht_filter Sample.lys_state)))))
     = [1%float; 2.25%float].
Proof. repeat split. Qed.

(** ** Every call keeps the invariant and the raw series *)

(** A state with the same heap and raw attributes. *)
Ltac same_heap :=
  split; [exists []; simpl; now rewrite app_nil_r|simpl; auto].

Section Preservation.
Context {F : Type} `{Number F} `{Pandas F}.
Import Pipeline.

Lemma cd_grows_refl (st : CD.St F) : cd_grows st st.
Proof. split; [exists []; now rewrite app_nil_r|auto]. Qed.

Lemma cd_grows_print msg (st : CD.St F) : cd_grows st (print msg st).
Proof. split; [exists []; simpl; now rewrite app_nil_r|auto]. Qed.

Lemma cd_grows_trans (st1 st2 st3 : CD.St F) :
  cd_grows st1 st2 -> cd_grows st2 st3 -> cd_grows st1 st3.
Proof.
  intros ([e1 H1] & A1 & B1) ([e2 H2] & A2 & B2). split.
  - exists (e1 ++ e2). now rewrite H2, H1, app_assoc.
  - split; congruence.
Qed.

Lemma ht_filter_keeps (st : CD.St F) :
  CD.wf st -> CD.wf (snd (CD.ht_filter st)) /\ cd_grows st (snd (CD.ht_filter st)).
Proof.
  intros Hwf. pose proof Hwf as (Hcols & Her & Hwr & He & Hw & Hinc & Hincw).
  unfold CD.ht_filter. destruct (CD.filtered (self st)); simpl.
  - split; [exact Hwf|apply cd_grows_print].
  - split.
    + unfold CD.wf, CD.ellipticity_of, CD.wavelength_of. simpl.
      rewrite !length_app. simpl. rewrite <- app_assoc. simpl.
      repeat first [ rewrite deref_app_first
                   | rewrite deref_app_new; cbn [nth]
                   | rewrite (deref_app_old (heap st) _ Hw) ].
      repeat split; auto; try lia; now apply increasing_iloc_upto.
    + split; [|auto]. rewrite <- app_assoc. eexists. reflexivity.
Qed.

Lemma mre_keeps c aa pl (st : CD.St F) :
  CD.wf st ->
  CD.wf (snd (CD.mre c aa pl st)) /\ cd_grows st (snd (CD.mre c aa pl st)).
Proof.
  intros (Hcols & Her & Hwr & He & Hw & Hinc & Hincw).
  unfold CD.mre. simpl. split.
  - unfold CD.wf, CD.ellipticity_of, CD.wavelength_of. simpl.
    rewrite !length_app. simpl.
    rewrite deref_snoc, index_div_scalar, (deref_app_old _ _ Hw).
    repeat split; auto; lia.
  - split; [|auto]. eexists. reflexivity.
Qed.

Lemma smooth_keeps wdw polyorder (st : CD.St F) :
  CD.wf st ->
  CD.wf (snd (CD.smooth wdw polyorder st))
  /\ cd_grows st (snd (CD.smooth wdw polyorder st)).
Proof.
  intros Hwf. unfold CD.smooth.
  destruct (savgol_filter _ wdw polyorder); simpl;
    (split; [exact Hwf|same_heap]).
Qed.

Lemma integrate_keeps lower upper (st : CD.St F) :
  CD.wf st ->
  CD.wf (snd (CD.integrate lower upper st))
  /\ cd_grows st (snd (CD.integrate lower upper st)).
Proof.
  intros Hwf. unfold CD.integrate.
  match goal with |- context [match ?r with Ok _ => _ | Err _ => _ end] =>
    destruct r end; simpl; (split; [exact Hwf|same_heap]).
Qed.

Lemma baseline_keeps f (st : CD.St F) :
  CD.wf st ->
  CD.wf (snd (CD.baseline f st)) /\ cd_grows st (snd (CD.baseline f st)).
Proof.
  intros Hwf. pose proof Hwf as (Hcols & Her & Hwr & He & Hw & Hinc & Hincw).
  destruct (CD.corrected (self st)) eqn:Hc.
  - unfold CD.baseline. rewrite Hc. simpl.
    split; [exact Hwf|apply cd_grows_print].
  - destruct (CD.read_blank (CD.cols (self st)) f) as [rows|e] eqn:Hparse.
    + destruct (baseline_parsed f Hwf Hc Hparse) as (_ & _ & W & E).
      cbv zeta in W, E. revert W E.
      unfold CD.baseline. rewrite Hc, Hparse. cbn [negb].
      unfold CD.wf, cd_grows, CD.ellipticity_of, CD.wavelength_of.
      destruct Hcols as [Hcols | Hcols]; rewrite Hcols; simpl;
        rewrite <- !app_assoc; simpl; rewrite !length_app; simpl;
        intros -> ->.
      all: split; [|split; [eexists; reflexivity|auto]].
      all: repeat split; auto; try lia.
      all: try (apply increasing_sub_series; auto).
      all: apply increasing_boolean_index, increasing_range_series.
    + unfold CD.baseline. rewrite Hc, Hparse. simpl.
      split; [exact Hwf|apply cd_grows_refl].
Qed.

Lemma cd_step_keeps (c : cd_call) (st : CD.St F) :
  CD.wf st -> CD.wf (snd (cd_step c st)) /\ cd_grows st (snd (cd_step c st)).
Proof.
  destruct c; simpl.
  - apply ht_filter_keeps.
  - apply baseline_keeps.
  - apply smooth_keeps.
  - apply mre_keeps.
  - apply integrate_keeps.
Qed.

Lemma cd_run_keeps (cs : list cd_call) :
  forall st : CD.St F,
    CD.wf st -> CD.wf (cd_run cs st) /\ cd_grows st (cd_run cs st).
Proof.
  induction cs as [|c cs IH]; intros st Hwf; simpl.
  - split; [exact Hwf|apply cd_grows_refl].
  - destruct (cd_step_keeps c Hwf) as [Hwf1 Hg1].
    destruct (IH _ Hwf1) as [Hwf2 Hg2].
    split; [exact Hwf2|eapply cd_grows_trans; eauto].
Qed.

End Preservation.

Section AbsPreservation.
Context {F : Type} `{Number F} `{Pandas F}.
Import Pipeline.

Lemma abs_minus_at_raises v (st : Abs.St F) :
  Abs.abs_minus_at v st = Err AttributeError.
Proof. reflexivity. Qed.

Lemma abs_init_columns path f (st : Abs.St F) :
  Abs.init path f = Ok st ->
  Abs.wf st
  /\ Abs.abs_raw (self st) = Abs.abs (self st)
  /\ column (Abs.data (self st)) "Abs [UA]" = Ok (Abs.abs_raw (self st)).
Proof.
  intros Hinit. unfold Abs.init in Hinit. bind_ok Hinit.
  inversion Hinit; subst; clear Hinit.
  unfold Abs.wf, Abs.wavelength_of. simpl.
  repeat split; auto; try lia.
  match goal with
  | |- increasing (index (deref (?s :: _) 0)) => change (deref _ 0) with s
  end.
  apply increasing_range_series.
Qed.

Lemma abs_grows_refl (st : Abs.St F) : abs_grows st st.
Proof. same_heap. Qed.

Lemma abs_grows_trans (st1 st2 st3 : Abs.St F) :
  abs_grows st1 st2 -> abs_grows st2 st3 -> abs_grows st1 st3.
Proof.
  intros ([e1 H1] & A1) ([e2 H2] & A2). split.
  - exists (e1 ++ e2). now rewrite H2, H1, app_assoc.
  - congruence.
Qed.

Lemma abs_step_keeps (c : abs_call) (st : Abs.St F) :
  Abs.wf st ->
  Abs.wf (snd (abs_step c st)) /\ abs_grows st (snd (abs_step c st)).
Proof.
  intros Hwf. destruct c as [p nm|wdw polyorder|wv e pl|lo up]; simpl.
  - unfold Abs.baseline.
    destruct (Abs.no_path p); [destruct (Abs.corrected (self st))|]; simpl;
      try (destruct (Abs.no_number nm); simpl;
           try rewrite abs_minus_at_raises; simpl);
      (split; [exact Hwf|same_heap]).
  - unfold Abs.smooth.
    destruct (savgol_filter _ wdw polyorder); simpl;
      (split; [exact Hwf|same_heap]).
  - split; [exact Hwf|same_heap].
  - unfold Abs.integrate.
    match goal with |- context [match ?r with Ok _ => _ | Err _ => _ end] =>
      destruct r end; simpl; (split; [exact Hwf|same_heap]).
Qed.

Lemma abs_run_keeps (cs : list abs_call) :
  forall st : Abs.St F,
    Abs.wf st -> Abs.wf (abs_run cs st) /\ abs_grows st (abs_run cs st).
Proof.
  induction cs as [|c cs IH]; intros st Hwf; simpl.
  - split; [exact Hwf|apply abs_grows_refl].
  - destruct (abs_step_keeps c Hwf) as [Hwf1 Hg1].
    destruct (IH _ Hwf1) as [Hwf2 Hg2].
    split; [exact Hwf2|eapply abs_grows_trans; eauto].
Qed.

(** The raw series of a fresh record are the first two fields of the rows
    [read_csv] returned for the data section. *)
Lemma init_parsed path f ht_max abs (st : CD.St F) :
  CD.init path f ht_max abs = Ok st ->
  exists start end_ rows,
    read_table f (CD.cols (self st)) (start - 1) (end_ - start) = Ok rows
    /\ CD.wavelength_raw_of st = range_series (map (fun r => nth 0 r nan) rows)
    /\ CD.ellipticity_raw_of st = range_series (map (fun r => nth 1 r nan) rows).
Proof.
  intros Hinit. unfold CD.init in Hinit. bind_ok Hinit.
  inversion Hinit; subst; clear Hinit.
  unfold CD.wavelength_raw_of, CD.ellipticity_raw_of. simpl.
  match goal with
  | E : read_table _ _ (?s - 1) (?e - ?s) = Ok ?rows |- _ =>
      exists s, e, rows; split; [exact E|]
  end.
  destruct abs; simpl in *;
    repeat match goal with
           | E : (_, _) = (_, _) |- _ => inversion E; subst; clear E
           | E : column _ _ = Ok _ |- _ =>
               vm_compute in E; inversion E; subst; clear E
           end; split; reflexivity.
Qed.

Lemma abs_init_parsed path f (st : Abs.St F) :
  Abs.init path f = Ok st ->
  exists start end_ rows,
    read_table f (Abs.cols (self st)) (start - 1) (end_ - start) = Ok rows
    /\ Abs.abs_raw_of st = range_series (map (fun r => nth 1 r nan) rows).
Proof.
  intros Hinit. unfold Abs.init in Hinit. bind_ok Hinit.
  inversion Hinit; subst; clear Hinit.
  unfold Abs.abs_raw_of. simpl.
  match goal with
  | E : read_table _ _ (?s - 1) (?e - ?s) = Ok ?rows |- _ =>
      exists s, e, rows; split; [exact E|reflexivity]
  end.
Qed.

(** C10.  On a record the constructor returned, the raw attributes are
    bound to the very column objects of the parsed frame [data], which the
    current attributes alias; after any sequence of calls of the methods,
    failed ones included, the raw attributes refer to the same objects and
    these hold the same series, the columns of the rows [read_csv]
    returned for the data section.  So for [cd_spectra] and
    [abs_spectra]. *)
Theorem raw_series_survive_calls :
  (forall path f ht_max abs (st : CD.St F) (cs : list cd_call),
      CD.init path f ht_max abs = Ok st ->
      let st' := cd_run cs st in
      (CD.ellipticity_raw (self st) = CD.ellipticity (self st)
       /\ CD.wavelength_raw (self st) = CD.wavelength (self st)
       /\ column (CD.data (self st)) "CD [mdeg]"
          = Ok (CD.ellipticity_raw (self st))
       /\ column (CD.data (self st)) "Wavelength [nm]"
          = Ok (CD.wavelength_raw (self st)))
      /\ CD.ellipticity_raw (self st') = CD.ellipticity_raw (self st)
      /\ CD.wavelength_raw (self st') = CD.wavelength_raw (self st)
      /\ CD.ellipticity_raw_of st' = CD.ellipticity_raw_of st
      /\ CD.wavelength_raw_of st' = CD.wavelength_raw_of st
      /\ exists start end_ rows,
          read_table f (CD.cols (self st)) (start - 1) (end_ - start) = Ok rows
          /\ CD.wavelength_raw_of st' =
             range_series (map (fun r => nth 0 r nan) rows)
          /\ CD.ellipticity_raw_of st' =
             range_series (map (fun r => nth 1 r nan) rows))
  /\ (forall path f (st : Abs.St F) (cs : list abs_call),
         Abs.init path f = Ok st ->
         let st' := abs_run cs st in
         (Abs.abs_raw (self st) = Abs.abs (self st)
          /\ column (Abs.data (self st)) "Abs [UA]" = Ok (Abs.abs_raw (self st)))
         /\ Abs.abs_raw (self st') = Abs.abs_raw (self st)
         /\ Abs.abs_raw_of st' = Abs.abs_raw_of st
         /\ exists start end_ rows,
             read_table f (Abs.cols (self st)) (start - 1) (end_ - start)
             = Ok rows
             /\ Abs.abs_raw_of st' =
                range_series (map (fun r => nth 1 r nan) rows)).
Proof.
  split.
  - intros path f ht_max abs st cs Hinit. cbv zeta.
    destruct (init_columns _ _ _ _ Hinit)
      as (rows & _ & _ & _ & Rw & Re & Cw & Ce & _).
    pose proof (init_wf _ _ _ _ Hinit) as Hwf.
    destruct (cd_run_keeps cs Hwf) as [_ ([ext Hext] & Er & Wr)].
    destruct Hwf as (_ & Her & Hwr & _).
    assert (Se : CD.ellipticity_raw_of (cd_run cs st) = CD.ellipticity_raw_of st).
    { unfold CD.ellipticity_raw_of. now rewrite Er, Hext, deref_app_old. }
    assert (Sw : CD.wavelength_raw_of (cd_run cs st) = CD.wavelength_raw_of st).
    { unfold CD.wavelength_raw_of. now rewrite Wr, Hext, deref_app_old. }
    split; [rewrite Re, Rw; auto|].
    repeat (split; [assumption|]).
    destruct (init_parsed _ _ _ _ Hinit) as (s0 & e0 & rs & Hr & Pw & Pe).
    exists s0, e0, rs. rewrite Se, Sw. auto.
  - intros path f st cs Hinit. cbv zeta.
    destruct (abs_init_columns _ _ Hinit) as (Hwf & Ra & Ca).
    destruct (abs_run_keeps cs Hwf) as [_ ([ext Hext] & Er)].
    destruct Hwf as (Har & _).
    assert (Sa : Abs.abs_raw_of (abs_run cs st) = Abs.abs_raw_of st).
    { unfold Abs.abs_raw_of. now rewrite Er, Hext, deref_app_old. }
    split; [auto|]. repeat (split; [assumption|]).
    destruct (abs_init_parsed _ _ Hinit) as (s0 & e0 & rs & Hr & Pa).
    exists s0, e0, rs. rewrite Sa. auto.
Qed.

End AbsPreservation.

Lemma raw_series_survive_calls_witness :
  CD.init "runs/lys.csv" Sample.lys None false = Ok Sample.lys_state
  /\ CD.ellipticity_raw_of
       (Pipeline.cd_run
          [Pipeline.cd_ht_filter; Pipeline.cd_baseline Sample.buffer;
           Pipeline.cd_mre 0.25%float (Some 129%float) None;
           Pipeline.cd_smooth 3 1; Pipeline.cd_integrate 259%float 260%float]
          Sample.lys_state)
     = CD.ellipticity_raw_of Sample.lys_state.
Proof.
  assert (E : CD.init "runs/lys.csv" Sample.lys None false = Ok Sample.lys_state)
    by reflexivity.
  split; [exact E|].
  exact (proj1 (proj2 (proj2 (proj2
           (proj1 raw_series_survive_calls _ _ _ _ _ _ E))))).
Defined.

(** ** [integrate] on the melt-spectra record *)

Section MeltIntegrate.
Context {F : Type} `{Number F} `{Pandas F}.

Lemma pick_map_rows {A : Type} (p : A -> bool) (rows : list A) :
  forall xs : list F,
    MeltSpectra.pick (map p rows) xs =
    map snd (filter (fun r => p (fst r)) (combine rows xs)).
Proof.
  unfold MeltSpectra.pick.
  induction rows as [|r rows IH]; intros [|x xs]; simpl; auto.
  destruct (p r); simpl; now rewrite IH.
Qed.

Lemma melt_init_wf path f ht_max (st : MeltSpectra.St F) :
  MeltSpectra.init path f ht_max = Ok st ->
  MeltSpectra.wf st /\ MeltSpectra.mre_transformation (self st) = false.
Proof.
  intros Hinit. unfold MeltSpectra.init in Hinit. bind_ok Hinit.
  inversion Hinit; subst; clear Hinit.
  unfold MeltSpectra.wf. simpl. split; [discriminate|reflexivity].
Qed.

Lemma melt_mre_wf c aa pl (st : MeltSpectra.St F) :
  MeltSpectra.wf (snd (MeltSpectra.mre c aa pl st)).
Proof. unfold MeltSpectra.wf. simpl. discriminate. Qed.

Lemma melt_smooth_wf wdw polyorder (st : MeltSpectra.St F) :
  MeltSpectra.wf st -> MeltSpectra.wf (snd (MeltSpectra.smooth wdw polyorder st)).
Proof.
  intros Hwf. unfold MeltSpectra.smooth.
  match goal with |- context [match ?r with Ok _ => _ | Err _ => _ end] =>
    destruct r end; simpl; exact Hwf.
Qed.

Lemma melt_integrate_wf lower upper (st : MeltSpectra.St F) :
  MeltSpectra.wf st -> MeltSpectra.wf (snd (MeltSpectra.integrate lower upper st)).
Proof.
  intros Hwf. unfold MeltSpectra.integrate.
  destruct (MeltSpectra.temperatures (self st)); simpl; [exact Hwf|].
  destruct (MeltSpectra.active (self st)); simpl; exact Hwf.
Qed.

Lemma melt_integrate_active (lower upper : F) (st : MeltSpectra.St F)
    (c : list F) :
  MeltSpectra.active (self st) = Ok c ->
  fst (MeltSpectra.integrate lower upper st) = Ok tt
  /\ MeltSpectra.integrals (self (snd (MeltSpectra.integrate lower upper st)))
     = Some (map (fun t =>
                    fmul (MeltSpectra.wv_delta (self st))
                      (fsum
                         (map (fun x => if isnan x then of_int 0 else x)
                            (map snd
                               (filter
                                  (fun r : F * string * F =>
                                     String.eqb (snd (fst r)) t
                                     && fleb (fst (fst r)) upper
                                     && fleb lower (fst (fst r)))
                                  (combine
                                     (combine
                                        (MeltSpectra.Wavelength
                                           (MeltSpectra.data (self st)))
                                        (MeltSpectra.Temperature
                                           (MeltSpectra.data (self st))))
                                     c))))))
               (MeltSpectra.temperatures (self st))).
Proof.
  intros Hact. unfold MeltSpectra.integrate.
  destruct (MeltSpectra.temperatures (self st)) as [|t0 ts] eqn:Ets.
  - simpl. auto.
  - rewrite Hact. cbn [fst snd self MeltSpectra.integrals].
    split; [reflexivity|]. f_equal. apply map_ext. intros t.
    unfold sum_skipna, zero_filled, MeltSpectra.window.
    now rewrite pick_map_rows.
Qed.

(** C9.  On a melt-spectra record, [integrate(lower, upper)] returns and
    binds [integrals] to a list with one entry per label of
    [temperatures], in that order: the entry for label [t] is [wv_delta]
    times the sum, NaN counting as 0, of the active column over the rows
    whose temperature is [t] and whose wavelength [w] has
    [lower <= w <= upper].  The active column is [CD_filtered] as long as
    [mre_transformation] is unset and [CD_mre] once it is set; after
    [mre(c, aa_number, pathlength)] it holds the quotients of
    [CD_filtered] by [10 * c * aa_number * pathlength], which are then
    what [integrate] sums. *)
Theorem melt_integrate_per_temperature
    (lower upper : F) (st : MeltSpectra.St F) :
  MeltSpectra.wf st ->
  let s := self st in
  let d := MeltSpectra.data s in
  let in_window (t : string) (r : F * string * F) :=
    String.eqb (snd (fst r)) t && fleb (fst (fst r)) upper
    && fleb lower (fst (fst r)) in
  let sum_in (t : string) (column : list F) :=
    fsum
      (map (fun x => if isnan x then of_int 0 else x)
         (map snd
            (filter (in_window t)
               (combine
                  (combine (MeltSpectra.Wavelength d) (MeltSpectra.Temperature d))
                  column)))) in
  let per_temperature (column : list F) :=
    map (fun t => fmul (MeltSpectra.wv_delta s) (sum_in t column))
      (MeltSpectra.temperatures s) in
  (let out := MeltSpectra.integrate lower upper st in
   fst out = Ok tt
   /\ exists ints,
       MeltSpectra.integrals (self (snd out)) = Some ints
       /\ List.length ints = List.length (MeltSpectra.temperatures s)
       /\ (forall k t,
              nth_error (MeltSpectra.temperatures s) k = Some t ->
              exists column,
                (if MeltSpectra.mre_transformation s
                 then MeltSpectra.CD_mre d = Some column
                 else MeltSpectra.CD_filtered d = column)
                /\ nth_error ints k
                   = Some (fmul (MeltSpectra.wv_delta s) (sum_in t column)))
       /\ (MeltSpectra.mre_transformation s = false ->
           ints = per_temperature (MeltSpectra.CD_filtered d)))
  /\ (forall (c : F) (aa_number pathlength : option F),
        let aa := match aa_number with Some v => v | None => of_int 1 end in
        let pl := match pathlength with Some v => v | None => of_int 1 end in
        let dv := fmul (fmul (fmul (of_int 10) c) aa) pl in
        let out :=
          MeltSpectra.integrate lower upper
            (snd (MeltSpectra.mre c aa_number pathlength st)) in
        fst out = Ok tt
        /\ MeltSpectra.integrals (self (snd out))
           = Some (per_temperature
                     (map (fun x => fdiv x dv) (MeltSpectra.CD_filtered d)))).
Proof.
  intros Hwf. cbv zeta. split.
  - assert (Hact : exists c,
               MeltSpectra.active (self st) = Ok c
               /\ (if MeltSpectra.mre_transformation (self st)
                   then MeltSpectra.CD_mre (MeltSpectra.data (self st)) = Some c
                   else MeltSpectra.CD_filtered (MeltSpectra.data (self st)) = c)).
    { unfold MeltSpectra.active.
      destruct (MeltSpectra.mre_transformation (self st)) eqn:Em;
        [|eexists; split; reflexivity].
      destruct (MeltSpectra.CD_mre (MeltSpectra.data (self st))) as [l|] eqn:Ec;
        [exists l; split; reflexivity|].
      exfalso. exact (Hwf Em Ec). }
    destruct Hact as (c & Hact & Hc).
    destruct (melt_integrate_active lower upper st Hact) as [R I].
    split; [exact R|]. eexists. split; [exact I|]. split; [|split].
    + now rewrite length_map.
    + intros k t Hk. exists c. split; [exact Hc|].
      rewrite nth_error_map, Hk. reflexivity.
    + intros Em. rewrite Em in Hc. now subst c.
  - intros c aa_number pathlength.
    apply (melt_integrate_active lower upper
             (snd (MeltSpectra.mre c aa_number pathlength st))).
    reflexivity.
Qed.

End MeltIntegrate.

Lemma melt_integrate_witness :
  MeltSpectra.wf Sample.melt_state
  /\ MeltSpectra.integrals
       (self (snd (MeltSpectra.integrate 259%float 260%float Sample.melt_state)))
     = Some [fmul 1%float (fsum [2.5%float; 0%float]);
             fmul 1%float (fsum [7.5%float; 10%float])]
  /\ MeltSpectra.integrals
       (self (snd (MeltSpectra.integrate 259%float 260%float
                     (snd (MeltSpectra.mre 0.25%float None None
                             Sample.melt_state)))))
     = Some [fmul 1%float (fsum [fdiv 2.5%float 2.5%float; 0%float]);
             fmul 1%float
               (fsum [fdiv 7.5%float 2.5%float; fdiv 10%float 2.5%float])].
Proof.
  assert (Hwf : MeltSpectra.wf Sample.melt_state).
  { apply (melt_init_wf "runs/melt.csv" Sample.melt None). reflexivity. }
  split; [exact Hwf|].
  destruct (melt_integrate_per_temperature 259%float 260%float Hwf)
    as [(_ & ints & Hints & _ & _ & Hplain) Hmre].
  split.
  - rewrite Hints, (Hplain eq_refl). reflexivity.
  - rewrite (proj2 (Hmre 0.25%float None None)). reflexivity.
Defined.

Example melt_integrals :
  MeltSpectra.integrals
    (self (snd (MeltSpectra.integrate 259%float 260%float Sample.melt_state)))
  = Some [2.5%float; 17.5%float]
  /\ MeltSpectra.integrals
       (self (snd (MeltSpectra.integrate 259%float 260%float
                     (snd (MeltSpectra.mre 0.25%float None None
                             Sample.melt_state)))))
     = Some [1%float; 7%float].
Proof. split; reflexivity. Qed.

Lemma baseline_subtracts_blank_witness :
  CD.wf (snd (CD.ht_filter Sample.lys_state))
  /\ CD.wavelength_of
       (snd (CD.baseline Sample.buffer (snd (CD.ht_filter Sample.lys_state))))
     = [(0%nat, 260%float); (1%nat, 259%float)]
  /\ at_label 1
       (CD.ellipticity_of
          (snd (CD.baseline Sample.buffer (snd (CD.ht_filter Sample.lys_state)))))
     = Some (fsub 2.5%float 0.25%float)
  /\ at_label 2
       (CD.ellipticity_of
          (snd (CD.baseline Sample.buffer (snd (CD.ht_filter Sample.lys_state)))))
     = None.
Proof.
  assert (Hwf : CD.wf (snd (CD.ht_filter Sample.lys_state))).
  { apply ht_filter_keeps.
    apply (init_wf "runs/lys.csv" Sample.lys None false). reflexivity. }
  split; [exact Hwf|].
  assert (Hc : CD.corrected (self (snd (CD.ht_filter Sample.lys_state))) = false)
    by reflexivity.
  assert (Hparse : CD.read_blank
                     (CD.cols (self (snd (CD.ht_filter Sample.lys_state))))
                     Sample.buffer = Ok Sample.buffer_rows)
    by reflexivity.
  destruct (baseline_subtracts_blank Sample.buffer Hwf Hc Hparse)
    as (_ & _ & W & Sub & Cell).
  split; [rewrite W; reflexivity|].
  split; [|rewrite (Cell 2%nat); reflexivity].
  apply (Sub 1%nat 2.5%float 259%float 0.25%float); reflexivity.
Defined.

Lemma integrate_descending_window_witness :
  CD.wf Sample.lys_state
  /\ CD.integral (self (snd (CD.integrate 258%float 260%float Sample.lys_state)))
     = Some (fmul 1%float (fsum [1.5%float; 2.5%float; (-3.25)%float])).
Proof.
  assert (Hwf : CD.wf Sample.lys_state).
  { apply (init_wf "runs/lys.csv" Sample.lys None false). reflexivity. }
  split; [exact Hwf|].
  assert (Hd : descending (values (CD.wavelength_of Sample.lys_state)) = true)
    by reflexivity.
  assert (Hlt : fltb 258%float 260%float = true) by reflexivity.
  assert (Hlo : present 258%float (CD.wavelength_of Sample.lys_state) = true)
    by reflexivity.
  assert (Hup : present 260%float (CD.wavelength_of Sample.lys_state) = true)
    by reflexivity.
  destruct (proj1 (integrate_descending_window 258%float 260%float)
              Sample.lys_state Hwf Hd Hlt Hlo Hup)
    as (iu & il & wu & wl & _ & Hu & Eu & Hl & El & _ & _ & Hint).
  cbv zeta in Hint. rewrite Hint. clear Hint.
  assert (Hiu : iu = 0%nat).
  { destruct iu as [|[|[|[|iu]]]];
      try reflexivity; simpl in Hu; inversion Hu; subst wu; discriminate Eu. }
  assert (Hil : il = 2%nat).
  { destruct il as [|[|[|[|il]]]];
      try reflexivity; simpl in Hl; inversion Hl; subst wl; discriminate El. }
  subst iu il. reflexivity.
Defined.

(** * Further properties of the classes *)

(** ** The scalars a constructor derives *)

Section Scalars.
Context {F : Type} `{Number F} `{Pandas F}.
Implicit Types (s : @Series F).

Lemma iloc_last s x :
  iloc s (-1) = Ok x ->
  (0 < List.length s)%nat /\ nth_error (values s) (List.length s - 1) = Some x.
Proof.
  unfold iloc, Py.getitem. simpl.
  destruct (0 <=? Z.of_nat (List.length s) + -1) eqn:E; simpl; [|discriminate].
  apply Z.leb_le in E.
  replace (Z.to_nat (Z.of_nat (List.length s) + -1))
    with (List.length s - 1)%nat by lia.
  destruct (nth_error s (List.length s - 1)) as [[l v]|] eqn:N; simpl;
    [|discriminate].
  intros Hx. inversion Hx; subst. split; [lia|].
  unfold values. now rewrite nth_error_map, N.
Qed.

Lemma iloc_at s (i : nat) x :
  iloc s (Z.of_nat i) = Ok x -> nth_error (values s) i = Some x.
Proof.
  unfold iloc, Py.getitem.
  destruct ((0 <=? Z.of_nat i) && (Z.of_nat i <? Z.of_nat (List.length s))).
  - rewrite Nat2Z.id.
    destruct (nth_error s i) as [[l v]|] eqn:N; simpl; [|discriminate].
    intros Hx. inversion Hx; subst. unfold values. now rewrite nth_error_map, N.
  - destruct ((Z.of_nat i <? 0) && (0 <=? Z.of_nat (List.length s) + Z.of_nat i)) eqn:E;
      [|discriminate].
    apply andb_prop in E as [E _]. apply Z.ltb_lt in E. lia.
Qed.

Lemma init_scalars path f ht_max abs (st : CD.St F) :
  CD.init path f ht_max abs = Ok st ->
  iloc (CD.wavelength_of st) (-1) = Ok (CD.wv_min (self st))
  /\ iloc (CD.wavelength_of st) 0 = Ok (CD.wv_max (self st))
  /\ iloc (CD.wavelength_of st) (CD.idx_cutoff (self st))
     = Ok (CD.wv_cutoff (self st)).
Proof.
  intros Hinit. unfold CD.init in Hinit. bind_ok Hinit.
  inversion Hinit; subst; clear Hinit.
  unfold CD.wavelength_of. simpl. auto.
Qed.

(** X1.  A record a constructor returned has a non-empty domain, whose
    first sample is the recorded maximum and whose last sample is the
    recorded minimum: a file with an empty data section yields no record.
    So for the three one-dimensional classes. *)
Theorem constructed_domain_bounds
    (path : string) (f : File) (ht_max : option F) (abs : bool) :
  (forall st : CD.St F,
      CD.init path f ht_max abs = Ok st ->
      let wl := values (CD.wavelength_of st) in
      (0 < List.length wl)%nat
      /\ nth_error wl 0 = Some (CD.wv_max (self st))
      /\ nth_error wl (List.length wl - 1) = Some (CD.wv_min (self st)))
  /\ (forall st : Abs.St F,
         Abs.init path f = Ok st ->
         let wl := values (Abs.wavelength_of st) in
         (0 < List.length wl)%nat
         /\ nth_error wl 0 = Some (Abs.wv_max (self st))
         /\ nth_error wl (List.length wl - 1) = Some (Abs.wv_min (self st)))
  /\ (forall st : MeltCurve.St F,
         MeltCurve.init path f ht_max abs = Ok st ->
         let tp :=
           values (deref (heap st) (MeltCurve.temperatures (self st))) in
         (0 < List.length tp)%nat
         /\ nth_error tp 0 = Some (MeltCurve.temp_max (self st))
         /\ nth_error tp (List.length tp - 1)
            = Some (MeltCurve.temp_min (self st))).
Proof.
  assert (G : forall (s : @Series F) lo hi,
             iloc s (-1) = Ok lo -> iloc s 0 = Ok hi ->
             (0 < List.length (values s))%nat
             /\ nth_error (values s) 0 = Some hi
             /\ nth_error (values s) (List.length (values s) - 1) = Some lo).
  { intros s lo hi Hlo Hhi. destruct (iloc_last _ Hlo) as [Hn Hl].
    assert (Hlen : List.length (values s) = List.length s)
      by (unfold values; apply length_map).
    rewrite Hlen. repeat split; auto. exact (iloc_at s 0 Hhi). }
  split; [|split]; intros st Hinit; cbv zeta; apply G.
  - apply (init_scalars _ _ _ _ Hinit).
  - apply (init_scalars _ _ _ _ Hinit).
  - unfold Abs.init in Hinit. bind_ok Hinit.
    inversion Hinit; subst; clear Hinit. assumption.
  - unfold Abs.init in Hinit. bind_ok Hinit.
    inversion Hinit; subst; clear Hinit. assumption.
  - unfold MeltCurve.init in Hinit. bind_ok Hinit.
    inversion Hinit; subst; clear Hinit. assumption.
  - unfold MeltCurve.init in Hinit. bind_ok Hinit.
    inversion Hinit; subst; clear Hinit. assumption.
Qed.

End Scalars.

Lemma constructed_domain_bounds_witness :
  nth_error (values (CD.wavelength_of Sample.lys_state)) 0
  = Some (CD.wv_max (self Sample.lys_state))
  /\ nth_error
       (values (deref (heap Cases.curve_state)
                  (MeltCurve.temperatures (self Cases.curve_state)))) 0
     = Some (MeltCurve.temp_max (self Cases.curve_state)).
Proof.
  split.
  - apply (proj1 (constructed_domain_bounds "runs/lys.csv" Sample.lys
                    (None : option float) false) Sample.lys_state).
    reflexivity.
  - apply (proj2 (proj2 (constructed_domain_bounds "runs/curve.csv"
                           Cases.curve (None : option float) false))
             Cases.curve_state).
    reflexivity.
Defined.

(** ** The two ends of the cutoff *)

Section CutoffEdges.
Context {F : Type} `{Number F} `{Pandas F}.

Lemma first_above_all_below (limit : F) (hts : list F) :
  forall base,
    (forall y, In y hts -> fltb limit y = false) ->
    CD.first_above limit hts base = None.
Proof.
  induction hts as [|ht rest IH]; intros base Hall; simpl; auto.
  rewrite (Hall ht) by now left. apply IH. intros y Hy. apply Hall. now right.
Qed.

Lemma iloc_minus_one (s : @Series F) :
  iloc s (-1) = iloc s (Z.of_nat (List.length s) - 1).
Proof.
  unfold iloc, Py.getitem. simpl.
  destruct s as [|x s]; [reflexivity|].
  set (n := List.length (x :: s)).
  assert (Hn : (0 < n)%nat) by (unfold n; simpl; lia).
  replace (0 <=? Z.of_nat n + -1) with true by (symmetry; apply Z.leb_le; lia).
  replace ((0 <=? Z.of_nat n - 1) && (Z.of_nat n - 1 <? Z.of_nat n)) with true.
  - now replace (Z.of_nat n + -1) with (Z.of_nat n - 1) by lia.
  - symmetry. apply andb_true_intro. split; [apply Z.leb_le|apply Z.ltb_lt]; lia.
Qed.

(** X2.  When the first HT sample of the file is already above the
    threshold, the constructor sets [idx_cutoff] to -1 and, indexing from
    the end, takes the last wavelength as [wv_cutoff] (so it equals
    [wv_min]); [ht_filter] then leaves an empty signal and an empty
    domain. *)
Theorem first_sample_above_empties
    (path : string) (f : File) (ht_max : option F) (abs : bool)
    (st : CD.St F) (x : F) :
  CD.init path f ht_max abs = Ok st ->
  nth_error (values (CD.ht_of st)) 0 = Some x ->
  fltb (match ht_max with Some v => v | None => of_int 600 end) x = true ->
  CD.idx_cutoff (self st) = -1
  /\ CD.wv_cutoff (self st) = CD.wv_min (self st)
  /\ fst (CD.ht_filter st) = Ok tt
  /\ CD.ellipticity_of (snd (CD.ht_filter st)) = []
  /\ CD.wavelength_of (snd (CD.ht_filter st)) = [].
Proof.
  intros Hinit Hx Hlt.
  assert (Hcut : CD.idx_cutoff (self st) = -1).
  { rewrite (init_cutoff _ _ _ _ Hinit).
    destruct (values (CD.ht_of st)) as [|y hts]; [discriminate|].
    simpl in Hx. inversion Hx; subst y. simpl. now rewrite Hlt. }
  destruct (init_scalars _ _ _ _ Hinit) as (Hmin & _ & Hc).
  rewrite Hcut in Hc. rewrite Hmin in Hc.
  destruct (init_columns _ _ _ _ Hinit)
    as (rows & [Hw _] & _ & _ & _ & _ & _ & _ & Hf & _).
  destruct (ht_filter_truncates st Hf Hw) as (R & Ee & Ew & _).
  cbv zeta in Ee, Ew. rewrite Hcut in Ee, Ew.
  repeat split; auto; congruence.
Qed.

(** X3.  When no HT sample is above the threshold, [idx_cutoff] is the
    last position, [wv_cutoff] is [wv_min], and [ht_filter] rebinds
    [ellipticity] and [wavelength] to series equal to the ones they
    held. *)
Theorem no_sample_above_keeps_all
    (path : string) (f : File) (ht_max : option F) (abs : bool)
    (st : CD.St F) :
  CD.init path f ht_max abs = Ok st ->
  (forall y, In y (values (CD.ht_of st)) ->
             fltb (match ht_max with Some v => v | None => of_int 600 end) y
             = false) ->
  CD.idx_cutoff (self st) = Z.of_nat (List.length (CD.wavelength_of st)) - 1
  /\ CD.wv_cutoff (self st) = CD.wv_min (self st)
  /\ CD.ellipticity_of (snd (CD.ht_filter st)) = CD.ellipticity_of st
  /\ CD.wavelength_of (snd (CD.ht_filter st)) = CD.wavelength_of st
  /\ CD.filtered (self (snd (CD.ht_filter st))) = true.
Proof.
  intros Hinit Hall.
  assert (Hcut : CD.idx_cutoff (self st)
                 = Z.of_nat (List.length (CD.wavelength_of st)) - 1).
  { rewrite (init_cutoff _ _ _ _ Hinit).
    now rewrite (first_above_all_below _ _ 0 Hall). }
  destruct (init_scalars _ _ _ _ Hinit) as (Hmin & _ & Hc).
  rewrite Hcut, <- iloc_minus_one, Hmin in Hc.
  destruct (init_columns _ _ _ _ Hinit)
    as (rows & Hw & He & _ & _ & _ & _ & _ & Hf & _).
  pose proof (column_of_length Hw) as Lw.
  pose proof (column_of_length He) as Le.
  destruct Hw as [Hw _].
  destruct (ht_filter_truncates st Hf Hw) as (R & Ee & Ew & Fl).
  cbv zeta in Ee, Ew. rewrite Hcut in Ee, Ew. unfold iloc_upto, Py.upto in Ee, Ew.
  replace (Z.of_nat (List.length (CD.wavelength_of st)) - 1 + 1)
    with (Z.of_nat (List.length (CD.wavelength_of st))) in Ee, Ew by lia.
  destruct (Z.of_nat (List.length (CD.wavelength_of st)) <? 0) eqn:Neg;
    [apply Z.ltb_lt in Neg; lia|].
  rewrite Nat2Z.id in Ee, Ew.
  rewrite firstn_all in Ew.
  unfold CD.wavelength_of in Ee at 1. rewrite Lw, <- Le in Ee.
  fold (CD.ellipticity_of st) in Ee. rewrite firstn_all in Ee.
  repeat split; auto; congruence.
Qed.

End CutoffEdges.

Lemma first_sample_above_witness :
  CD.init "runs/hot.csv" Cases.hot None false = Ok Cases.hot_state
  /\ CD.idx_cutoff (self Cases.hot_state) = -1
  /\ CD.wv_cutoff (self Cases.hot_state) = CD.wv_min (self Cases.hot_state)
  /\ fst (CD.ht_filter Cases.hot_state) = Ok tt
  /\ CD.ellipticity_of (snd (CD.ht_filter Cases.hot_state)) = []
  /\ CD.wavelength_of (snd (CD.ht_filter Cases.hot_state)) = [].
Proof.
  assert (E : CD.init "runs/hot.csv" Cases.hot None false = Ok Cases.hot_state)
    by reflexivity.
  split; [exact E|].
  apply (first_sample_above_empties _ _ _ _ (x := 650%float) E); reflexivity.
Defined.

Lemma no_sample_above_witness :
  CD.init "runs/calm.csv" Cases.calm None false = Ok Cases.calm_state
  /\ CD.ellipticity_of (snd (CD.ht_filter Cases.calm_state))
     = CD.ellipticity_of Cases.calm_state.
Proof.
  assert (E : CD.init "runs/calm.csv" Cases.calm None false = Ok Cases.calm_state)
    by reflexivity.
  split; [exact E|].
  refine (proj1 (proj2 (proj2 (no_sample_above_keeps_all _ _ _ _ E _)))).
  intros y Hy. simpl in Hy.
  repeat (destruct Hy as [<-|Hy]; [reflexivity|]). destruct Hy.
Defined.

(** ** Where the scan puts the data section *)

Section Located.
Context {F : Type} `{Number F} `{Pandas F}.
Import Sentinel.





End Located.


(** ** A blank without its sentinels *)

Section BadBlank.
Context {F : Type} `{Number F} `{Pandas F}.
Import Sentinel.

Lemma scan_blank_returns rows :
  forall position sc, exists sc', scan_blank rows position sc = Ok sc'.
Proof.
  induction rows as [|line rest IH]; intros position sc; simpl; eauto.
  destruct (Py.mem XYDATA line); [apply IH|].
  destruct (Py.mem Extended line); eauto.
Qed.

Lemma scan_blank_end rows :
  forall position sc sc',
    scan_blank rows position sc = Ok sc' ->
    end_of sc = None -> end_of sc' <> None ->
    existsb (Py.mem Extended) rows = true.
Proof.
  induction rows as [|line rest IH]; intros position sc sc'; simpl.
  - intros Heq; inversion Heq; subst. congruence.
  - destruct (Py.mem XYDATA line).
    + intros Hs He Hn. rewrite (IH _ _ _ Hs); auto. apply orb_true_r.
    + destruct (Py.mem Extended line); [reflexivity|].
      intros Hs He Hn. simpl. eapply IH; eauto.
Qed.

Lemma scan_blank_both rows :
  forall position sc sc',
    scan_blank rows position sc = Ok sc' ->
    start_of sc = None -> end_of sc = None ->
    start_of sc' <> None -> end_of sc' <> None ->
    start_then_end XYDATA Extended rows = true.
Proof.
  induction rows as [|line rest IH]; intros position sc sc'; simpl.
  - intros Heq; inversion Heq; subst. congruence.
  - destruct (Py.mem XYDATA line) eqn:X.
    + intros Hs S0 E0 S1 E1. rewrite (scan_blank_end _ _ _ Hs); auto.
    + destruct (Py.mem Extended line).
      * intros Heq; inversion Heq; subst. simpl. congruence.
      * intros Hs S0 E0 S1 E1. simpl. eapply IH; eauto.
Qed.

(** X5.  On a record not yet corrected, [baseline] with a file in which
    no row holding [XYDATA] is followed by a row holding the end sentinel
    raises [UnboundLocalError] before it reads or assigns anything: the
    record, [corrected] included, is as before the call, so a later
    [baseline] with a proper blank still applies. *)
Theorem baseline_bad_blank_leaves_record (st : CD.St F) (f good : File) :
  CD.corrected (self st) = false ->
  start_then_end XYDATA Extended (map csv_row f) = false ->
  CD.baseline f st = (Err UnboundLocalError, st)
  /\ CD.baseline good (snd (CD.baseline f st)) = CD.baseline good st.
Proof.
  intros Hc Hno.
  assert (E : CD.baseline f st = (Err UnboundLocalError, st)).
  { unfold CD.baseline, CD.read_blank. rewrite Hc. cbn [negb].
    destruct (scan_blank_returns (map csv_row f) 0 unbound) as [sc Hsc].
    rewrite Hsc. simpl bind.
    destruct (start_of sc) as [s0|] eqn:S1; simpl; [|reflexivity].
    destruct (end_of sc) as [e0|] eqn:E1; simpl; [|reflexivity].
    exfalso.
    assert (start_then_end XYDATA Extended (map csv_row f) = true)
      by (eapply scan_blank_both; eauto; congruence).
    congruence. }
  split; [exact E|]. now rewrite E.
Qed.

End BadBlank.

Lemma baseline_bad_blank_witness :
  CD.baseline Sample.no_xydata Sample.lys_state
  = (Err UnboundLocalError, Sample.lys_state)
  /\ CD.baseline Sample.buffer
       (snd (CD.baseline Sample.no_xydata Sample.lys_state))
     = CD.baseline Sample.buffer Sample.lys_state.
Proof.
  apply (baseline_bad_blank_leaves_record Sample.lys_state Sample.no_xydata
           Sample.buffer); reflexivity.
Defined.

(** ** IEEE comparisons satisfy [NumberLe] *)

Lemma SFcompare_refl x :
  SFcompare x x = None \/ SFcompare x x = Some Eq.
Proof.
  destruct x as [sx|sx| |sx mx ex]; simpl; auto; right.
  - now destruct sx.
  - change (PosDef.Pos.compare_cont Eq mx mx) with (Pos.compare mx mx).
    rewrite Z.compare_refl, Pos.compare_refl. now destruct sx.
Qed.

Lemma SFcompare_defined_l x y c :
  SFcompare x y = Some c -> SFcompare x x = Some Eq.
Proof.
  intros Hc. destruct (SFcompare_refl x) as [Hn|]; auto.
  destruct x; simpl in *; try discriminate.
Qed.

Lemma SFcompare_defined_r x y c :
  SFcompare x y = Some c -> SFcompare y y = Some Eq.
Proof.
  intros Hc. destruct (SFcompare_refl y) as [Hn|]; auto.
  destruct y; simpl in Hn; try discriminate.
  destruct x; discriminate.
Qed.

Lemma float_ltb_leb (a b : float) :
  PrimFloat.ltb a b = true -> PrimFloat.leb a b = true.
Proof.
  rewrite FloatAxioms.ltb_spec, FloatAxioms.leb_spec. unfold SFltb, SFleb.
  destruct (SFcompare (Prim2SF a) (Prim2SF b)) as [[]|]; congruence.
Qed.

Lemma float_ltb_not_leb (a b : float) :
  PrimFloat.ltb a b = true -> PrimFloat.leb b a = false.
Proof.
  rewrite FloatAxioms.ltb_spec, FloatAxioms.leb_spec. unfold SFltb, SFleb.
  rewrite (SFcompare_swap (Prim2SF a) (Prim2SF b)).
  destruct (SFcompare (Prim2SF a) (Prim2SF b)) as [[]|]; simpl; congruence.
Qed.

Lemma float_ltb_leb_left (a b : float) :
  PrimFloat.ltb a b = true -> PrimFloat.leb a a = true.
Proof.
  rewrite FloatAxioms.ltb_spec, FloatAxioms.leb_spec. unfold SFltb, SFleb.
  destruct (SFcompare (Prim2SF a) (Prim2SF b)) as [c|] eqn:E; [|discriminate].
  now rewrite (SFcompare_defined_l _ _ E).
Qed.

Lemma float_ltb_leb_right (a b : float) :
  PrimFloat.ltb a b = true -> PrimFloat.leb b b = true.
Proof.
  rewrite FloatAxioms.ltb_spec, FloatAxioms.leb_spec. unfold SFltb, SFleb.
  destruct (SFcompare (Prim2SF a) (Prim2SF b)) as [c|] eqn:E; [|discriminate].
  now rewrite (SFcompare_defined_r _ _ E).
Qed.

#[export] Instance NumberLe_float : NumberLe float := {
  fltb_fleb := float_ltb_leb;
  fltb_not_fleb := float_ltb_not_leb;
  fltb_fleb_left := float_ltb_leb_left;
  fltb_fleb_right := float_ltb_leb_right
}.

(** ** A blank over the same wavelengths *)

Section SameDomain.
Context {F : Type} `{Number F} `{Pandas F}.
Implicit Types (a b s : @Series F).

Lemma sub_series_same_index a :
  forall b,
    index a = index b ->
    sub_series a b =
    map (fun pq => (fst (fst pq), fsub (snd (fst pq)) (snd (snd pq))))
      (combine a b).
Proof.
  induction a as [|[la x] a IH]; intros [|[lb y] b] Hidx;
    try discriminate; auto.
  simpl in Hidx. inversion Hidx; subst lb.
  rewrite sub_series_cons_cons, Nat.compare_refl. simpl. f_equal. now apply IH.
Qed.

(** A mask that holds exactly below position [k] keeps the first [k]. *)
Lemma boolean_index_prefix s :
  forall (cond : list bool) (k : nat),
    List.length cond = List.length s ->
    (forall i, (i < List.length s)%nat -> nth_error cond i = Some (i <? k)%nat) ->
    boolean_index cond s = firstn k s.
Proof.
  unfold boolean_index.
  induction s as [|x s IH]; intros cond k Hlen Hcond.
  - rewrite combine_nil. now rewrite firstn_nil.
  - destruct cond as [|c cond]; [discriminate|]. simpl in Hlen.
    assert (Hc : c = (0 <? k)%nat).
    { specialize (Hcond 0%nat). simpl in Hcond.
      assert (Some c = Some (0 <? k)%nat) by (apply Hcond; lia). congruence. }
    destruct k as [|k].
    + simpl in Hc. subst c. simpl.
      assert (Hrest : forall i, (i < List.length s)%nat ->
                                nth_error cond i = Some (i <? 0)%nat).
      { intros i Hi. specialize (Hcond (S i)). simpl in Hcond.
        rewrite Hcond by lia. reflexivity. }
      rewrite (IH cond 0%nat) by (auto; lia). reflexivity.
    + simpl in Hc. subst c. simpl. f_equal.
      apply IH; [lia|]. intros i Hi. specialize (Hcond (S i)). simpl in Hcond.
      rewrite Hcond by lia. reflexivity.
Qed.

(** In a strictly descending domain of two samples or more, the mask
    [vals[c] <= w <= vals[0]] holds exactly at the positions up to [c]. *)
Lemma mask_descending `{!NumberOrder F} `{!NumberLe F}
    (vals : list F) (c : nat) (lo hi : F) :
  descending vals = true -> (2 <= List.length vals)%nat ->
  nth_error vals c = Some lo -> nth_error vals 0 = Some hi ->
  forall i w, nth_error vals i = Some w ->
              CD.in_range lo hi w = (i <? S c)%nat.
Proof.
  intros Hd Hlen Hlo Hhi i w Hw. unfold CD.in_range.
  destruct (nth_error vals 1) as [v1|] eqn:H1;
    [|apply nth_error_None in H1; lia].
  pose proof (descending_nth _ Hd (Nat.lt_0_1) Hhi H1) as H10.
  assert (Hup : fleb w hi = true).
  { destruct i as [|i].
    - rewrite Hhi in Hw. inversion Hw; subst. exact (fltb_fleb_right _ _ H10).
    - apply fltb_fleb. apply (descending_nth _ Hd (i := 0%nat) (j := S i)); auto.
      lia. }
  rewrite Hup, andb_true_r.
  destruct (Nat.lt_trichotomy i c) as [Lt|[Eq|Gt]].
  - replace (i <? S c)%nat with true by (symmetry; apply Nat.ltb_lt; lia).
    apply fltb_fleb. exact (descending_nth _ Hd Lt Hw Hlo).
  - subst i. rewrite Hlo in Hw. inversion Hw; subst.
    replace (c <? S c)%nat with true by (symmetry; apply Nat.ltb_lt; lia).
    destruct c as [|c].
    + rewrite Hhi in Hlo. inversion Hlo; subst. exact (fltb_fleb_right _ _ H10).
    + apply (fltb_fleb_left w hi).
      apply (descending_nth _ Hd (i := 0%nat) (j := S c)); auto. lia.
  - replace (i <? S c)%nat with false by (symmetry; apply Nat.ltb_ge; lia).
    apply fltb_not_fleb. exact (descending_nth _ Hd Gt Hlo Hw).
Qed.

End SameDomain.

Section SameDomainBaseline.
Context {F : Type} `{Number F} `{Pandas F} `{!NumberOrder F} `{!NumberLe F}.
Implicit Types (a b s : @Series F).

Lemma index_firstn k s : index (firstn k s) = firstn k (index s).
Proof. unfold index. now rewrite firstn_map. Qed.

Lemma values_firstn k s : values (firstn k s) = firstn k (values s).
Proof. unfold values. now rewrite firstn_map. Qed.

Lemma index_zip_sub a :
  forall b,
    index a = index b ->
    index (map (fun pq => (fst (fst pq), fsub (snd (fst pq)) (snd (snd pq))))
             (combine a b)) = index a
    /\ values (map (fun pq => (fst (fst pq), fsub (snd (fst pq)) (snd (snd pq))))
                 (combine a b))
       = map (fun xy => fsub (fst xy) (snd xy)) (combine (values a) (values b)).
Proof.
  induction a as [|[la x] a IH]; intros [|[lb y] b] Hidx;
    try discriminate; auto.
  simpl in Hidx. inversion Hidx. destruct (IH b) as [Hi Hv]; auto.
  simpl. unfold index, values in *. simpl. now rewrite Hi, Hv.
Qed.

Lemma mask_keeps_prefix (vals : list F) (c : nat) (lo hi : F) (xs : list F) :
  descending vals = true -> (2 <= List.length vals)%nat ->
  nth_error vals c = Some lo -> nth_error vals 0 = Some hi ->
  List.length xs = List.length vals ->
  boolean_index (map (CD.in_range lo hi) vals) (range_series xs)
  = firstn (S c) (range_series xs).
Proof.
  intros Hd Hlen Hlo Hhi Hxs. apply boolean_index_prefix.
  - now rewrite length_map, length_range_series.
  - intros i Hi. rewrite length_range_series, Hxs in Hi.
    rewrite nth_error_map.
    destruct (nth_error vals i) as [w|] eqn:Hw;
      [|apply nth_error_None in Hw; lia].
    simpl. f_equal. eapply mask_descending; eauto.
Qed.

(** The core of the two theorems below: the current domain is the first
    [c + 1] wavelengths of the blank, [c] being the position of the lower
    end of the mask. *)
Lemma baseline_same_domain_core
    (st : CD.St F) (fb : File) (rows : list (list F)) (c : nat) :
  CD.wf st ->
  CD.corrected (self st) = false ->
  CD.read_blank (CD.cols (self st)) fb = Ok rows ->
  let bwv := map (fun r => nth 0 r nan) rows in
  let bcv := map (fun r => nth 1 r nan) rows in
  let lo := if CD.filtered (self st) then CD.wv_cutoff (self st)
            else CD.wv_min (self st) in
  descending bwv = true -> (2 <= List.length bwv)%nat ->
  nth_error bwv c = Some lo ->
  nth_error bwv 0 = Some (CD.wv_max (self st)) ->
  CD.wavelength_of st = firstn (S c) (range_series bwv) ->
  index (CD.ellipticity_of st) = index (CD.wavelength_of st) ->
  let st' := snd (CD.baseline fb st) in
  fst (CD.baseline fb st) = Ok tt
  /\ CD.corrected (self st') = true
  /\ CD.wavelength_of st' = CD.wavelength_of st
  /\ index (CD.ellipticity_of st') = index (CD.ellipticity_of st)
  /\ values (CD.ellipticity_of st')
     = map (fun xy => fsub (fst xy) (snd xy))
         (combine (values (CD.ellipticity_of st)) bcv).
Proof.
  intros Hwf Hc Hparse. cbv zeta. intros Hd Hlen Hlo Hhi Hwl Hidx.
  destruct (baseline_parsed fb Hwf Hc Hparse) as (R & C & W & E).
  cbv zeta in W, E. rewrite values_range_series in W, E.
  rewrite (mask_keeps_prefix _ c (map (fun r : list F => nth 0 r nan) rows)
             Hd Hlen Hlo Hhi) in W by reflexivity.
  rewrite (mask_keeps_prefix _ c (map (fun r : list F => nth 1 r nan) rows)
             Hd Hlen Hlo Hhi) in E
    by now rewrite !length_map.
  assert (Hc_lt : (c < List.length rows)%nat).
  { assert (c < List.length (map (fun r : list F => nth 0 r nan) rows))%nat
      by (apply nth_error_Some; congruence).
    now rewrite length_map in *. }
  assert (Hsame :
            index (CD.ellipticity_of st)
            = index (firstn (S c)
                       (range_series (map (fun r : list F => nth 1 r nan) rows)))).
  { rewrite Hidx, Hwl, !index_firstn, !index_range_series.
    now rewrite !length_map. }
  rewrite (sub_series_same_index _ _ Hsame) in E.
  destruct (index_zip_sub _ _ Hsame) as [Hi Hv].
  rewrite <- E in Hi, Hv.
  repeat split; auto; [congruence|].
  rewrite Hv, values_firstn, values_range_series.
  assert (Hlen_e : List.length (values (CD.ellipticity_of st)) = S c).
  { unfold values. rewrite length_map.
    rewrite <- (length_map fst). fold (index (CD.ellipticity_of st)).
    rewrite Hsame, index_firstn, index_range_series, length_firstn.
    rewrite length_seq, length_map. lia. }
  rewrite (combine_firstn_l (values (CD.ellipticity_of st))
             (map (fun r : list F => nth 1 r nan) rows)).
  now rewrite Hlen_e.
Qed.

End SameDomainBaseline.

Section SameWavelengths.
Context {F : Type} `{Number F} `{Pandas F} `{!NumberOrder F} `{!NumberLe F}.

Lemma init_paired path f ht_max abs (st : CD.St F) :
  CD.init path f ht_max abs = Ok st ->
  CD.wavelength_of st = range_series (values (CD.wavelength_of st))
  /\ index (CD.ellipticity_of st) = index (CD.wavelength_of st).
Proof.
  intros Hinit.
  destruct (init_columns _ _ _ _ Hinit)
    as (rows & _ & _ & _ & Ew & Ee & _).
  destruct (init_parsed _ _ _ _ Hinit) as (start & end_ & rows' & _ & Pw & Pe).
  unfold CD.wavelength_raw_of, CD.ellipticity_raw_of in Pw, Pe.
  rewrite Ew in Pw. rewrite Ee in Pe.
  fold (CD.wavelength_of st) in Pw. fold (CD.ellipticity_of st) in Pe.
  rewrite Pw, Pe. rewrite values_range_series, !index_range_series.
  now rewrite !length_map.
Qed.

(** X6.  A blank recorded over the wavelengths of a freshly constructed
    record, scanned downwards over at least two samples: [baseline]
    returns, leaves [wavelength] as it was, keeps the labels of
    [ellipticity], and replaces each sample by its difference with the
    blank's sample at the same position. *)
Theorem baseline_same_wavelengths
    path f ht_max abs (st : CD.St F) (fb : File) (rows : list (list F)) :
  CD.init path f ht_max abs = Ok st ->
  CD.read_blank (CD.cols (self st)) fb = Ok rows ->
  map (fun r => nth 0 r nan) rows = values (CD.wavelength_of st) ->
  descending (values (CD.wavelength_of st)) = true ->
  (2 <= List.length (CD.wavelength_of st))%nat ->
  let st' := snd (CD.baseline fb st) in
  fst (CD.baseline fb st) = Ok tt
  /\ CD.corrected (self st') = true
  /\ CD.wavelength_of st' = CD.wavelength_of st
  /\ index (CD.ellipticity_of st') = index (CD.ellipticity_of st)
  /\ values (CD.ellipticity_of st')
     = map (fun xy => fsub (fst xy) (snd xy))
         (combine (values (CD.ellipticity_of st))
            (map (fun r => nth 1 r nan) rows)).
Proof.
  intros Hinit Hparse Hsame Hd Hlen. cbv zeta.
  pose proof (init_wf _ _ _ _ Hinit) as Hwf.
  destruct (init_columns _ _ _ _ Hinit)
    as (rows0 & _ & _ & _ & _ & _ & _ & _ & Hf & Hc & _).
  destruct (init_scalars _ _ _ _ Hinit) as (Hmin & Hmax & _).
  destruct (init_paired _ _ _ _ Hinit) as [Hrange Hidx].
  destruct (iloc_last _ Hmin) as [_ Hlast].
  pose proof (iloc_at _ 0 Hmax) as Hfirst.
  assert (Hvl : List.length (values (CD.wavelength_of st))
                = List.length (CD.wavelength_of st))
    by (unfold values; now rewrite length_map).
  apply (baseline_same_domain_core fb
           (List.length (CD.wavelength_of st) - 1)%nat Hwf Hc Hparse).
  - now rewrite Hsame.
  - rewrite Hsame, Hvl. exact Hlen.
  - rewrite Hf, Hsame. exact Hlast.
  - rewrite Hsame. exact Hfirst.
  - rewrite Hsame, <- Hrange. symmetry. apply firstn_all2. lia.
  - exact Hidx.
Qed.

Lemma ht_filter_fields (st : CD.St F) :
  CD.filtered (self st) = false ->
  let s' := self (snd (CD.ht_filter st)) in
  CD.corrected s' = CD.corrected (self st)
  /\ CD.cols s' = CD.cols (self st)
  /\ CD.wv_min s' = CD.wv_min (self st)
  /\ CD.wv_max s' = CD.wv_max (self st)
  /\ CD.wv_cutoff s' = CD.wv_cutoff (self st)
  /\ CD.idx_cutoff s' = CD.idx_cutoff (self st).
Proof.
  intros Hf. unfold CD.ht_filter. rewrite Hf. simpl. repeat split.
Qed.

(** X7.  The same blank after [ht_filter] on a record whose cutoff is not
    before the first sample: [baseline] keeps the truncated domain, and
    each of the samples that are left is replaced by its difference with
    the blank's sample at the same position. *)
Theorem baseline_same_wavelengths_filtered
    path f ht_max abs (st0 : CD.St F) (fb : File) (rows : list (list F)) :
  CD.init path f ht_max abs = Ok st0 ->
  0 <= CD.idx_cutoff (self st0) ->
  CD.read_blank (CD.cols (self st0)) fb = Ok rows ->
  map (fun r => nth 0 r nan) rows = values (CD.wavelength_of st0) ->
  descending (values (CD.wavelength_of st0)) = true ->
  (2 <= List.length (CD.wavelength_of st0))%nat ->
  let st := snd (CD.ht_filter st0) in
  let st' := snd (CD.baseline fb st) in
  fst (CD.baseline fb st) = Ok tt
  /\ CD.wavelength_of st'
     = iloc_upto (CD.idx_cutoff (self st0) + 1) (CD.wavelength_of st0)
  /\ index (CD.ellipticity_of st') = index (CD.wavelength_of st')
  /\ values (CD.ellipticity_of st')
     = map (fun xy => fsub (fst xy) (snd xy))
         (combine (values (iloc_upto (CD.idx_cutoff (self st0) + 1)
                             (CD.ellipticity_of st0)))
            (map (fun r => nth 1 r nan) rows)).
Proof.
  intros Hinit Hpos Hparse Hsame Hd Hlen. cbv zeta.
  pose proof (init_wf _ _ _ _ Hinit) as Hwf0.
  destruct (init_columns _ _ _ _ Hinit)
    as (rows0 & Hw & _ & _ & _ & _ & _ & _ & Hf & Hc & _).
  destruct Hw as [Hw _].
  destruct (init_scalars _ _ _ _ Hinit) as (_ & Hmax & Hcut).
  destruct (init_paired _ _ _ _ Hinit) as [Hrange Hidx].
  destruct (ht_filter_truncates st0 Hf Hw) as (_ & Ee & Ew & Fl).
  cbv zeta in Ee, Ew.
  destruct (ht_filter_keeps Hwf0) as [Hwf _].
  destruct (ht_filter_fields st0 Hf) as (Fc & Fcols & _ & Fmax & Fcut & _).
  cbv zeta in Fc, Fcols, Fmax, Fcut.
  set (c := Z.to_nat (CD.idx_cutoff (self st0))).
  assert (Hc_eq : CD.idx_cutoff (self st0) = Z.of_nat c)
    by (unfold c; now rewrite Z2Nat.id).
  assert (Hupto : forall s : @Series F,
             iloc_upto (CD.idx_cutoff (self st0) + 1) s = firstn (S c) s).
  { intros s. unfold iloc_upto, Py.upto.
    destruct (CD.idx_cutoff (self st0) + 1 <? 0) eqn:Neg;
      [apply Z.ltb_lt in Neg; lia|].
    f_equal. unfold c. lia. }
  rewrite Hc_eq in Hcut. pose proof (iloc_at _ c Hcut) as Hat.
  pose proof (iloc_at _ 0 Hmax) as Hfirst.
  assert (Hvl : List.length (values (CD.wavelength_of st0))
                = List.length (CD.wavelength_of st0))
    by (unfold values; now rewrite length_map).
  rewrite Hupto in Ee, Ew.
  assert (Hidx' : index (CD.ellipticity_of (snd (CD.ht_filter st0)))
                  = index (CD.wavelength_of (snd (CD.ht_filter st0)))).
  { rewrite Ee, Ew, !index_firstn. now rewrite Hidx. }
  destruct (baseline_same_domain_core (st := snd (CD.ht_filter st0)) fb
              (rows := rows) c Hwf)
    as (R & _ & W & I & V).
  - now rewrite Fc.
  - now rewrite Fcols.
  - now rewrite Hsame.
  - rewrite Hsame, Hvl. exact Hlen.
  - rewrite Fl, Fcut, Hsame. exact Hat.
  - rewrite Fmax, Hsame. exact Hfirst.
  - rewrite Ew, Hsame, <- Hrange. reflexivity.
  - exact Hidx'.
  - rewrite !Hupto. rewrite W, I, V, Hidx', Ew, Ee. auto.
Qed.

End SameWavelengths.

Lemma baseline_same_wavelengths_witness :
  CD.init "runs/lys.csv" Sample.lys None false = Ok Sample.lys_state
  /\ values (CD.ellipticity_of (snd (CD.baseline Sample.buffer Sample.lys_state)))
     = map (fun xy => fsub (fst xy) (snd xy))
         (combine (values (CD.ellipticity_of Sample.lys_state))
            (map (fun r => nth 1 r nan) Sample.buffer_rows)).
Proof.
  assert (E : CD.init "runs/lys.csv" Sample.lys None false = Ok Sample.lys_state)
    by reflexivity.
  split; [exact E|].
  refine (proj2 (proj2 (proj2 (proj2
            (baseline_same_wavelengths _ _ _ _ Sample.buffer
               (rows := Sample.buffer_rows) E _ _ _ _)))));
    try reflexivity.
  vm_compute. lia.
Defined.

Lemma baseline_same_wavelengths_filtered_witness :
  CD.init "runs/lys.csv" Sample.lys None false = Ok Sample.lys_state
  /\ CD.idx_cutoff (self Sample.lys_state) = 1
  /\ values (CD.ellipticity_of
               (snd (CD.baseline Sample.buffer
                       (snd (CD.ht_filter Sample.lys_state)))))
     = map (fun xy => fsub (fst xy) (snd xy))
         (combine (values (iloc_upto (CD.idx_cutoff (self Sample.lys_state) + 1)
                             (CD.ellipticity_of Sample.lys_state)))
            (map (fun r => nth 1 r nan) Sample.buffer_rows)).
Proof.
  assert (E : CD.init "runs/lys.csv" Sample.lys None false = Ok Sample.lys_state)
    by reflexivity.
  split; [exact E|]. split; [reflexivity|].
  refine (proj2 (proj2 (proj2
            (baseline_same_wavelengths_filtered _ _ _ _ Sample.buffer
               (rows := Sample.buffer_rows) E _ _ _ _ _))));
    try reflexivity.
  - vm_compute. discriminate.
  - vm_compute. lia.
Defined.

(** ** Repeated and exchanged calls *)

Section Repeated.
Context {F : Type} `{Number F} `{Pandas F}.

Lemma mre_ellipticity c aa pl (st : CD.St F) :
  CD.ellipticity_of (snd (CD.mre c aa pl st))
  = div_scalar (CD.ellipticity_of st) (CD.mre_divisor c aa pl).
Proof. unfold CD.mre, CD.ellipticity_of. simpl. now rewrite deref_snoc. Qed.

(** X8.  [mre] has no flag to guard it: a second call returns, prints
    nothing and divides the quotients of the first call again. *)
Theorem mre_twice_divides_twice c1 aa1 pl1 c2 aa2 pl2 (st : CD.St F) :
  let d1 := CD.mre_divisor c1 aa1 pl1 in
  let d2 := CD.mre_divisor c2 aa2 pl2 in
  let st1 := snd (CD.mre c1 aa1 pl1 st) in
  let out := CD.mre c2 aa2 pl2 st1 in
  fst out = Ok tt
  /\ stdout (snd out) = stdout st
  /\ index (CD.ellipticity_of (snd out)) = index (CD.ellipticity_of st)
  /\ values (CD.ellipticity_of (snd out))
     = map (fun x => fdiv (fdiv x d1) d2) (values (CD.ellipticity_of st)).
Proof.
  cbv zeta. rewrite !mre_ellipticity, !index_div_scalar, !values_div_scalar.
  rewrite map_map. repeat split.
Qed.

Lemma melt_step_measured (c : melt_call) (st : MeltSpectra.St F) :
  let s := self st in
  let s' := self (snd (melt_step c st)) in
  melt_measured s' = melt_measured s
  /\ match c with
     | melt_mre c aa pl =>
         MeltSpectra.mre_transformation s' = true
         /\ MeltSpectra.CD_mre (MeltSpectra.data s')
            = Some (map (fun x => fdiv x (CD.mre_divisor c aa pl))
                      (MeltSpectra.CD_filtered (MeltSpectra.data s)))
     | _ =>
         MeltSpectra.mre_transformation s' = MeltSpectra.mre_transformation s
         /\ MeltSpectra.CD_mre (MeltSpectra.data s')
            = MeltSpectra.CD_mre (MeltSpectra.data s)
     end.
Proof.
  cbv zeta. destruct st as [h [] o].
  destruct c as [c aa pl|wdw polyorder|lo up];
    unfold melt_step, MeltSpectra.mre, MeltSpectra.smooth,
      MeltSpectra.integrate, melt_measured; simpl.
  all: repeat match goal with
              | |- context [match ?x with _ => _ end] => destruct x; simpl
              end;
    auto.
Qed.

Lemma melt_measured_filtered (s s' : @MeltSpectra.cd_melting_spectra F) :
  melt_measured s' = melt_measured s ->
  MeltSpectra.CD_filtered (MeltSpectra.data s')
  = MeltSpectra.CD_filtered (MeltSpectra.data s).
Proof. unfold melt_measured. intros E. now inversion E. Qed.

(** X9.  On a melt-spectra record no sequence of calls of [mre], [smooth]
    and [integrate] changes what the constructor measured ([CD_filtered]
    included), and [mre] divides [CD_filtered], never the column an
    earlier call stored: after the calls [CD_mre] holds the quotients of
    the constructed [CD_filtered] by the divisor of the last call of
    [mre] alone, and without a call of [mre] it is as before. *)
Theorem melt_mre_last_call_decides (cs : list melt_call) :
  forall st : MeltSpectra.St F,
    let s := self st in
    let s' := self (melt_run cs st) in
    melt_measured s' = melt_measured s
    /\ match last_mre cs with
       | Some (c, aa, pl) =>
           MeltSpectra.mre_transformation s' = true
           /\ MeltSpectra.CD_mre (MeltSpectra.data s')
              = Some (map (fun x => fdiv x (CD.mre_divisor c aa pl))
                        (MeltSpectra.CD_filtered (MeltSpectra.data s)))
       | None =>
           MeltSpectra.mre_transformation s' = MeltSpectra.mre_transformation s
           /\ MeltSpectra.CD_mre (MeltSpectra.data s')
              = MeltSpectra.CD_mre (MeltSpectra.data s)
       end.
Proof.
  induction cs as [|c cs IH]; intros st; cbv zeta; [simpl; auto|].
  destruct (melt_step_measured c st) as [M1 C1]. cbv zeta in M1, C1.
  destruct (IH (snd (melt_step c st))) as [M2 C2]. cbv zeta in M2, C2.
  change (melt_run (c :: cs) st) with (melt_run cs (snd (melt_step c st))).
  split; [congruence|].
  cbn [last_mre].
  destruct (last_mre cs) as [[[c' aa'] pl']|].
  - destruct C2 as [T2 Q2]. split; [exact T2|].
    rewrite Q2. now rewrite (melt_measured_filtered M1).
  - destruct C2 as [T2 Q2].
    destruct c as [c0 aa0 pl0|wdw polyorder|lo up];
      destruct C1 as [T1 Q1]; split; congruence.
Qed.

End Repeated.

(** ** Attributes no call changes *)

Section Frozen.
Context {F : Type} `{Number F} `{Pandas F}.
Import Pipeline.

Lemma baseline_fields (fb : File) (st : CD.St F) :
  let s' := self (snd (CD.baseline fb st)) in
  cd_settings s' = cd_settings (self st)
  /\ CD.filtered s' = CD.filtered (self st)
  /\ (CD.corrected (self st) = true -> CD.corrected s' = true).
Proof.
  cbv zeta. unfold CD.baseline.
  destruct (CD.corrected (self st)) eqn:Hc; simpl; [now rewrite Hc|].
  destruct (CD.read_blank (CD.cols (self st)) fb) as [rows|e]; simpl;
    [|now rewrite Hc].
  destruct (frame_of_rows (heap st) (CD.cols (self st)) 0 rows) as [h1 bl].
  simpl.
  destruct (column bl "Wavelength [nm]") as [bw|e]; simpl;
    [|repeat split; discriminate].
  destruct (column bl "CD [mdeg]") as [bc|e]; simpl;
    repeat split; discriminate.
Qed.

Lemma cd_step_settings (c : cd_call) (st : CD.St F) :
  let s' := self (snd (cd_step c st)) in
  cd_settings s' = cd_settings (self st)
  /\ (CD.filtered (self st) = true -> CD.filtered s' = true)
  /\ (CD.corrected (self st) = true -> CD.corrected s' = true).
Proof.
  cbv zeta. destruct c as [|fb|wdw polyorder|c aa pl|lo up]; simpl.
  - unfold CD.ht_filter. destruct (CD.filtered (self st)) eqn:Hf; simpl;
      repeat split; auto.
  - destruct (baseline_fields fb st) as (S & Fl & C). cbv zeta in S, Fl, C.
    rewrite Fl. auto.
  - unfold CD.smooth.
    destruct (savgol_filter _ wdw polyorder); simpl; repeat split; auto.
  - unfold CD.mre. simpl. repeat split; auto.
  - unfold CD.integrate.
    destruct (index0 (where_eq (CD.wavelength_of st) up)) as [a|e]; simpl;
      [|repeat split; auto].
    destruct (index0 (where_eq (CD.wavelength_of st) lo)) as [b|e]; simpl;
      repeat split; auto.
Qed.

(** X10.  Whatever calls are made on a [cd_spectra] record, in whatever
    order and whether they raise or not, the attributes the constructor
    computed ([wv_min], [wv_max], [idx_cutoff], [wv_cutoff], [wv_delta],
    [cols], [data], [ht], the texts) stay as constructed, and a flag that
    is set stays set. *)
Theorem run_keeps_settings (cs : list cd_call) :
  forall st : CD.St F,
    cd_settings (self (cd_run cs st)) = cd_settings (self st)
    /\ (CD.filtered (self st) = true -> CD.filtered (self (cd_run cs st)) = true)
    /\ (CD.corrected (self st) = true
        -> CD.corrected (self (cd_run cs st)) = true).
Proof.
  induction cs as [|c cs IH]; intros st; simpl; [auto|].
  destruct (cd_step_settings c st) as (S1 & F1 & C1).
  destruct (IH (snd (cd_step c st))) as (S2 & F2 & C2).
  cbv zeta in S1, F1, C1.
  repeat split; [congruence|auto|auto].
Qed.

End Frozen.

(** ** [ht_filter] and [baseline] in either order *)

Section EitherOrder.
Context {F : Type} `{Number F} `{Pandas F} `{!NumberOrder F} `{!NumberLe F}.




End EitherOrder.


(** ** [integrate] with the bounds exchanged *)

Section Exchanged.
Context {F : Type} `{Number F} `{Pandas F} `{!NumberOrder F}.

Lemma slice_empty {A : Type} (a b : nat) (l : list A) :
  (b <= a)%nat -> Py.slice a b l = [].
Proof.
  intros Hab. unfold Py.slice. apply skipn_all2.
  rewrite length_firstn. lia.
Qed.

(** X14.  On a strictly descending domain, with both bounds among the
    samples but the larger one passed as [wv_limit_lower], [integrate]
    raises nothing: the slice is empty and the integral stored is
    [wv_delta] times the sum of no sample.  So on [cd_spectra] and on
    [abs_spectra]. *)
Theorem integrate_exchanged_bounds (lower upper : F) :
  (forall st : CD.St F,
      CD.wf st ->
      descending (values (CD.wavelength_of st)) = true ->
      fltb upper lower = true ->
      present lower (CD.wavelength_of st) = true ->
      present upper (CD.wavelength_of st) = true ->
      CD.integrate lower upper st =
      (Ok tt,
       mkState (heap st)
         (CD.set_integral (fmul (CD.wv_delta (self st)) (fsum [])) (self st))
         (stdout st)))
  /\ (forall st : Abs.St F,
         Abs.wf st ->
         descending (values (Abs.wavelength_of st)) = true ->
         fltb upper lower = true ->
         present lower (Abs.wavelength_of st) = true ->
         present upper (Abs.wavelength_of st) = true ->
         Abs.integrate lower upper st =
         (Ok tt,
          mkState (heap st)
            (Abs.set_integral (fmul (Abs.wv_delta (self st)) (fsum [])) (self st))
            (stdout st))).
Proof.
  split; intros st Hwf Hd Hlt Hl Hu;
    [ pose proof (proj2 (proj2 (proj2 (proj2 (proj2 (proj2 Hwf)))))) as Hinc
    | pose proof (proj2 (proj2 (proj2 Hwf))) as Hinc ];
    destruct (index0_where_eq_present _ _ Hu) as [a Ha];
    destruct (index0_where_eq_present _ _ Hl) as [b Hb];
    destruct (window_labels _ upper lower Hinc Hd Hlt Hb Ha) as [Hba _].
  - unfold CD.integrate. rewrite Ha. simpl. rewrite Hb. simpl.
    unfold iloc_slice. rewrite slice_empty by lia. reflexivity.
  - unfold Abs.integrate. rewrite Ha. simpl. rewrite Hb. simpl.
    unfold iloc_slice. rewrite slice_empty by lia. reflexivity.
Qed.

End Exchanged.

Lemma integrate_exchanged_bounds_witness :
  CD.wf Sample.lys_state
  /\ CD.integral (self (snd (CD.integrate 260%float 257%float Sample.lys_state)))
     = Some (fmul (CD.wv_delta (self Sample.lys_state)) (fsum [])).
Proof.
  assert (Hwf : CD.wf Sample.lys_state).
  { apply (init_wf "runs/lys.csv" Sample.lys None false). reflexivity. }
  split; [exact Hwf|].
  rewrite (proj1 (integrate_exchanged_bounds 260%float 257%float)
             Sample.lys_state Hwf);
    reflexivity.
Defined.

(** ** The long-form frame of the melt-spectra record *)

Section MeltFrame.
Context {F : Type} `{Number F} `{Pandas F}.
Import MeltSpectra.

(** X15.  The frame a constructed melt-spectra record holds: its five
    columns have one length, [CD_filtered] has the raw value wherever
    [HT <= ht_max] (600 by default) and NaN elsewhere, no row is dropped,
    and the columns [mre] and [smooth] add are absent. *)
Theorem melt_init_masks_by_ht path f ht_max (st : MeltSpectra.St F) :
  MeltSpectra.init path f ht_max = Ok st ->
  let d := data (self st) in
  let limit := match ht_max with Some v => v | None => of_int 600 end in
  List.length (Wavelength d) = List.length (CD_raw d)
  /\ List.length (Temperature d) = List.length (CD_raw d)
  /\ List.length (HT d) = List.length (CD_raw d)
  /\ List.length (CD_filtered d) = List.length (CD_raw d)
  /\ (forall i raw ht,
         nth_error (CD_raw d) i = Some raw ->
         nth_error (HT d) i = Some ht ->
         nth_error (CD_filtered d) i
         = Some (if fleb ht limit then raw else nan))
  /\ CD_mre d = None /\ CD_smoothed d = None
  /\ mre_transformation (self st) = false
  /\ integrals (self st) = None.
Proof.
  intros Hinit. unfold MeltSpectra.init in Hinit. bind_ok Hinit.
  inversion Hinit; subst; clear Hinit. cbv zeta. simpl.
  rewrite !length_map.
  repeat split; auto.
  intros i raw ht Hraw Hht.
  rewrite nth_error_map in Hraw, Hht |- *.
  match goal with
  | |- context [nth_error ?m i] => destruct (nth_error m i) as [r|]
  end; [|discriminate].
  simpl in *. inversion Hraw. inversion Hht. reflexivity.
Qed.

End MeltFrame.

Lemma melt_init_masks_by_ht_witness :
  MeltSpectra.init "runs/melt.csv" Sample.melt None = Ok Sample.melt_state
  /\ nth_error
       (MeltSpectra.CD_filtered (MeltSpectra.data (self Sample.melt_state))) 1
     = Some (if fleb 650%float (of_int 600) then 5%float else nan).
Proof.
  assert (E : MeltSpectra.init "runs/melt.csv" Sample.melt None
              = Ok Sample.melt_state) by reflexivity.
  split; [exact E|].
  refine (proj1 (proj2 (proj2 (proj2 (proj2 (melt_init_masks_by_ht _ _ _ E)))))
            1%nat 5%float 650%float _ _);
    reflexivity.
Defined.

(** ** The name of a record *)

Section Names.

Lemma contains_slash_cons c s :
  Py.contains "/" (String c s) = false ->
  Ascii.eqb c "/" = false /\ Py.contains "/" s = false.
Proof.
  simpl. intros Hc. apply Bool.orb_false_iff in Hc. destruct Hc as [Hc Hs].
  rewrite Bool.andb_true_r in Hc. split; [|exact Hs].
  now rewrite Ascii.eqb_sym.
Qed.

Lemma split_no_slash s : Py.contains "/" s = false -> Py.split "/" s = [s].
Proof.
  induction s as [|c s IH]; intros Hc; [reflexivity|].
  destruct (contains_slash_cons _ _ Hc) as [Hne Hs].
  cbn [Py.split]. rewrite Hne, (IH Hs). reflexivity.
Qed.

Lemma split_after_slash (b : string) :
  Py.contains "/" b = false ->
  forall dir,
    exists w ws,
      Py.split "/" (dir ++ String "/" b)%string = w :: ws
      /\ ws <> [] /\ last ws EmptyString = b.
Proof.
  intros Hb. induction dir as [|c dir IH].
  - exists EmptyString, [b]. simpl. rewrite (split_no_slash _ Hb).
    repeat split; auto. discriminate.
  - destruct IH as (w & ws & Hs & Hne & Hl).
    cbn [append Py.split]. rewrite Hs.
    destruct (Ascii.eqb c "/").
    + exists EmptyString, (w :: ws). repeat split; [discriminate|].
      destruct ws; [congruence|exact Hl].
    + exists (String c w), ws. auto.
Qed.

Lemma basename_after_slash dir b :
  Py.contains "/" b = false ->
  Py.basename (dir ++ String "/" b)%string = b.
Proof.
  intros Hb. unfold Py.basename.
  destruct (split_after_slash _ Hb dir) as (w & ws & -> & Hne & Hl).
  destruct ws; [congruence|exact Hl].
Qed.

Lemma basename_no_slash b : Py.contains "/" b = false -> Py.basename b = b.
Proof. intros Hb. unfold Py.basename. now rewrite (split_no_slash _ Hb). Qed.

Lemma substring_prefix (a b : string) :
  String.substring 0 (String.length a) (a ++ b)%string = a.
Proof.
  induction a as [|c a IH]; simpl; [now destruct b|]. now rewrite IH.
Qed.

Lemma length_append (a b : string) :
  String.length (a ++ b)%string = (String.length a + String.length b)%nat.
Proof. induction a as [|c a IH]; simpl; auto. Qed.

Lemma drop_last_extension (stem ext : string) :
  String.length ext = 4%nat -> Py.drop_last 4 (stem ++ ext)%string = stem.
Proof.
  intros He. unfold Py.drop_last. rewrite length_append, He.
  replace (String.length stem + 4 - 4)%nat with (String.length stem) by lia.
  apply substring_prefix.
Qed.

Context {F : Type} `{Number F} `{Pandas F}.

Lemma init_names path (f : File) :
  (forall ht_max abs (st : CD.St F),
      CD.init path f ht_max abs = Ok st ->
      CD.name (self st) = Py.drop_last 4 (Py.basename path))
  /\ (forall st : Abs.St F,
         Abs.init path f = Ok st ->
         Abs.name (self st) = Py.drop_last 4 (Py.basename path))
  /\ (forall ht_max abs (st : MeltCurve.St F),
         MeltCurve.init path f ht_max abs = Ok st ->
         MeltCurve.name (self st) = Py.drop_last 4 (Py.basename path))
  /\ (forall ht_max (st : MeltSpectra.St F),
         MeltSpectra.init path f ht_max = Ok st ->
         MeltSpectra.name (self st) = Py.drop_last 4 (Py.basename path)).
Proof.
  repeat split; intros.
  - match goal with E : CD.init _ _ _ _ = _ |- _ =>
      unfold CD.init in E; bind_ok E; inversion E; subst; clear E end.
    reflexivity.
  - match goal with E : Abs.init _ _ = _ |- _ =>
      unfold Abs.init in E; bind_ok E; inversion E; subst; clear E end.
    reflexivity.
  - match goal with E : MeltCurve.init _ _ _ _ = _ |- _ =>
      unfold MeltCurve.init in E; bind_ok E; inversion E; subst; clear E end.
    reflexivity.
  - match goal with E : MeltSpectra.init _ _ _ = _ |- _ =>
      unfold MeltSpectra.init in E; bind_ok E; inversion E; subst; clear E end.
    reflexivity.
Qed.

(** X16.  The name of a constructed record is the file name without its
    last four characters, whatever they are: for a path [stem ++ ext], or
    [dir/stem ++ ext], with a four-character [ext] and no slash after
    [dir], every class names the record [stem]. *)
Theorem name_is_file_stem (dir stem ext path : string) (f : File) :
  Py.contains "/" (stem ++ ext)%string = false ->
  String.length ext = 4%nat ->
  path = (stem ++ ext)%string
  \/ path = (dir ++ String "/" (stem ++ ext))%string ->
  (forall ht_max abs (st : CD.St F),
      CD.init path f ht_max abs = Ok st -> CD.name (self st) = stem)
  /\ (forall st : Abs.St F,
         Abs.init path f = Ok st -> Abs.name (self st) = stem)
  /\ (forall ht_max abs (st : MeltCurve.St F),
         MeltCurve.init path f ht_max abs = Ok st ->
         MeltCurve.name (self st) = stem)
  /\ (forall ht_max (st : MeltSpectra.St F),
         MeltSpectra.init path f ht_max = Ok st ->
         MeltSpectra.name (self st) = stem).
Proof.
  intros Hs He Hp.
  assert (Hname : Py.drop_last 4 (Py.basename path) = stem).
  { destruct Hp as [-> | ->].
    - rewrite (basename_no_slash _ Hs). now apply drop_last_extension.
    - rewrite (basename_after_slash _ _ Hs). now apply drop_last_extension. }
  destruct (init_names path f) as (N1 & N2 & N3 & N4).
  repeat split; intros.
  - erewrite N1 by eassumption. exact Hname.
  - erewrite N2 by eassumption. exact Hname.
  - erewrite N3 by eassumption. exact Hname.
  - erewrite N4 by eassumption. exact Hname.
Qed.

End Names.

Lemma name_is_file_stem_witness :
  CD.init "runs/lys.csv" Sample.lys None false = Ok Sample.lys_state
  /\ CD.name (self Sample.lys_state) = "lys".
Proof.
  assert (E : CD.init "runs/lys.csv" Sample.lys None false = Ok Sample.lys_state)
    by reflexivity.
  split; [exact E|].
  refine (proj1 (name_is_file_stem "runs" "lys" ".csv" Sample.lys _ _ _)
            None false Sample.lys_state E).
  - reflexivity.
  - reflexivity.
  - right. reflexivity.
Defined.

(** ** [smoothed] is written and never read *)

Section SmoothedUnread.
Context {F : Type} `{Number F} `{Pandas F}.
Import Pipeline.

Lemma with_smoothed_self (st : CD.St F) :
  with_smoothed (CD.smoothed (self st)) st = st.
Proof. destruct st as [h [] o]. reflexivity. Qed.

Lemma with_smoothed_twice y y' (st : CD.St F) :
  with_smoothed y (with_smoothed y' st) = with_smoothed y st.
Proof. reflexivity. Qed.

Lemma step_with_smoothed (c : cd_call) y (st : CD.St F) :
  is_smooth c = false ->
  cd_step c (with_smoothed y st)
  = (fst (cd_step c st), with_smoothed y (snd (cd_step c st))).
Proof.
  intros Hc. destruct st as [h [] o].
  destruct c as [|fb|wdw polyorder|c aa pl|lo up]; try discriminate;
    unfold cd_step, with_smoothed, CD.ht_filter, CD.baseline, CD.mre,
      CD.integrate, CD.wavelength_of, CD.ellipticity_of, print; simpl.
  all: repeat match goal with
              | |- context [match ?x with _ => _ end] => destruct x; simpl
              end;
    reflexivity.
Qed.

Lemma smooth_with_smoothed wdw polyorder y (st : CD.St F) :
  exists y',
    snd (CD.smooth wdw polyorder (with_smoothed y st)) = with_smoothed y' st.
Proof.
  unfold CD.smooth, CD.ellipticity_of. simpl.
  destruct (savgol_filter (values (deref (heap st) (CD.ellipticity (self st))))
              wdw polyorder) as [z|e]; simpl.
  - now exists (Some z).
  - now exists y.
Qed.

Lemma run_with_smoothed (cs : list cd_call) :
  forall y (st : CD.St F),
    exists y',
      cd_run cs (with_smoothed y st)
      = with_smoothed y' (cd_run (without_smooth cs) st).
Proof.
  induction cs as [|c cs IH]; intros y st; simpl; [now exists y|].
  destruct (is_smooth c) eqn:Hc; simpl.
  - destruct c; try discriminate.
    destruct (smooth_with_smoothed wdw polyorder y st) as [y1 Hy1].
    cbn [cd_step]. rewrite Hy1. apply IH.
  - rewrite (step_with_smoothed _ y st Hc). simpl. apply IH.
Qed.

(** X17.  No method reads [smoothed]: a sequence of calls leaves the
    record it would leave with its calls of [smooth] taken out, up to the
    attribute [smoothed] itself.  In particular [mre] and [integrate] work
    on the values that were not smoothed. *)
Theorem smoothed_is_never_read (cs : list cd_call) (st : CD.St F) :
  exists y,
    cd_run cs st = with_smoothed y (cd_run (without_smooth cs) st).
Proof.
  destruct (run_with_smoothed cs (CD.smoothed (self st)) st) as [y Hy].
  rewrite with_smoothed_self in Hy. now exists y.
Qed.

End SmoothedUnread.

(** ** [integrate] after [ht_filter] *)

Section BeyondCutoff.
Context {F : Type} `{Number F} `{Pandas F} `{!NumberOrder F}.

Lemma absent_beyond_prefix (s : @Series F) (n k : nat) (w b : F) :
  descending (values s) = true ->
  nth_error (values s) k = Some w -> feqb w b = true -> (n <= k)%nat ->
  present b (firstn n s) = false.
Proof.
  intros Hd Hk Hw Hn. unfold present. rewrite values_firstn.
  destruct (existsb (fun x => feqb x b) (firstn n (values s))) eqn:Ex; auto.
  exfalso. apply existsb_exists in Ex. destruct Ex as (x & Hin & Hx).
  apply In_nth_error in Hin. destruct Hin as [j Hj].
  rewrite nth_error_firstn in Hj.
  destruct (j <? n)%nat eqn:Hjn; [|discriminate].
  apply Nat.ltb_lt in Hjn.
  assert (Hjk : (j < k)%nat) by lia.
  pose proof (descending_nth _ Hd Hjk Hj Hk) as Hlt.
  rewrite (fltb_feqb _ _ _ _ Hw Hx) in Hlt.
  pose proof (fltb_asym _ _ Hlt). congruence.
Qed.

(** X19.  After [ht_filter] on a record scanned downwards, a bound of
    [integrate] that equals a sample beyond the cutoff is no longer in
    the domain: the call raises [IndexError] and leaves the record. *)
Theorem integrate_beyond_cutoff
    path f ht_max abs (st0 : CD.St F) (lower upper w : F) (k : nat) :
  CD.init path f ht_max abs = Ok st0 ->
  descending (values (CD.wavelength_of st0)) = true ->
  nth_error (values (CD.wavelength_of st0)) k = Some w ->
  feqb w lower = true \/ feqb w upper = true ->
  CD.idx_cutoff (self st0) < Z.of_nat k ->
  let st := snd (CD.ht_filter st0) in
  CD.integrate lower upper st = (Err IndexError, st).
Proof.
  intros Hinit Hd Hk Hw Hcut. cbv zeta.
  destruct (init_columns _ _ _ _ Hinit)
    as (rows0 & Hwl & _ & _ & _ & _ & _ & _ & Hf & _).
  destruct Hwl as [Hwl _].
  destruct (ht_filter_truncates st0 Hf Hwl) as (_ & _ & Ew & _).
  cbv zeta in Ew.
  pose proof (init_cutoff _ _ _ _ Hinit) as Hidx.
  assert (Hupto : iloc_upto (CD.idx_cutoff (self st0) + 1) (CD.wavelength_of st0)
                  = firstn (Z.to_nat (CD.idx_cutoff (self st0) + 1))
                      (CD.wavelength_of st0)).
  { unfold iloc_upto, Py.upto.
    destruct (CD.idx_cutoff (self st0) + 1 <? 0) eqn:Neg; [|reflexivity].
    apply Z.ltb_lt in Neg. lia. }
  rewrite Hupto in Ew.
  assert (Hn : (Z.to_nat (CD.idx_cutoff (self st0) + 1) <= k)%nat) by lia.
  unfold CD.integrate. rewrite Ew.
  destruct Hw as [Hl|Hu].
  - pose proof (absent_beyond_prefix _ _ Hd Hk Hl Hn) as Habs.
    destruct (present upper
                (firstn (Z.to_nat (CD.idx_cutoff (self st0) + 1))
                   (CD.wavelength_of st0))) eqn:Eu.
    + destruct (index0_where_eq_present _ _ Eu) as [a ->]. simpl.
      now rewrite (index0_where_eq_absent _ _ Habs).
    + now rewrite (index0_where_eq_absent _ _ Eu).
  - pose proof (absent_beyond_prefix _ _ Hd Hk Hu Hn) as Habs.
    now rewrite (index0_where_eq_absent _ _ Habs).
Qed.

End BeyondCutoff.

Lemma integrate_beyond_cutoff_witness :
  CD.init "runs/lys.csv" Sample.lys None false = Ok Sample.lys_state
  /\ fst (CD.integrate 257%float 260%float (snd (CD.ht_filter Sample.lys_state)))
     = Err IndexError.
Proof.
  assert (E : CD.init "runs/lys.csv" Sample.lys None false = Ok Sample.lys_state)
    by reflexivity.
  split; [exact E|].
  rewrite (integrate_beyond_cutoff _ _ _ _ 257%float 260%float
             (w := 257%float) 3%nat E);
    try reflexivity.
  - left. reflexivity.
Defined.

(** ** [baseline] after [mre] *)

Section AfterMre.
Context {F : Type} `{Number F} `{Pandas F} `{!NumberOrder F} `{!NumberLe F}.



End AfterMre.


(** ** The melting curve *)

Section Curve.
Context {F : Type} `{Number F} `{Pandas F}.


End Curve.


(** ** Smoothing twice *)

Section SmoothTwice.
Context {F : Type} `{Number F} `{Pandas F}.

(** X21.  Smoothing is not cumulative in any of the four classes: a call
    of [smooth] after an earlier one filters the values the earlier call
    was given, raises what it would raise without the earlier call, and
    when it returns leaves the record it would leave without it. *)
Theorem smoothing_is_not_cumulative (w1 p1 w2 p2 : Z) :
  (forall st : CD.St F,
      let st1 := snd (CD.smooth w1 p1 st) in
      fst (CD.smooth w2 p2 st1) = fst (CD.smooth w2 p2 st)
      /\ (fst (CD.smooth w2 p2 st) = Ok tt ->
          snd (CD.smooth w2 p2 st1) = snd (CD.smooth w2 p2 st)))
  /\ (forall st : Abs.St F,
         let st1 := snd (Abs.smooth w1 p1 st) in
         fst (Abs.smooth w2 p2 st1) = fst (Abs.smooth w2 p2 st)
         /\ (fst (Abs.smooth w2 p2 st) = Ok tt ->
             snd (Abs.smooth w2 p2 st1) = snd (Abs.smooth w2 p2 st)))
  /\ (forall st : MeltCurve.St F,
         let st1 := snd (MeltCurve.smooth w1 p1 st) in
         fst (MeltCurve.smooth w2 p2 st1) = fst (MeltCurve.smooth w2 p2 st)
         /\ (fst (MeltCurve.smooth w2 p2 st) = Ok tt ->
             snd (MeltCurve.smooth w2 p2 st1) = snd (MeltCurve.smooth w2 p2 st)))
  /\ (forall st : MeltSpectra.St F,
         let st1 := snd (MeltSpectra.smooth w1 p1 st) in
         fst (MeltSpectra.smooth w2 p2 st1) = fst (MeltSpectra.smooth w2 p2 st)
         /\ (fst (MeltSpectra.smooth w2 p2 st) = Ok tt ->
             snd (MeltSpectra.smooth w2 p2 st1)
             = snd (MeltSpectra.smooth w2 p2 st))).
Proof.
  repeat split; intros.
  all: try match goal with st : State _ _ |- _ => destruct st as [h [] o] end.
  all: unfold CD.smooth, Abs.smooth, MeltCurve.smooth, MeltSpectra.smooth,
         CD.ellipticity_of, Abs.abs_of, MeltSpectra.active in *;
    simpl in *.
  all: repeat match goal with
              | |- context [match ?x with _ => _ end] =>
                  destruct x eqn:?; simpl in *
              | E : context [match ?x with _ => _ end] |- _ =>
                  destruct x eqn:?; simpl in *
              end;
    try congruence; try reflexivity.
  all: repeat match goal with
              | E : Ok _ = Ok _ |- _ => inversion E; clear E; subst
              end;
    reflexivity.
Qed.

End SmoothTwice.
